(** * webwaka-core-ledger: the ledger engine over its in-memory store

    A shallow embedding of [src/index.ts] (class [Ledger]) and
    [src/storage.ts] (class [InMemoryStorage]), together with the parts of
    the JavaScript [Number] type the engine relies on ([parseFloat],
    [+], [-], [*], [Math.abs], [>], [toFixed], [toString]).

    Conventions.
    - A JavaScript string is a [string] that holds its text as UTF-8; the
      empty string is the only falsy one, which matters for [a || b].
    - A sequence number is an integer.  The code holds it in a double, which
      is exact on the safe integers (below [2^53] in magnitude) and prints
      them digit by digit.
    - Metadata is taken as the text that [JSON.stringify] makes of it; a
      value that [JSON.stringify] refuses (a [BigInt], a cycle) is not
      modelled.
    - A call runs from start to end on its own: no other call runs between
      its [await]s.
    - An optional field ([x?: T], [T | null], [T | undefined]) is an
      [option T].
    - [throw] is the [Throw] result of the [M] monad; the store is threaded
      through explicitly and survives a throw, as in JavaScript.
    - [uuidv4()] and [new Date()] read from two oracles carried by the
      world, so every run is deterministic given the oracles. *)

From Stdlib Require Import ZArith String Ascii List Lia Sorted Permutation.
From stdpp Require Import gmap strings list sorting.

(** ** JavaScript numbers (IEEE-754 binary64) *)

Module JSNumber.
Local Open Scope Z_scope.

(** Every finite double is an integer multiple of [2^-1074] (the smallest
    subnormal), so a finite double is represented by that integer:
    [Num k] denotes [k * 2^-1074].  [Num 0] is [+0]; [NegZero] is [-0]. *)
Inductive F64 : Type :=
| NaN
| Inf (neg : bool)
| NegZero
| Num (k : Z).

(** [1.0] in units of [2^-1074]. *)
Definition ONE : Z := 2 ^ 1074.
(** [2^1024] in units: the first magnitude that is no longer finite. *)
Definition OVERFLOW : Z := 2 ^ 2098.

Definition F64_eqb (x y : F64) : bool :=
  match x, y with
  | NaN, NaN => true
  | Inf a, Inf b => Bool.eqb a b
  | NegZero, NegZero => true
  | Num a, Num b => a =? b
  | _, _ => false
  end.

(** Nearest integer to [p/q] ([0 <= p], [0 < q]), ties to even. *)
Definition round_half_even (p q : Z) : Z :=
  let d := p / q in
  let r := p mod q in
  match 2 * r ?= q with
  | Lt => d
  | Gt => d + 1
  | Eq => if Z.even d then d else d + 1
  end.

(** Nearest binary64 magnitude, in units, to the rational [p/q] units
    ([0 <= p], [0 < q]), with an unbounded exponent.  Below [2^53] units
    (subnormals and the first normal binade) doubles are one unit apart;
    above, the significand keeps 53 bits. *)
Definition round_units (p q : Z) : Z :=
  let t := p / q in
  if t <? 2 ^ 53 then round_half_even p q
  else
    let sh := Z.log2 t - 52 in
    round_half_even p (q * 2 ^ sh) * 2 ^ sh.

(** Round the magnitude [p/q] units with sign [neg] to a double. *)
Definition round_F64 (neg : bool) (p q : Z) : F64 :=
  let k := round_units p q in
  if OVERFLOW <=? k then Inf neg
  else if k =? 0 then (if neg then NegZero else Num 0)
  else Num (if neg then - k else k).

(** A finite double from an integer number of units (exact sum of two
    doubles, for instance); an exact zero is [+0]. *)
Definition of_units (s : Z) : F64 :=
  if s =? 0 then Num 0 else round_F64 (s <? 0) (Z.abs s) 1.

Definition of_Z (n : Z) : F64 := of_units (n * ONE).

Definition fneg (x : F64) : F64 :=
  match x with
  | NaN => NaN
  | Inf s => Inf (negb s)
  | NegZero => Num 0
  | Num k => if k =? 0 then NegZero else Num (- k)
  end.

Definition fabs (x : F64) : F64 :=
  match x with
  | NaN => NaN
  | Inf _ => Inf false
  | NegZero => Num 0
  | Num k => Num (Z.abs k)
  end.

(** [x + y] *)
Definition fadd (x y : F64) : F64 :=
  match x, y with
  | NaN, _ | _, NaN => NaN
  | Inf a, Inf b => if Bool.eqb a b then Inf a else NaN
  | Inf a, _ => Inf a
  | _, Inf b => Inf b
  | NegZero, NegZero => NegZero
  | NegZero, Num k => Num k
  | Num k, NegZero => Num k
  | Num a, Num b => of_units (a + b)
  end.

(** [x - y] *)
Definition fsub (x y : F64) : F64 := fadd x (fneg y).

Definition sign_of (x : F64) : bool :=
  match x with
  | NaN => false
  | Inf s => s
  | NegZero => true
  | Num k => k <? 0
  end.

Definition is_zero (x : F64) : bool :=
  match x with
  | NegZero => true
  | Num k => k =? 0
  | _ => false
  end.

(** [x * y] *)
Definition fmul (x y : F64) : F64 :=
  match x, y with
  | NaN, _ | _, NaN => NaN
  | Inf a, _ => if is_zero y then NaN else Inf (xorb a (sign_of y))
  | _, Inf b => if is_zero x then NaN else Inf (xorb (sign_of x) b)
  | _, _ =>
      let s := xorb (sign_of x) (sign_of y) in
      let mag z := match z with Num k => Z.abs k | _ => 0 end in
      round_F64 s (mag x * mag y) ONE
  end.

(** [x > y] *)
Definition fgt (x y : F64) : bool :=
  match x, y with
  | NaN, _ | _, NaN => false
  | Inf a, Inf b => negb a && b
  | Inf a, _ => negb a
  | _, Inf b => b
  | _, _ =>
      let v z := match z with Num k => k | _ => 0 end in
      v y <? v x
  end.

(** *** Decimal digits *)

Definition digit_char (d : Z) : ascii := ascii_of_nat (48 + Z.to_nat d).

(** The decimal digits of [n], prepended to [acc]; [fuel] bounds their
    number. *)
Fixpoint to_digits (fuel : nat) (n : Z) (acc : string) : string :=
  match fuel with
  | O => acc
  | S fuel' =>
      let acc' := String (digit_char (n mod 10)) acc in
      if n <? 10 then acc' else to_digits fuel' (n / 10) acc'
  end.

(** The decimal digits of [n >= 0], without leading zeros; [n] has no more
    decimal digits than binary ones. *)
Definition digits_of (n : Z) : string :=
  to_digits (S (Z.to_nat (Z.log2 n))) n EmptyString.

Definition string_of_Z (n : Z) : string :=
  if n <? 0 then String "-" (digits_of (- n)) else digits_of n.

Definition digits10 (n : Z) : Z :=
  Z.of_nat (String.length (digits_of (Z.abs n))).

Fixpoint zeros (n : nat) : string :=
  match n with
  | O => EmptyString
  | S n' => String "0" (zeros n')
  end.

Fixpoint str_take (n : nat) (s : string) : string :=
  match n, s with
  | S n', String c s' => String c (str_take n' s')
  | _, _ => EmptyString
  end.

Fixpoint str_drop (n : nat) (s : string) : string :=
  match n, s with
  | S n', String _ s' => str_drop n' s'
  | _, _ => s
  end.

Definition is_digit (c : ascii) : bool :=
  let n := Z.of_nat (nat_of_ascii c) in (48 <=? n) && (n <=? 57).

Definition digit_val (c : ascii) : Z := Z.of_nat (nat_of_ascii c) - 48.

(** The longest prefix of decimal digits, and the rest. *)
Fixpoint span_digits (s : string) : string * string :=
  match s with
  | String c s' =>
      if is_digit c then
        let '(d, r) := span_digits s' in (String c d, r)
      else (EmptyString, s)
  | EmptyString => (EmptyString, EmptyString)
  end.

Fixpoint digits_value (acc : Z) (s : string) : Z :=
  match s with
  | String c s' => digits_value (10 * acc + digit_val c) s'
  | EmptyString => acc
  end.

(** *** [parseFloat] *)

(** WhiteSpace and LineTerminator characters of one byte: TAB, LF, VT, FF,
    CR and SP. *)
Definition is_space (c : ascii) : bool :=
  let n := Z.of_nat (nat_of_ascii c) in ((9 <=? n) && (n <=? 13)) || (n =? 32).

(** Of two bytes: U+00A0, the no-break space. *)
Definition is_space2 (c1 c2 : ascii) : bool :=
  (Z.of_nat (nat_of_ascii c1) =? 194) && (Z.of_nat (nat_of_ascii c2) =? 160).

(** Of three bytes: U+1680; U+2000 to U+200A, the line and paragraph
    separators U+2028 and U+2029, U+202F; U+205F; U+3000; and the byte
    order mark U+FEFF. *)
Definition is_space3 (c1 c2 c3 : ascii) : bool :=
  let n1 := Z.of_nat (nat_of_ascii c1) in
  let n2 := Z.of_nat (nat_of_ascii c2) in
  let n3 := Z.of_nat (nat_of_ascii c3) in
  ((n1 =? 225) && (n2 =? 154) && (n3 =? 128))
  || ((n1 =? 226) && (n2 =? 128)
      && (((128 <=? n3) && (n3 <=? 138)) || (n3 =? 168) || (n3 =? 169)
          || (n3 =? 175)))
  || ((n1 =? 226) && (n2 =? 129) && (n3 =? 159))
  || ((n1 =? 227) && (n2 =? 128) && (n3 =? 128))
  || ((n1 =? 239) && (n2 =? 187) && (n3 =? 191)).

(** Strip the leading white space, one character at a time: a byte below
    128 is a character of its own, the others lead a longer one. *)
Fixpoint trim_start (s : string) : string :=
  match s with
  | String c s1 =>
      if Z.of_nat (nat_of_ascii c) <? 128 then
        if is_space c then trim_start s1 else s
      else
        match s1 with
        | String c1 s2 =>
            if is_space2 c c1 then trim_start s2
            else
              match s2 with
              | String c2 s3 =>
                  if is_space3 c c1 c2 then trim_start s3 else s
              | EmptyString => s
              end
        | EmptyString => s
        end
  | EmptyString => s
  end.

Definition starts_with (p s : string) : bool := String.prefix p s.

(** The exact value [m * 10^e] of a decimal literal, rounded to a double. *)
Definition of_decimal (neg : bool) (m e : Z) : F64 :=
  if 0 <=? e then round_F64 neg (m * 10 ^ e * ONE) 1
  else round_F64 neg (m * ONE) (10 ^ (- e)).

(** The optional ExponentPart: [e] or [E], an optional sign and at least one
    digit; anything else is not part of the literal. *)
Definition parse_exponent (s : string) : Z :=
  match s with
  | String c s' =>
      if (Ascii.eqb c "e" || Ascii.eqb c "E")%bool then
        let '(eneg, s'') :=
          match s' with
          | String "+" r => (false, r)
          | String "-" r => (true, r)
          | _ => (false, s')
          end in
        let '(ed, _) := span_digits s'' in
        match ed with
        | EmptyString => 0
        | _ => if eneg then - digits_value 0 ed else digits_value 0 ed
        end
      else 0
  | EmptyString => 0
  end.

(** What the longest StrDecimalLiteral prefix of a string denotes, before
    any rounding: nothing, an infinity, or the decimal [m * 10^e]. *)
Inductive Literal : Type :=
| LitNone
| LitInfinity (neg : bool)
| LitDecimal (neg : bool) (m e : Z).

(** A StrUnsignedDecimalLiteral prefix, the sign being known. *)
Definition parse_unsigned (neg : bool) (s1 : string) : Literal :=
  if starts_with "Infinity" s1 then LitInfinity neg
  else
    let '(ip, r1) := span_digits s1 in
    let '(fp, r2) :=
      match r1 with
      | String "." r => span_digits r
      | _ => (EmptyString, r1)
      end in
    match ip, fp with
    | EmptyString, EmptyString => LitNone
    | _, _ =>
        LitDecimal neg (digits_value 0 (ip +:+ fp))
                   (parse_exponent r2 - Z.of_nat (String.length fp))
    end.

Definition parse_literal (s : string) : Literal :=
  let s0 := trim_start s in
  match s0 with
  | String "+" r => parse_unsigned false r
  | String "-" r => parse_unsigned true r
  | _ => parse_unsigned false s0
  end.

(** [parseFloat(s)]: the double nearest to the literal, or [NaN] when the
    trimmed string does not start with one. *)
Definition parseFloat (s : string) : F64 :=
  match parse_literal s with
  | LitNone => NaN
  | LitInfinity neg => Inf neg
  | LitDecimal neg m e => of_decimal neg m e
  end.

(** *** [Number.prototype.toString] (radix 10) *)

(** The decade [n] of a positive double [k] units: [10^(n-1) <= x < 10^n]. *)
Definition decade (k : Z) : Z :=
  if ONE <=? k then digits10 (k / ONE)
  else 1 - digits10 ((ONE - 1) / k).

(** [x / 10^ex] as a fraction, for [x = k] units. *)
Definition scaled (k ex : Z) : Z * Z :=
  if 0 <=? ex then (k, ONE * 10 ^ ex) else (k * 10 ^ (- ex), ONE).

(** Does the decimal [c * 10^ex] denote the double [k] units? *)
Definition denotes (c ex k : Z) : bool :=
  F64_eqb (of_decimal false c ex) (Num k).

(** The multiples of [10^ex] next to [x]: the one below and the one above;
    the closer of those that denote [x], the even one on a tie. *)
Definition candidate (k ex : Z) : option Z :=
  let '(p, q) := scaled k ex in
  let lo := p / q in
  let hi := lo + 1 in
  let r := p mod q in
  match denotes lo ex k, denotes hi ex k with
  | true, true =>
      match 2 * r ?= q with
      | Lt => Some lo
      | Gt => Some hi
      | Eq => Some (if Z.even lo then lo else hi)
      end
  | true, false => Some lo
  | false, true => Some hi
  | false, false => None
  end.

(** The least number of digits [kd] (tried in the given order) for which a
    [kd]-digit decimal [s * 10^ex] denotes [x], [n] being the decade of
    [x]: the digits [s] and the exponent [ex].  A carry to [10^kd] is the
    single digit 1.  Seventeen digits tell any two doubles apart, so the
    search succeeds on [digit_counts]; the last clause, the exact decimal
    expansion [k * 5^1074 * 10^-1074], only makes the function total. *)
Fixpoint shortest (k n : Z) (kds : list Z) : Z * Z :=
  match kds with
  | kd :: kds' =>
      match candidate k (n - kd) with
      | Some s => if s =? 10 ^ kd then (1, n) else (s, n - kd)
      | None => shortest k n kds'
      end
  | [] => (k * 5 ^ 1074, -1074)
  end.

Definition digit_counts : list Z :=
  [1; 2; 3; 4; 5; 6; 7; 8; 9; 10; 11; 12; 13; 14; 15; 16; 17].

(** Digits and decade to text, as in Number::toString steps 6 to 12. *)
Definition format_digits (ds : string) (n : Z) : string :=
  let k := Z.of_nat (String.length ds) in
  if (k <=? n) && (n <=? 21) then ds +:+ zeros (Z.to_nat (n - k))
  else if (0 <? n) && (n <=? 21) then
    str_take (Z.to_nat n) ds +:+ "." +:+ str_drop (Z.to_nat n) ds
  else if (-6 <? n) && (n <=? 0) then
    "0." +:+ zeros (Z.to_nat (- n)) +:+ ds
  else
    let e := n - 1 in
    let es := (if 0 <=? e then "+" else "-") +:+ digits_of (Z.abs e) in
    if k =? 1 then ds +:+ "e" +:+ es
    else str_take 1 ds +:+ "." +:+ str_drop 1 ds +:+ "e" +:+ es.

(** The text of a positive double: its shortest digits [s], of which there
    are [k], and [n = k + ex]. *)
Definition toString_pos (k : Z) : string :=
  let '(s, ex) := shortest k (decade k) digit_counts in
  let ds := digits_of s in
  format_digits ds (Z.of_nat (String.length ds) + ex).

Definition toString (x : F64) : string :=
  match x with
  | NaN => "NaN"
  | Inf false => "Infinity"
  | Inf true => "-Infinity"
  | NegZero => "0"
  | Num k =>
      if k =? 0 then "0"
      else if k <? 0 then String "-" (toString_pos (- k))
      else toString_pos k
  end.

(** *** [Number.prototype.toFixed] *)

(** The integer [n] with [n / 10^f] nearest to [p/q], the larger on a tie. *)
Definition round_half_up (p q : Z) : Z := (2 * p + q) / (2 * q).

(** [n] with [f] fraction digits: at least [f + 1] digits, a point before
    the last [f]. *)
Definition fixed_digits (n : Z) (f : nat) : string :=
  let m := digits_of n in
  let k := String.length m in
  let m' := if (k <=? f)%nat then zeros (f + 1 - k) +:+ m else m in
  let k' := String.length m' in
  str_take (k' - f) m' +:+ "." +:+ str_drop (k' - f) m'.

(** [x.toFixed(f)] for [1 <= f <= 100]. *)
Definition toFixed (x : F64) (f : nat) : string :=
  match x with
  | NaN => "NaN"
  | Inf false => "Infinity"
  | Inf true => "-Infinity"
  | NegZero => fixed_digits 0 f
  | Num k =>
      let a := Z.abs k in
      let sg := if k <? 0 then "-" else EmptyString in
      if 10 ^ 21 * ONE <=? a then sg +:+ toString_pos a
      else sg +:+ fixed_digits (round_half_up (a * 10 ^ Z.of_nat f) ONE) f
  end.

End JSNumber.

Import JSNumber.

(** *** Doubles that hold a value exactly *)

(** Magnitudes (in units) that a double can hold, the exponent unbounded:
    at most 53 significant bits. *)
Definition representable (k : Z) : Prop :=
  (0 <= k /\ (k < 2 ^ 53 \/ (2 ^ (Z.log2 k - 52) | k)))%Z.

(** [k] units is a finite double. *)
Definition exact_double (k : Z) : Prop :=
  representable (Z.abs k) /\ (Z.abs k < OVERFLOW)%Z.

(** The doubles that arithmetic produces: every finite one is a finite
    double. *)
Definition canonical (x : F64) : Prop :=
  match x with
  | Num k => exact_double k
  | _ => True
  end.

(** *** Exact decimal arithmetic, following the specification

    The specification speaks of the exact sum of the amounts and of the
    exact negation of an amount.  The exact value of a decimal literal is
    the fraction [p/q] with [0 < q]; sums, negation and the rendering at a
    fixed number of fraction digits are those of fractions. *)

Definition exact_value (s : string) : option (Z * Z) :=
  match parse_literal s with
  | LitDecimal neg m e =>
      let v := if neg then (- m)%Z else m in
      Some (if (0 <=? e)%Z then ((v * 10 ^ e)%Z, 1%Z) else (v, (10 ^ (- e))%Z))
  | _ => None
  end.

Definition frac_add (x y : Z * Z) : Z * Z :=
  ((x.1 * y.2 + y.1 * x.2)%Z, (x.2 * y.2)%Z).



Definition exact_sum (amounts : list string) : option (Z * Z) :=
  fold_left (fun acc s =>
               match acc, exact_value s with
               | Some x, Some v => Some (frac_add x v)
               | _, _ => None
               end)
            amounts (Some (0%Z, 1%Z)).

(** [p/q] with [f] fraction digits, the nearest, halves away from zero. *)
Definition exact_toFixed (x : Z * Z) (f : nat) : string :=
  (if (x.1 <? 0)%Z then "-" else EmptyString)
  +:+ fixed_digits (round_half_up (Z.abs x.1 * 10 ^ Z.of_nat f) x.2) f.




(** *** Digit strings *)

Fixpoint all_digits (s : string) : bool :=
  match s with
  | EmptyString => true
  | String c s' => is_digit c && all_digits s'
  end.

(** The head of a string is not a digit (or there is none). *)
Definition stops (r : string) : Prop :=
  match r with
  | EmptyString => True
  | String c _ => is_digit c = false
  end.

(** [x] with [-0] read as [+0]: what the text of [x] denotes. *)
Definition unsigned_zero (x : F64) : F64 :=
  match x with
  | NegZero => Num 0
  | _ => x
  end.

(** A zero or a finite number other than zero. *)
Definition finite (x : F64) : Prop :=
  match x with
  | Num _ | NegZero => True
  | NaN | Inf _ => False
  end.

(** ** Data model ([src/index.ts]) *)

(** A [Date]: a time value in milliseconds, or an invalid date (whose time
    value is [NaN]). *)
Inductive JSDate : Type :=
| ValidDate (ms : Z)
| InvalidDate.

(** [a < b] and [a > b] on dates compare the time values; a comparison with
    [NaN] is false. *)
Definition date_lt (a b : JSDate) : bool :=
  match a, b with
  | ValidDate x, ValidDate y => (x <? y)%Z
  | _, _ => false
  end.

Definition date_gt (a b : JSDate) : bool := date_lt b a.

Record LedgerAccount : Type := mkAccount {
  acct_id : string;
  acct_tenantId : string;
  acct_accountType : string;
  acct_currency : string;
  acct_metadata : option string;
  acct_createdAt : JSDate
}.

Record LedgerEvent : Type := mkEvent {
  ev_id : string;
  ev_tenantId : string;
  ev_accountId : string;
  ev_eventType : string;
  ev_amount : string;
  ev_currency : string;
  ev_idempotencyKey : string;
  ev_reversesEventId : option string;
  ev_description : option string;
  ev_metadata : option string;
  ev_sequenceNumber : Z;
  ev_createdAt : JSDate
}.

(** The payload of an audit record is kept as the object handed to
    [JSON.stringify], a list of fields. *)
Record AuditEvent : Type := mkAudit {
  au_id : string;
  au_tenantId : string;
  au_entityType : string;
  au_entityId : string;
  au_action : string;
  au_actorId : option string;
  au_payload : option (list (string * string));
  au_createdAt : JSDate
}.

Record OpenAccountParams : Type := mkOpenAccountParams {
  oa_accountId : option string;
  oa_accountType : string;
  oa_currency : string;
  oa_metadata : option string
}.

Record RecordEventParams : Type := mkRecordEventParams {
  re_eventId : option string;
  re_accountId : string;
  re_eventType : string;
  re_amount : string;
  re_currency : string;
  re_idempotencyKey : string;
  re_description : option string;
  re_metadata : option string
}.

Record ReverseEventParams : Type := mkReverseEventParams {
  rv_originalEventId : string;
  rv_reversalEventId : option string;
  rv_idempotencyKey : string;
  rv_description : option string
}.

Record AccountBalance : Type := mkBalance {
  bal_accountId : string;
  bal_balance : string;
  bal_currency : string;
  bal_eventCount : nat
}.

Record StatementEntry : Type := mkEntry {
  se_eventId : string;
  se_eventType : string;
  se_amount : string;
  se_runningBalance : string;
  se_description : option string;
  se_createdAt : JSDate
}.

Record AccountStatement : Type := mkStatement {
  st_accountId : string;
  st_currency : string;
  st_entries : list StatementEntry;
  st_openingBalance : string;
  st_closingBalance : string
}.

Record IntegrityReport : Type := mkReport {
  ir_valid : bool;
  ir_accountId : string;
  ir_expectedBalance : string;
  ir_calculatedBalance : string;
  ir_eventCount : nat;
  ir_errors : list string
}.

Record AuditEventParams : Type := mkAuditParams {
  ap_entityType : string;
  ap_entityId : string;
  ap_action : string;
  ap_actorId : option string;
  ap_payload : option (list (string * string))
}.

(** What can be thrown: a [LedgerError] (message, code, details) or the
    plain [Error] of the store. *)
Inductive Exn : Type :=
| LedgerError (message code : string) (details : list (string * string))
| Error (message : string).

Definition exn_code (e : Exn) : option string :=
  match e with
  | LedgerError _ c _ => Some c
  | Error _ => None
  end.

(** [a || b] on an optional string: [undefined], [null] and the empty
    string are falsy. *)
Definition truthy (o : option string) : option string :=
  match o with
  | Some EmptyString => None
  | Some s => Some s
  | None => None
  end.

(** An object ([Date]) is truthy whenever it is there. *)
Definition defined {A} (o : option A) : bool :=
  match o with
  | Some _ => true
  | None => false
  end.

Global Instance JSDate_eq_dec : EqDecision JSDate.
Proof. solve_decision. Defined.
Global Instance LedgerAccount_eq_dec : EqDecision LedgerAccount.
Proof. solve_decision. Defined.
Global Instance LedgerEvent_eq_dec : EqDecision LedgerEvent.
Proof. solve_decision. Defined.

(** ** The in-memory store ([src/storage.ts]) *)

Record InMemoryStorage : Type := mkStorage {
  accounts : gmap string LedgerAccount;
  events : list LedgerEvent;
  auditEvents : list AuditEvent
}.

Definition emptyStorage : InMemoryStorage := mkStorage ∅ [] [].

(** The world an engine runs in: the store it shares, and the two sources
    of non-determinism, [uuidv4()] and [new Date()], as oracles with a
    count of the values already drawn. *)
Record World : Type := mkWorld {
  storage : InMemoryStorage;
  uuid_oracle : nat -> string;
  uuid_drawn : nat;
  clock_oracle : nat -> Z;
  clock_drawn : nat
}.

Inductive Result (A : Type) : Type :=
| Ok (a : A)
| Throw (e : Exn).
Arguments Ok {A} a.
Arguments Throw {A} e.

Definition exn_code_of {A} (r : Result A) : option string :=
  match r with
  | Ok _ => None
  | Throw e => exn_code e
  end.

(** Computations that read and write the world and may throw; a throw keeps
    the writes made before it. *)
Definition M (A : Type) : Type := World -> Result A * World.

Definition ret {A} (a : A) : M A := fun w => (Ok a, w).

Definition bind {A B} (c : M A) (k : A -> M B) : M B :=
  fun w =>
    match c w with
    | (Ok a, w') => k a w'
    | (Throw e, w') => (Throw e, w')
    end.

Definition throw {A} (e : Exn) : M A := fun w => (Throw e, w).

Notation "'let*' x := c 'in' k" := (bind c (fun x => k))
  (at level 10, x name, c at level 100, k at level 200).
Notation "c ;;; k" := (bind c (fun _ => k))
  (at level 100, k at level 200, right associativity).

Definition getStorage : M InMemoryStorage := fun w => (Ok (storage w), w).

Definition putStorage (s : InMemoryStorage) : M unit :=
  fun w => (Ok tt, mkWorld s (uuid_oracle w) (uuid_drawn w)
                           (clock_oracle w) (clock_drawn w)).

(** [uuidv4()] *)
Definition uuidv4 : M string :=
  fun w => (Ok (uuid_oracle w (uuid_drawn w)),
            mkWorld (storage w) (uuid_oracle w) (S (uuid_drawn w))
                    (clock_oracle w) (clock_drawn w)).

(** [new Date()] *)
Definition newDate : M JSDate :=
  fun w => (Ok (ValidDate (clock_oracle w (clock_drawn w))),
            mkWorld (storage w) (uuid_oracle w) (uuid_drawn w)
                    (clock_oracle w) (S (clock_drawn w))).

(** [Omit<T, "createdAt">]: a record of [T] that still waits for its
    [createdAt]. *)
Definition Omit_createdAt (T : Type) : Type := JSDate -> T.

(** The fields of such a record; none but [createdAt] depends on the date
    given here. *)
Definition fields {T} (r : Omit_createdAt T) : T := r InvalidDate.

(** [a || uuidv4()]: the identifier is drawn only when [a] is falsy. *)
Definition or_uuid (a : option string) : M string :=
  match truthy a with
  | Some s => ret s
  | None => uuidv4
  end.

Module Storage.

Definition accountKey (tenantId accountId : string) : string :=
  tenantId +:+ ":" +:+ accountId.

Definition getAccount (s : InMemoryStorage) (tenantId accountId : string)
  : option LedgerAccount :=
  accounts s !! accountKey tenantId accountId.

Definition createAccount (account : Omit_createdAt LedgerAccount)
  : M LedgerAccount :=
  let* now := newDate in
  let created := account now in
  let* s := getStorage in
  putStorage
    (mkStorage (<[accountKey (acct_tenantId (fields account))
                             (acct_id (fields account)) := created]> (accounts s))
               (events s) (auditEvents s)) ;;;
  ret created.

(** [Array.prototype.find]: the first element that satisfies [P]. *)
Definition find {A} (P : A -> Prop) `{!forall x, Decision (P x)} (l : list A)
  : option A :=
  snd <$> list_find P l.

Definition getEventByIdempotencyKey (s : InMemoryStorage)
    (tenantId idempotencyKey : string) : option LedgerEvent :=
  find (fun e => ev_tenantId e = tenantId /\ ev_idempotencyKey e = idempotencyKey)
       (events s).

Definition getEventById (s : InMemoryStorage) (tenantId eventId : string)
  : option LedgerEvent :=
  find (fun e => ev_tenantId e = tenantId /\ ev_id e = eventId) (events s).

Definition getEventsByAccountId (s : InMemoryStorage)
    (tenantId accountId : string) : list LedgerEvent :=
  filter (fun e => ev_tenantId e = tenantId /\ ev_accountId e = accountId)
         (events s).

(** [Math.max(...xs)] of a non-empty list. *)
Definition Math_max (x : Z) (xs : list Z) : Z := fold_left Z.max xs x.

(** Sequence numbers are kept as integers.  The code computes [max + 1] in
    doubles, which is this integer as long as the numbers of the account
    are safe integers; at [2^53] the double sum is [2^53] again. *)
Definition getNextSequenceNumber (s : InMemoryStorage)
    (tenantId accountId : string) : Z :=
  let accountEvents :=
    filter (fun e => ev_tenantId e = tenantId /\ ev_accountId e = accountId)
           (events s) in
  match ev_sequenceNumber <$> accountEvents with
  | [] => 1
  | x :: xs => Math_max x xs + 1
  end.

Definition createEvent (event : Omit_createdAt LedgerEvent) : M LedgerEvent :=
  let* s := getStorage in
  match getEventByIdempotencyKey s (ev_tenantId (fields event))
                                 (ev_idempotencyKey (fields event)) with
  | Some _ =>
      throw (Error ("Duplicate idempotency key: "
                    +:+ ev_idempotencyKey (fields event)))
  | None =>
      let* now := newDate in
      let created := event now in
      putStorage (mkStorage (accounts s) (events s ++ [created]) (auditEvents s)) ;;;
      ret created
  end.

Definition createAuditEvent (event : Omit_createdAt AuditEvent) : M AuditEvent :=
  let* now := newDate in
  let* s := getStorage in
  let created := event now in
  putStorage (mkStorage (accounts s) (events s) (auditEvents s ++ [created])) ;;;
  ret created.

Definition getAuditEvents (s : InMemoryStorage) : list AuditEvent := auditEvents s.

Definition clear : M unit := putStorage emptyStorage.

End Storage.

(** ** The ledger engine ([src/index.ts], class [Ledger]) *)

Module Ledger.
Import Storage.

(** The constructor: a falsy tenant identifier is refused. *)
Definition new (tenantId : string) : Result string :=
  match tenantId with
  | EmptyString => Throw (LedgerError "Tenant ID is required" "INVALID_CONFIG" [])
  | _ => Ok tenantId
  end.

Section Engine.

(** [this.config.tenantId] *)
Variable tenantId : string.

Definition emitAuditEvent (params : AuditEventParams) : M unit :=
  let* id := uuidv4 in
  createAuditEvent
    (mkAudit id tenantId (ap_entityType params) (ap_entityId params)
             (ap_action params) (truthy (ap_actorId params)) (ap_payload params)) ;;;
  ret tt.

Definition openAccount (params : OpenAccountParams) : M LedgerAccount :=
  let* accountId := or_uuid (oa_accountId params) in
  let* s := getStorage in
  match getAccount s tenantId accountId with
  | Some _ =>
      throw (LedgerError ("Account " +:+ accountId +:+ " already exists")
                         "ACCOUNT_EXISTS" [("accountId", accountId)])
  | None =>
      let* account :=
        createAccount
          (mkAccount accountId tenantId (oa_accountType params)
                     (oa_currency params) (oa_metadata params)) in
      emitAuditEvent
        (mkAuditParams "account" accountId "ACCOUNT_OPENED" None
           (Some [("accountType", oa_accountType params);
                  ("currency", oa_currency params)])) ;;;
      ret account
  end.

Definition recordEvent (params : RecordEventParams) : M LedgerEvent :=
  let* s := getStorage in
  match getEventByIdempotencyKey s tenantId (re_idempotencyKey params) with
  | Some existingByKey => ret existingByKey
  | None =>
      match getAccount s tenantId (re_accountId params) with
      | None =>
          throw (LedgerError ("Account " +:+ re_accountId params +:+ " not found")
                             "ACCOUNT_NOT_FOUND"
                             [("accountId", re_accountId params)])
      | Some account =>
          if decide (acct_currency account <> re_currency params) then
            throw (LedgerError
                     ("Currency mismatch: account uses " +:+ acct_currency account
                      +:+ ", event uses " +:+ re_currency params)
                     "CURRENCY_MISMATCH"
                     [("accountCurrency", acct_currency account);
                      ("eventCurrency", re_currency params)])
          else
            let* eventId := or_uuid (re_eventId params) in
            let* s1 := getStorage in
            let sequenceNumber :=
              getNextSequenceNumber s1 tenantId (re_accountId params) in
            let* event :=
              createEvent
                (mkEvent eventId tenantId (re_accountId params)
                         (re_eventType params) (re_amount params)
                         (re_currency params) (re_idempotencyKey params)
                         None (truthy (re_description params))
                         (re_metadata params) sequenceNumber) in
            emitAuditEvent
              (mkAuditParams "event" eventId "EVENT_RECORDED" None
                 (Some [("accountId", re_accountId params);
                        ("eventType", re_eventType params);
                        ("amount", re_amount params);
                        ("currency", re_currency params)])) ;;;
            ret event
      end
  end.

Definition reverseEvent (params : ReverseEventParams) : M LedgerEvent :=
  let* s := getStorage in
  match getEventByIdempotencyKey s tenantId (rv_idempotencyKey params) with
  | Some existingByKey => ret existingByKey
  | None =>
      match getEventById s tenantId (rv_originalEventId params) with
      | None =>
          throw (LedgerError
                   ("Original event " +:+ rv_originalEventId params +:+ " not found")
                   "EVENT_NOT_FOUND"
                   [("eventId", rv_originalEventId params)])
      | Some originalEvent =>
          let existingEvents :=
            getEventsByAccountId s tenantId (ev_accountId originalEvent) in
          if decide (Exists (fun e => ev_reversesEventId e
                                      = Some (rv_originalEventId params))
                            existingEvents) then
            throw (LedgerError
                     ("Event " +:+ rv_originalEventId params
                      +:+ " has already been reversed")
                     "ALREADY_REVERSED"
                     [("eventId", rv_originalEventId params)])
          else
            let* reversalEventId := or_uuid (rv_reversalEventId params) in
            let* s1 := getStorage in
            let sequenceNumber :=
              getNextSequenceNumber s1 tenantId (ev_accountId originalEvent) in
            let reversedAmount :=
              toString (fmul (parseFloat (ev_amount originalEvent)) (of_Z (-1))) in
            let* reversalEvent :=
              createEvent
                (mkEvent reversalEventId tenantId (ev_accountId originalEvent)
                         "REVERSAL" reversedAmount (ev_currency originalEvent)
                         (rv_idempotencyKey params)
                         (Some (rv_originalEventId params))
                         (Some (default
                                  ("Reversal of event " +:+ rv_originalEventId params)
                                  (truthy (rv_description params))))
                         None sequenceNumber) in
            emitAuditEvent
              (mkAuditParams "event" reversalEventId "EVENT_REVERSED" None
                 (Some [("originalEventId", rv_originalEventId params);
                        ("reversalAmount", reversedAmount)])) ;;;
            ret reversalEvent
      end
  end.

(** [let balance = 0; for (const event of events) balance += parseFloat(event.amount)] *)
Definition sum_amounts (evs : list LedgerEvent) : F64 :=
  fold_left (fun balance event => fadd balance (parseFloat (ev_amount event)))
            evs (Num 0).

Definition account_not_found {A} (accountId : string) : M A :=
  throw (LedgerError ("Account " +:+ accountId +:+ " not found")
                     "ACCOUNT_NOT_FOUND" [("accountId", accountId)]).

Definition getAccountBalance (accountId : string) : M AccountBalance :=
  let* s := getStorage in
  match getAccount s tenantId accountId with
  | None => account_not_found accountId
  | Some account =>
      let events := getEventsByAccountId s tenantId accountId in
      let balance := sum_amounts events in
      ret (mkBalance accountId (toFixed balance 8) (acct_currency account)
                     (length events))
  end.

(** [events.sort((a, b) => a.sequenceNumber - b.sequenceNumber)]: the stable
    ascending sort by sequence number. *)
Fixpoint insert_by_seq (x : LedgerEvent) (l : list LedgerEvent) : list LedgerEvent :=
  match l with
  | [] => [x]
  | y :: l' =>
      if (ev_sequenceNumber x <=? ev_sequenceNumber y)%Z then x :: l
      else y :: insert_by_seq x l'
  end.

Definition sort_by_seq (l : list LedgerEvent) : list LedgerEvent :=
  foldr insert_by_seq [] l.

(** The date window of a statement. *)
Definition in_window (fromDate toDate : option JSDate) (e : LedgerEvent) : bool :=
  let eventDate := ev_createdAt e in
  if match fromDate with Some f => date_lt eventDate f | None => false end
  then false
  else if match toDate with Some t => date_gt eventDate t | None => false end
  then false
  else true.

(** [events.map(...)] with the running balance carried along. *)
Fixpoint statement_entries (runningBalance : F64) (evs : list LedgerEvent)
  : list StatementEntry :=
  match evs with
  | [] => []
  | event :: evs' =>
      let runningBalance' := fadd runningBalance (parseFloat (ev_amount event)) in
      mkEntry (ev_id event) (ev_eventType event) (ev_amount event)
              (toFixed runningBalance' 8) (ev_description event)
              (ev_createdAt event)
      :: statement_entries runningBalance' evs'
  end.

Definition getAccountStatement (accountId : string)
    (fromDate toDate : option JSDate) : M AccountStatement :=
  let* s := getStorage in
  match getAccount s tenantId accountId with
  | None => account_not_found accountId
  | Some account =>
      let events := getEventsByAccountId s tenantId accountId in
      let events := sort_by_seq events in
      let events :=
        if defined fromDate || defined toDate
        then List.filter (in_window fromDate toDate) events
        else events in
      let entries := statement_entries (Num 0) events in
      let openingBalance :=
        match entries with
        | first :: _ =>
            toFixed (fsub (parseFloat (se_runningBalance first))
                          (parseFloat (se_amount first))) 8
        | [] => "0.00000000"
        end in
      let closingBalance :=
        match last entries with
        | Some final => se_runningBalance final
        | None => "0.00000000"
        end in
      ret (mkStatement accountId (acct_currency account) entries
                       openingBalance closingBalance)
  end.

(** The first loop of [verifyLedgerIntegrity], from position [i]. *)
Fixpoint gap_errors (i : Z) (evs : list LedgerEvent) : list string :=
  match evs with
  | [] => []
  | e :: evs' =>
      (if decide (ev_sequenceNumber e <> i + 1)%Z then
         ["Gap in sequence: expected " +:+ string_of_Z (i + 1)
          +:+ ", got " +:+ string_of_Z (ev_sequenceNumber e)]
       else [])
      ++ gap_errors (i + 1) evs'
  end.

(** The second loop. *)
Definition tenant_errors (evs : list LedgerEvent) : list string :=
  flat_map (fun event =>
              if decide (ev_tenantId event <> tenantId) then
                ["Tenant isolation violation: event " +:+ ev_id event
                 +:+ " has wrong tenantId"]
              else [])
           evs.

(** The literal [0.00000001]. *)
Definition tolerance : F64 := of_decimal false 1 (-8).

Definition balance_errors (calculatedBalance expectedBalance : F64) : list string :=
  if fgt (fabs (fsub calculatedBalance expectedBalance)) tolerance then
    ["Balance mismatch: expected " +:+ toString expectedBalance
     +:+ ", calculated " +:+ toString calculatedBalance]
  else [].

Definition verifyLedgerIntegrity (accountId : string) : M IntegrityReport :=
  let* s := getStorage in
  match getAccount s tenantId accountId with
  | None => account_not_found accountId
  | Some account =>
      let events := sort_by_seq (getEventsByAccountId s tenantId accountId) in
      let errors := gap_errors 0 events ++ tenant_errors events in
      let calculatedBalance := sum_amounts events in
      let* balance := getAccountBalance accountId in
      let expectedBalance := parseFloat (bal_balance balance) in
      let errors := errors ++ balance_errors calculatedBalance expectedBalance in
      ret (mkReport (bool_decide (length errors = 0%nat)) accountId
                    (toFixed expectedBalance 8) (toFixed calculatedBalance 8)
                    (length events) errors)
  end.

End Engine.
End Ledger.

(** ** Sequences of calls on a shared store *)

(** One call of the public API by an engine bound to [tenant]. *)
Inductive Call : Type :=
| OpenAccount (tenant : string) (params : OpenAccountParams)
| RecordEvent (tenant : string) (params : RecordEventParams)
| ReverseEvent (tenant : string) (params : ReverseEventParams)
| GetAccountBalance (tenant accountId : string)
| GetAccountStatement (tenant accountId : string) (fromDate toDate : option JSDate)
| VerifyLedgerIntegrity (tenant accountId : string).

(** The world after a call, whether it returned or threw. *)
Definition call (c : Call) (w : World) : World :=
  match c with
  | OpenAccount t p => snd (Ledger.openAccount t p w)
  | RecordEvent t p => snd (Ledger.recordEvent t p w)
  | ReverseEvent t p => snd (Ledger.reverseEvent t p w)
  | GetAccountBalance t a => snd (Ledger.getAccountBalance t a w)
  | GetAccountStatement t a f u => snd (Ledger.getAccountStatement t a f u w)
  | VerifyLedgerIntegrity t a => snd (Ledger.verifyLedgerIntegrity t a w)
  end.

(** The tenant whose engine makes the call. *)
Definition tenant_of (c : Call) : string :=
  match c with
  | OpenAccount t _ | RecordEvent t _ | ReverseEvent t _
  | GetAccountBalance t _ | GetAccountStatement t _ _ _
  | VerifyLedgerIntegrity t _ => t
  end.

(** Calls made one after the other. *)
Definition calls (cs : list Call) (w : World) : World :=
  fold_left (fun w c => call c w) cs w.

Import Storage Ledger.

(** ** Properties of the store *)

(** No two stored events share [(tenantId, idempotencyKey)]. *)
Definition keys_unique (s : InMemoryStorage) : Prop :=
  NoDup ((fun e => (ev_tenantId e, ev_idempotencyKey e)) <$> events s).

(** The audit records of recordings. *)
Definition recorded_audits (s : InMemoryStorage) : list AuditEvent :=
  filter (fun a => au_action a = "EVENT_RECORDED") (auditEvents s).

(** The events of one account, as the store filters them. *)
Definition of_account (tid aid : string) (e : LedgerEvent) : Prop :=
  ev_tenantId e = tid /\ ev_accountId e = aid.

(** The events of a tenant that reverse [oid]. *)
Definition reverses (tid oid : string) (e : LedgerEvent) : Prop :=
  ev_tenantId e = tid /\ ev_reversesEventId e = Some oid.

(** What the engine guarantees about an event at the moment it appends it
    to the store [s]. *)
Record appended (s : InMemoryStorage) (ev : LedgerEvent) : Prop := {
  app_key :
    getEventByIdempotencyKey s (ev_tenantId ev) (ev_idempotencyKey ev) = None;
  app_seq :
    ev_sequenceNumber ev
    = getNextSequenceNumber s (ev_tenantId ev) (ev_accountId ev);
  app_rev :
    forall oid, ev_reversesEventId ev = Some oid ->
      exists o, getEventById s (ev_tenantId ev) oid = Some o
        /\ ev_accountId ev = ev_accountId o
        /\ ~ Exists (fun e => ev_reversesEventId e = Some oid)
                    (getEventsByAccountId s (ev_tenantId ev) (ev_accountId o))
}.

(** Sequence numbers of every account are [1..N] in order of creation. *)
Definition contiguous (l : list LedgerEvent) : Prop :=
  forall tid aid,
    ev_sequenceNumber <$> filter (of_account tid aid) l
    = seqZ 1 (Z.of_nat (length (filter (of_account tid aid) l))).

(** Every reversal sits in the account of the event its target id resolves
    to. *)
Definition reversals_anchored (l : list LedgerEvent) : Prop :=
  forall r oid, r ∈ l -> ev_reversesEventId r = Some oid ->
    exists o, find (fun e => ev_tenantId e = ev_tenantId r /\ ev_id e = oid) l = Some o
      /\ ev_accountId r = ev_accountId o.

(** No event id of a tenant is reversed by two events. *)
Definition reversed_once (l : list LedgerEvent) : Prop :=
  forall tid oid, (length (filter (reverses tid oid) l) <= 1)%nat.

(** Ascending by sequence number. *)
Definition seq_le (x y : LedgerEvent) : Prop :=
  (ev_sequenceNumber x <= ev_sequenceNumber y)%Z.

(** The error that the first loop of [verifyLedgerIntegrity] pushes for
    position [i] (0-based) holding [e]. *)
Definition gap_message (i : nat) (e : LedgerEvent) : string :=
  "Gap in sequence: expected " +:+ string_of_Z (Z.of_nat i + 1)
  +:+ ", got " +:+ string_of_Z (ev_sequenceNumber e).

(** The positions of a list whose event does not carry the number of the
    position plus one. *)
Definition gap_positions (l : list LedgerEvent) : list (nat * LedgerEvent) :=
  filter (fun ie => ev_sequenceNumber ie.2 <> (Z.of_nat ie.1 + 1)%Z)
         (imap (fun i e => (i, e)) l).

(** The balance the specification asks for: the exact sum of the amounts
    with 8 fraction digits. *)
Definition exact_balance (evs : list LedgerEvent) : option string :=
  (fun x => exact_toFixed x 8) <$> exact_sum (ev_amount <$> evs).

Fixpoint sum_list_Z (l : list Z) : Z :=
  match l with
  | [] => 0%Z
  | x :: l' => (x + sum_list_Z l')%Z
  end.

(** ** Further notions *)

(** The audit records that announce an event. *)
Definition event_audits (s : InMemoryStorage) : list AuditEvent :=
  filter (fun a => au_action a = "EVENT_RECORDED" \/ au_action a = "EVENT_REVERSED")
         (auditEvents s).

(** For every stored event the lookup under the event's tenant and account
    identifier finds an account, and that account has the event's
    currency. *)
Definition events_accounted (s : InMemoryStorage) : Prop :=
  forall e, e ∈ events s ->
    exists a, getAccount s (ev_tenantId e) (ev_accountId e) = Some a
      /\ acct_currency a = ev_currency e.

(** Every account is stored under the key of its own tenant and
    identifier. *)
Definition accounts_keyed (s : InMemoryStorage) : Prop :=
  forall k a, accounts s !! k = Some a ->
    k = accountKey (acct_tenantId a) (acct_id a).

(** [Number.isSafeInteger], of an integer: a double holds it and its two
    neighbours exactly. *)
Definition safe_integer (n : Z) : Prop := (Z.abs n < 2 ^ 53)%Z.

(** Events whose sequence numbers are safe integers. *)
Definition safe_sequence (evs : list LedgerEvent) : Prop :=
  Forall (fun e => safe_integer (ev_sequenceNumber e)) evs.

(** A tenant identifier without a colon. *)
Fixpoint no_colon (s : string) : Prop :=
  match s with
  | EmptyString => True
  | String c s' => c <> ":"%char /\ no_colon s'
  end.

(** What a computation threw, if it threw. *)
Definition thrown {A} (r : Result A * World) : option Exn :=
  match fst r with
  | Throw e => Some e
  | Ok _ => None
  end.

(** What a call threw, if it threw. *)
Definition failure (c : Call) (w : World) : option Exn :=
  match c with
  | OpenAccount t p => thrown (Ledger.openAccount t p w)
  | RecordEvent t p => thrown (Ledger.recordEvent t p w)
  | ReverseEvent t p => thrown (Ledger.reverseEvent t p w)
  | GetAccountBalance t a => thrown (Ledger.getAccountBalance t a w)
  | GetAccountStatement t a f u => thrown (Ledger.getAccountStatement t a f u w)
  | VerifyLedgerIntegrity t a => thrown (Ledger.verifyLedgerIntegrity t a w)
  end.

(** The codes that a call may throw. *)
Definition codes_of (c : Call) : list string :=
  match c with
  | OpenAccount _ _ => ["ACCOUNT_EXISTS"]
  | RecordEvent _ _ => ["ACCOUNT_NOT_FOUND"; "CURRENCY_MISMATCH"]
  | ReverseEvent _ _ => ["EVENT_NOT_FOUND"; "ALREADY_REVERSED"]
  | GetAccountBalance _ _ | GetAccountStatement _ _ _ _
  | VerifyLedgerIntegrity _ _ => ["ACCOUNT_NOT_FOUND"]
  end.

Global Instance seq_le_dec : RelDecision seq_le.
Proof. intros x y. unfold seq_le. apply _. Defined.

Global Instance safe_integer_dec (n : Z) : Decision (safe_integer n).
Proof. unfold safe_integer. apply _. Defined.

Global Instance safe_sequence_dec (evs : list LedgerEvent) :
  Decision (safe_sequence evs).
Proof. unfold safe_sequence. apply _. Defined.

(** Every reversal carries the text of the negated amount of the event that
    its [reversesEventId] resolves to within its tenant, and the currency of
    that event. *)
Definition reversals_mirror (l : list LedgerEvent) : Prop :=
  forall r oid, r ∈ l -> ev_reversesEventId r = Some oid ->
    exists o, find (fun e => ev_tenantId e = ev_tenantId r /\ ev_id e = oid) l = Some o
      /\ ev_accountId r = ev_accountId o
      /\ ev_currency r = ev_currency o
      /\ ev_eventType r = "REVERSAL"
      /\ ev_amount r = toString (fmul (parseFloat (ev_amount o)) (of_Z (-1))).

(** The events of [w] carry the readings number [ns] of the clock, in that
    order; every reading was taken before the next one. *)
Definition dated_by (w : World) (ns : list nat) : Prop :=
  ev_createdAt <$> events (storage w)
  = (fun n => ValidDate (clock_oracle w n)) <$> ns
  /\ StronglySorted lt ns
  /\ Forall (fun n => (n < clock_drawn w)%nat) ns.

(** Both events carry a valid date, and the first is not dated after the
    second. *)
Definition not_after (e1 e2 : LedgerEvent) : Prop :=
  exists ms1 ms2,
    ev_createdAt e1 = ValidDate ms1 /\ ev_createdAt e2 = ValidDate ms2
    /\ (ms1 <= ms2)%Z.

(** The number of units of a finite double; both zeros have none. *)
Definition units_of (x : F64) : Z :=
  match x with
  | Num k => k
  | _ => 0%Z
  end.

(** The literal [s] denotes exactly [c * 10^-8]: a decimal with at most 8
    fraction digits. *)
Definition hundred_millionths (s : string) (c : Z) : Prop :=
  match exact_value s with
  | Some (p, q) => (p * 10 ^ 8 = c * q)%Z
  | None => False
  end.

(** ** Small ledgers to run the engine on *)

(** An empty store; the identifiers drawn are [uuid-0], [uuid-1], ... and
    the clock advances by one millisecond at each reading. *)
Definition demo_world : World :=
  mkWorld emptyStorage (fun n => "uuid-" +:+ string_of_Z (Z.of_nat n)) 0
          (fun n => (1700000000000 + Z.of_nat n)%Z) 0.

Definition with_storage (w : World) (s : InMemoryStorage) : World :=
  mkWorld s (uuid_oracle w) (uuid_drawn w) (clock_oracle w) (clock_drawn w).

Definition open_A : OpenAccountParams :=
  mkOpenAccountParams (Some "A") "CASH" "USD" None.

Definition credit_k1 : RecordEventParams :=
  mkRecordEventParams (Some "e1") "A" "CREDIT" "100.00" "USD" "k1" None None.

(** The key [k1] again, with another amount. *)
Definition credit_k1_again : RecordEventParams :=
  mkRecordEventParams None "A" "CREDIT" "200.00" "USD" "k1" None None.

(** The key [k1] once more, for an account that does not exist and in
    another currency. *)
Definition stray_k1 : RecordEventParams :=
  mkRecordEventParams None "no-such-account" "CREDIT" "1" "EUR" "k1" None None.

Definition debit_k2 : RecordEventParams :=
  mkRecordEventParams (Some "e2") "A" "DEBIT" "-30.00" "USD" "k2" None None.



Definition reverse_e1 (key : string) : ReverseEventParams :=
  mkReverseEventParams "e1" None key None.

(** The account [A] of [tenant-001], opened and empty. *)
Definition demo_opened : World :=
  calls [OpenAccount "tenant-001" open_A] demo_world.

Definition account_A : LedgerAccount :=
  mkAccount "A" "tenant-001" "CASH" "USD" None (ValidDate 1700000000000).

(** ... with the credit [e1] of [100.00] under key [k1]. *)
Definition demo_credited : World :=
  calls [RecordEvent "tenant-001" credit_k1] demo_opened.

Definition demo_e1 : LedgerEvent :=
  mkEvent "e1" "tenant-001" "A" "CREDIT" "100.00" "USD" "k1" None None None 1
          (ValidDate 1700000000002).

(** ... and with [e1] reversed under key [k4]. *)
Definition demo_reversed : World :=
  calls [ReverseEvent "tenant-001" (reverse_e1 "k4")] demo_credited.

Definition demo_reversal : LedgerEvent :=
  mkEvent "uuid-2" "tenant-001" "A" "REVERSAL" "-100" "USD" "k4"
          (Some "e1") (Some "Reversal of event e1") None 2
          (ValidDate 1700000000004).

(** The account [A] with the credit [e1] of [100.00] and the debit [e2] of
    [-30.00], and its statement. *)
Definition demo_two_events : World :=
  calls [RecordEvent "tenant-001" debit_k2] demo_credited.

Definition demo_statement : AccountStatement :=
  mkStatement "A" "USD"
    [mkEntry "e1" "CREDIT" "100.00" "100.00000000" None (ValidDate 1700000000002);
     mkEntry "e2" "DEBIT" "-30.00" "70.00000000" None (ValidDate 1700000000004)]
    "0.00000000" "70.00000000".

(** The account [A] with a credit of [100.50] and a debit of [-30.25]. *)
Definition halves_world : World :=
  calls [RecordEvent "tenant-001"
           (mkRecordEventParams (Some "e1") "A" "CREDIT" "100.50" "USD" "credit-001"
                                None None);
         RecordEvent "tenant-001"
           (mkRecordEventParams (Some "e2") "A" "DEBIT" "-30.25" "USD" "debit-001"
                                None None)]
        demo_opened.




(** An account whose two events carry the sequence numbers 1 and 3, put
    into the store by hand. *)
Definition gap_storage : InMemoryStorage :=
  mkStorage
    (<[accountKey "tenant-001" "A" :=
         mkAccount "A" "tenant-001" "CASH" "USD" None (ValidDate 0)]> ∅)
    [mkEvent "e1" "tenant-001" "A" "CREDIT" "100.00" "USD" "k1" None None None
             1 (ValidDate 1);
     mkEvent "e3" "tenant-001" "A" "CREDIT" "5.00" "USD" "k3" None None None
             3 (ValidDate 2)]
    [].

Definition gap_world : World := with_storage demo_world gap_storage.

(** Tenant [a:b] opens its account [c]. *)
Definition colliding_world : World :=
  calls [OpenAccount "a:b" (mkOpenAccountParams (Some "c") "CASH" "USD" None)]
        demo_world.

Definition account_c : LedgerAccount :=
  mkAccount "c" "a:b" "CASH" "USD" None (ValidDate 1700000000000).

(** ** Rounding *)

Section Rounding.
Local Open Scope Z_scope.

Lemma round_half_even_exact (k q : Z) :
  0 < q -> round_half_even (k * q) q = k.
Proof.
  intros Hq. unfold round_half_even.
  rewrite Z.div_mul, Z.mod_mul by lia. rewrite Z.mul_0_r.
  destruct (Z.compare_spec 0 q); lia.
Qed.

Lemma round_units_exact (k q : Z) :
  0 < q -> representable k -> round_units (k * q) q = k.
Proof.
  intros Hq [Hk Hr]. unfold round_units. rewrite Z.div_mul by lia.
  destruct (Z.ltb_spec k (2 ^ 53)) as [Hlt|Hge].
  - apply round_half_even_exact. exact Hq.
  - destruct Hr as [Hr|[m Hm]]; [lia|].
    set (sh := Z.log2 k - 52) in *.
    assert (Hsh : 0 < 2 ^ sh).
    { apply Z.pow_pos_nonneg; [lia|]. unfold sh.
      assert (53 <= Z.log2 k) by (apply Z.log2_le_pow2; lia). lia. }
    replace (k * q) with (m * (q * 2 ^ sh)) by (rewrite Hm at 1; ring).
    rewrite round_half_even_exact by lia. symmetry. exact Hm.
Qed.

Lemma of_units_exact (s : Z) :
  representable (Z.abs s) -> Z.abs s < OVERFLOW -> of_units s = Num s.
Proof.
  intros Hr Ho. unfold of_units.
  destruct (Z.eqb_spec s 0) as [->|Hs]; [reflexivity|].
  assert (He : round_units (Z.abs s) 1 = Z.abs s).
  { rewrite <- (Z.mul_1_r (Z.abs s)) at 1. apply round_units_exact; [lia|exact Hr]. }
  unfold round_F64. rewrite He.
  destruct (Z.leb_spec OVERFLOW (Z.abs s)); [lia|].
  destruct (Z.eqb_spec (Z.abs s) 0); [lia|].
  destruct (Z.ltb_spec s 0); f_equal; lia.
Qed.

Lemma round_half_even_bounds (p q : Z) :
  0 <= p -> 0 < q -> p / q <= round_half_even p q <= p / q + 1.
Proof.
  intros Hp Hq. unfold round_half_even.
  destruct (2 * (p mod q) ?= q); [destruct (Z.even (p / q))| |]; lia.
Qed.

(** Rounding produces a magnitude that a double can hold. *)
Lemma round_units_representable (p q : Z) :
  0 <= p -> 0 < q -> representable (round_units p q).
Proof.
  intros Hp Hq. unfold round_units.
  assert (Ht : 0 <= p / q) by (apply Z.div_pos; lia).
  destruct (Z.ltb_spec (p / q) (2 ^ 53)) as [Hlt|Hge].
  - pose proof (round_half_even_bounds p q Hp Hq) as [Hl Hu].
    split; [lia|].
    destruct (Z.eq_dec (round_half_even p q) (2 ^ 53)) as [->|Hne]; [|left; lia].
    right. exists (2 ^ 52). reflexivity.
  - set (t := p / q) in *. set (sh := Z.log2 t - 52).
    assert (H53 : 53 <= Z.log2 t) by (apply Z.log2_le_pow2; lia).
    assert (Hsh : 1 <= sh) by (unfold sh; lia).
    assert (Hpow : 0 < 2 ^ sh) by (apply Z.pow_pos_nonneg; lia).
    pose proof (Z.log2_spec t ltac:(lia)) as [Hlo Hhi].
    assert (Hdiv : p / (q * 2 ^ sh) = t / 2 ^ sh).
    { unfold t. rewrite Z.div_div by lia. reflexivity. }
    assert (Hm : 2 ^ 52 <= t / 2 ^ sh < 2 ^ 53).
    { replace (Z.log2 t) with (52 + sh) in Hlo by (unfold sh; lia).
      replace (Z.succ (Z.log2 t)) with (53 + sh) in Hhi by (unfold sh; lia).
      rewrite Z.pow_add_r in Hlo, Hhi by lia. split.
      - apply Z.div_le_lower_bound; lia.
      - apply Z.div_lt_upper_bound; lia. }
    pose proof (round_half_even_bounds p (q * 2 ^ sh) Hp ltac:(lia)) as [Hl Hu].
    rewrite Hdiv in Hl, Hu. set (m := round_half_even p (q * 2 ^ sh)) in *.
    split; [apply Z.mul_nonneg_nonneg; lia|]. right.
    destruct (Z.eq_dec m (2 ^ 53)) as [Hm53|Hne].
    + rewrite Hm53, <- Z.pow_add_r by lia.
      rewrite Z.log2_pow2 by lia.
      exists (2 ^ 52). rewrite <- Z.pow_add_r by lia. f_equal. lia.
    + assert (Hlog : Z.log2 m = 52).
      { apply Z.log2_unique; [lia|]. simpl. lia. }
      rewrite Z.log2_mul_pow2 by lia. rewrite Hlog.
      replace (sh + 52 - 52) with sh by lia. exists m. reflexivity.
Qed.

End Rounding.

(** ** Doubles in canonical form *)

Section Doubles.
Local Open Scope Z_scope.

Lemma ONE_pos : 0 < ONE.
Proof. unfold ONE. apply Z.pow_pos_nonneg; lia. Qed.

Lemma round_F64_canonical (neg : bool) (p q : Z) :
  0 <= p -> 0 < q -> canonical (round_F64 neg p q).
Proof.
  intros Hp Hq. unfold round_F64.
  pose proof (round_units_representable p q Hp Hq) as Hr.
  destruct (Z.leb_spec OVERFLOW (round_units p q)) as [|Hlt]; [exact I|].
  destruct (Z.eqb_spec (round_units p q) 0) as [H0|Hn0].
  - destruct neg; [exact I|]. split; [|reflexivity]. split; [simpl; lia|left; simpl; lia].
  - assert (Hab : Z.abs (if neg then - round_units p q else round_units p q)
                  = round_units p q).
    { destruct Hr as [Hr _]. destruct neg; lia. }
    simpl. unfold exact_double. rewrite Hab. split; assumption.
Qed.

Lemma round_F64_exact (neg : bool) (k q : Z) :
  0 < q -> exact_double k -> 0 <= k ->
  round_F64 neg (k * q) q
  = if k =? 0 then (if neg then NegZero else Num 0)
    else Num (if neg then - k else k).
Proof.
  intros Hq [Hr Ho] Hk. rewrite Z.abs_eq in Hr, Ho by exact Hk.
  unfold round_F64. rewrite (round_units_exact k q Hq Hr).
  destruct (Z.leb_spec OVERFLOW k); [lia|]. reflexivity.
Qed.

Lemma of_units_canonical (s : Z) : canonical (of_units s).
Proof.
  unfold of_units. destruct (Z.eqb_spec s 0).
  - split; [split; [simpl; lia|left; simpl; lia]|reflexivity].
  - apply round_F64_canonical; lia.
Qed.

Lemma fadd_canonical (x y : F64) :
  canonical x -> canonical y -> canonical (fadd x y).
Proof.
  destruct x as [| a | |a], y as [| b | |b]; simpl; intros Hx Hy;
    try exact I; try assumption.
  - destruct (Bool.eqb a b); exact I.
  - apply of_units_canonical.
Qed.

Lemma fneg_canonical (x : F64) : canonical x -> canonical (fneg x).
Proof.
  destruct x as [| a | |k]; simpl; intros Hx; try exact I.
  - split; [split; [simpl; lia|left; simpl; lia]|reflexivity].
  - destruct (Z.eqb_spec k 0); [exact I|]. unfold canonical, exact_double in *.
    rewrite Z.abs_opp. exact Hx.
Qed.

Lemma digits_value_nonneg (s : string) (acc : Z) (d r : string) :
  span_digits s = (d, r) -> 0 <= acc -> 0 <= digits_value acc d.
Proof.
  revert acc d r. induction s as [|c s IH]; intros acc d r Hs Hacc; simpl in Hs.
  - injection Hs as <- <-. exact Hacc.
  - destruct (is_digit c) eqn:Hc.
    + destruct (span_digits s) as [d' r'] eqn:Hs'. injection Hs as <- <-.
      simpl. apply (IH _ d' r' eq_refl). unfold is_digit in Hc. unfold digit_val.
      lia.
    + injection Hs as <- <-. exact Hacc.
Qed.

Lemma digits_value_app (a b : string) (acc : Z) :
  digits_value acc (a +:+ b) = digits_value (digits_value acc a) b.
Proof. revert acc. induction a as [|c a IH]; intros acc; simpl; [reflexivity|apply IH]. Qed.

(** The decimal of a literal has a mantissa that is not negative. *)
Lemma parse_unsigned_nonneg (sg : bool) (s1 : string) (neg : bool) (m e : Z) :
  parse_unsigned sg s1 = LitDecimal neg m e -> 0 <= m.
Proof.
  unfold parse_unsigned.
  destruct (starts_with "Infinity" s1); [discriminate|].
  destruct (span_digits s1) as [ip r1] eqn:Hip.
  destruct (match r1 with
            | String "." r => span_digits r
            | _ => (EmptyString, r1)
            end) as [fp r2] eqn:Hfp.
  assert (Hm : 0 <= digits_value 0 (ip +:+ fp)).
  { rewrite digits_value_app.
    assert (H1 : 0 <= digits_value 0 ip)
      by (apply (digits_value_nonneg s1 0 ip r1 Hip); lia).
    destruct r1 as [|c r1'].
    - injection Hfp as <- <-. exact H1.
    - destruct (Ascii.eqb_spec c ".") as [->|Hne].
      + apply (digits_value_nonneg r1' _ fp r2 Hfp H1).
      + assert (Hfp' : (EmptyString, String c r1') = (fp, r2)).
        { rewrite <- Hfp. destruct c as [[] [] [] [] [] [] [] []]; try reflexivity.
          exfalso. apply Hne. reflexivity. }
        injection Hfp' as <- <-. exact H1. }
  destruct ip, fp; intros [= <- <- <-]; exact Hm.
Qed.

(** The decimal of a literal has a mantissa that is not negative. *)
Lemma parse_literal_nonneg (s : string) (neg : bool) (m e : Z) :
  parse_literal s = LitDecimal neg m e -> 0 <= m.
Proof.
  unfold parse_literal. destruct (trim_start s) as [|c r].
  - apply parse_unsigned_nonneg.
  - destruct c as [[] [] [] [] [] [] [] []]; apply parse_unsigned_nonneg.
Qed.

Lemma of_decimal_canonical (neg : bool) (m e : Z) :
  0 <= m -> canonical (of_decimal neg m e).
Proof.
  intros Hm. unfold of_decimal. pose proof ONE_pos.
  destruct (Z.leb_spec 0 e).
  - apply round_F64_canonical; [|lia].
    apply Z.mul_nonneg_nonneg; [|lia]. apply Z.mul_nonneg_nonneg; [lia|].
    apply Z.pow_nonneg. lia.
  - apply round_F64_canonical; [apply Z.mul_nonneg_nonneg; lia|].
    apply Z.pow_pos_nonneg; lia.
Qed.

Lemma parseFloat_canonical (s : string) : canonical (parseFloat s).
Proof.
  unfold parseFloat. destruct (parse_literal s) as [| |neg m e] eqn:Hl;
    try exact I.
  apply of_decimal_canonical. apply (parse_literal_nonneg s neg m e Hl).
Qed.

Lemma minus_one : of_Z (-1) = Num (- ONE).
Proof. vm_compute. reflexivity. Qed.

(** [x * -1] flips the sign and nothing else. *)
Lemma fmul_minus_one (x : F64) : canonical x -> fmul x (of_Z (-1)) = fneg x.
Proof.
  rewrite minus_one. pose proof ONE_pos as H1.
  assert (Hs : sign_of (Num (- ONE)) = true).
  { simpl. destruct (Z.ltb_spec (- ONE) 0); [reflexivity|lia]. }
  assert (Hz : is_zero (Num (- ONE)) = false).
  { simpl. destruct (Z.eqb_spec (- ONE) 0); [lia|reflexivity]. }
  destruct x as [| a | |k]; intros Hx.
  - reflexivity.
  - unfold fmul. rewrite Hz, Hs. simpl. destruct a; reflexivity.
  - unfold fmul. rewrite Hs. simpl. change (0 * Z.abs (- ONE)) with (0 * ONE).
    rewrite (round_F64_exact false 0 ONE H1); [reflexivity| |lia].
    split; [split; [simpl; lia|left; simpl; lia]|reflexivity].
  - unfold fmul. rewrite Hs. cbv beta iota.
    replace (Z.abs (- ONE)) with ONE by lia.
    destruct Hx as [Hr Ho].
    rewrite (round_F64_exact _ (Z.abs k) ONE H1); [| |lia].
    2:{ split; rewrite Z.abs_idemp; assumption. }
    simpl. destruct (Z.eqb_spec k 0) as [->|Hk]; [reflexivity|].
    destruct (Z.eqb_spec (Z.abs k) 0); [lia|].
    destruct (Z.ltb_spec k 0); simpl; f_equal; lia.
Qed.

End Doubles.

(** ** Exact sums *)

Section ExactSums.
Local Open Scope Z_scope.

Lemma exact_value_pos (s : string) (p q : Z) :
  exact_value s = Some (p, q) -> 0 < q.
Proof.
  unfold exact_value. destruct (parse_literal s) as [| |neg m e]; try discriminate.
  destruct (Z.leb_spec 0 e); intros [= <- <-]; [lia|].
  apply Z.pow_pos_nonneg; lia.
Qed.









End ExactSums.

(** ** Digit strings *)

Section Digits.
Local Open Scope Z_scope.

Lemma digit_char_spec (d : Z) :
  0 <= d <= 9 ->
  is_digit (digit_char d) = true /\ digit_val (digit_char d) = d.
Proof.
  intros Hd. unfold is_digit, digit_val, digit_char.
  rewrite nat_ascii_embedding by lia. split; [|lia].
  apply andb_true_intro. split; apply Z.leb_le; lia.
Qed.

Lemma append_cons (x : ascii) (a b : string) :
  String x a +:+ b = String x (a +:+ b).
Proof. reflexivity. Qed.

Lemma all_digits_app (a b : string) :
  all_digits (a +:+ b) = all_digits a && all_digits b.
Proof.
  induction a as [|c a IH]; [reflexivity|].
  rewrite append_cons. simpl. rewrite IH. apply andb_assoc.
Qed.

Lemma length_app_string (a b : string) :
  String.length (a +:+ b) = (String.length a + String.length b)%nat.
Proof.
  induction a as [|c a IH]; [reflexivity|].
  rewrite append_cons. simpl. rewrite IH. reflexivity.
Qed.

Lemma app_assoc_string (a b c : string) : (a +:+ b) +:+ c = a +:+ (b +:+ c).
Proof.
  induction a as [|x a IH]; [reflexivity|].
  rewrite !append_cons, IH. reflexivity.
Qed.

Lemma app_empty_r (a : string) : a +:+ EmptyString = a.
Proof.
  induction a as [|x a IH]; [reflexivity|]. rewrite append_cons, IH. reflexivity.
Qed.

Lemma to_digits_S (fuel : nat) (n : Z) (acc : string) :
  to_digits (S fuel) n acc
  = if n <? 10 then String (digit_char (n mod 10)) acc
    else to_digits fuel (n / 10) (String (digit_char (n mod 10)) acc).
Proof. reflexivity. Qed.

(** What [to_digits] writes in front of [acc]: digits that read as [n]. *)
Lemma to_digits_spec (fuel : nat) (n : Z) (acc : string) :
  0 <= n < 10 ^ Z.of_nat (S fuel) ->
  exists ds,
    to_digits (S fuel) n acc = ds +:+ acc
    /\ all_digits ds = true
    /\ ds <> EmptyString
    /\ digits_value 0 ds = n.
Proof.
  revert n acc. induction fuel as [|fuel IH]; intros n acc Hn;
    rewrite to_digits_S;
    assert (Hm : 0 <= n mod 10 <= 9) by (pose proof (Z.mod_pos_bound n 10); lia);
    destruct (digit_char_spec (n mod 10) Hm) as [Hd Hv];
    destruct (Z.ltb_spec n 10) as [Hlt|Hge].
  1,3: exists (String (digit_char (n mod 10)) EmptyString);
    (split; [reflexivity|]);
    (split; [cbn [all_digits]; rewrite Hd; reflexivity|]);
    (split; [discriminate|]); cbn [digits_value]; rewrite Hv;
    rewrite Z.mod_small; lia.
  - change (10 ^ Z.of_nat 1) with 10 in Hn. lia.
  - destruct (IH (n / 10) (String (digit_char (n mod 10)) acc))
      as (ds & Hds & Hall & Hne & Hval).
    { rewrite (Nat2Z.inj_succ (S fuel)), Z.pow_succ_r in Hn by lia. split.
      - apply Z.div_pos; lia.
      - apply Z.div_lt_upper_bound; lia. }
    exists (ds +:+ String (digit_char (n mod 10)) EmptyString).
    split; [rewrite Hds, app_assoc_string; reflexivity|].
    split; [rewrite all_digits_app, Hall; cbn [all_digits]; rewrite Hd; reflexivity|].
    split; [destruct ds; [contradiction|discriminate]|].
    rewrite digits_value_app. cbn [digits_value]. rewrite Hval, Hv.
    pose proof (Z.div_mod n 10). lia.
Qed.

Lemma digits_of_spec (n : Z) :
  0 <= n ->
  all_digits (digits_of n) = true
  /\ digits_of n <> EmptyString
  /\ digits_value 0 (digits_of n) = n.
Proof.
  intros Hn. unfold digits_of.
  destruct (to_digits_spec (Z.to_nat (Z.log2 n)) n EmptyString)
    as (ds & Hds & Hall & Hne & Hval).
  - split; [exact Hn|].
    destruct (Z.eq_dec n 0) as [->|Hn0]; [simpl; lia|].
    pose proof (Z.log2_spec n ltac:(lia)) as [_ Hlt].
    pose proof (Z.log2_nonneg n).
    rewrite Nat2Z.inj_succ, Z2Nat.id by lia.
    eapply Z.lt_le_trans; [exact Hlt|].
    apply Z.pow_le_mono_l. lia.
  - rewrite Hds, app_empty_r. auto.
Qed.

Lemma zeros_spec (n : nat) :
  all_digits (zeros n) = true
  /\ String.length (zeros n) = n
  /\ forall a, digits_value a (zeros n) = a * 10 ^ Z.of_nat n.
Proof.
  induction n as [|n (Hall & Hlen & Hval)].
  - split; [reflexivity|]. split; [reflexivity|]. intros a. simpl. lia.
  - split; [simpl; exact Hall|]. split; [simpl; rewrite Hlen; reflexivity|].
    intros a. cbn [zeros digits_value]. rewrite Hval.
    rewrite Nat2Z.inj_succ, Z.pow_succ_r by lia.
    change (digit_val "0") with 0. ring.
Qed.

Lemma span_digits_app (d r : string) :
  all_digits d = true -> stops r -> span_digits (d +:+ r) = (d, r).
Proof.
  intros Hd Hr. induction d as [|c d IH].
  - change (EmptyString +:+ r) with r.
    destruct r as [|c r]; [reflexivity|]. simpl in Hr. simpl. rewrite Hr. reflexivity.
  - simpl in Hd. apply andb_prop in Hd. destruct Hd as [Hc Hd].
    rewrite append_cons. simpl. rewrite Hc, (IH Hd). reflexivity.
Qed.

Lemma take_drop (n : nat) (s : string) : str_take n s +:+ str_drop n s = s.
Proof.
  revert s. induction n as [|n IH]; intros s; [reflexivity|].
  destruct s as [|c s]; [reflexivity|]. simpl. rewrite append_cons, IH. reflexivity.
Qed.

Lemma all_digits_take_drop (n : nat) (s : string) :
  all_digits s = true ->
  all_digits (str_take n s) = true /\ all_digits (str_drop n s) = true.
Proof.
  intros H. rewrite <- (take_drop n s), all_digits_app in H.
  apply andb_prop in H. exact H.
Qed.

Lemma length_drop (n : nat) (s : string) :
  String.length (str_drop n s) = (String.length s - n)%nat.
Proof.
  revert s. induction n as [|n IH]; intros s; [simpl; lia|].
  destruct s as [|c s]; simpl; [reflexivity|]. apply IH.
Qed.

End Digits.

(** ** The value of a decimal *)

Section ValueOfDecimal.
Local Open Scope Z_scope.

Lemma round_half_even_cancel (p q c : Z) :
  0 < q -> 0 < c -> round_half_even (p * c) (q * c) = round_half_even p q.
Proof.
  intros Hq Hc. unfold round_half_even.
  rewrite Z.div_mul_cancel_r, Z.mul_mod_distr_r by lia.
  destruct (Z.compare_spec (2 * (p mod q * c)) (q * c)),
           (Z.compare_spec (2 * (p mod q)) q); try reflexivity; nia.
Qed.

(** Rounding depends on the value of the fraction only. *)
Lemma round_units_cancel (p q c : Z) :
  0 < q -> 0 < c -> round_units (p * c) (q * c) = round_units p q.
Proof.
  intros Hq Hc. unfold round_units.
  rewrite Z.div_mul_cancel_r by lia.
  destruct (p / q <? 2 ^ 53); [apply round_half_even_cancel; assumption|].
  set (sh := Z.log2 (p / q) - 52).
  destruct (Z.le_gt_cases 0 sh) as [Hsh|Hsh].
  - replace (q * c * 2 ^ sh) with (q * 2 ^ sh * c) by ring.
    rewrite round_half_even_cancel; [reflexivity| |exact Hc].
    apply Z.mul_pos_pos; [exact Hq|]. apply Z.pow_pos_nonneg; lia.
  - rewrite Z.pow_neg_r by lia. lia.
Qed.

Lemma round_F64_cancel (neg : bool) (p q c : Z) :
  0 < q -> 0 < c -> round_F64 neg (p * c) (q * c) = round_F64 neg p q.
Proof. intros Hq Hc. unfold round_F64. rewrite round_units_cancel by assumption. reflexivity. Qed.

(** Zeros at the end of the mantissa count as exponent. *)
Lemma of_decimal_shift (neg : bool) (m e j : Z) :
  0 <= j -> of_decimal neg (m * 10 ^ j) e = of_decimal neg m (e + j).
Proof.
  intros Hj. unfold of_decimal.
  assert (Hpj : 0 < 10 ^ j) by (apply Z.pow_pos_nonneg; lia).
  destruct (Z.leb_spec 0 e) as [He|He], (Z.leb_spec 0 (e + j)) as [Hej|Hej];
    try lia.
  - rewrite Z.pow_add_r by lia. f_equal. ring.
  - replace j with ((e + j) + (- e)) at 1 by lia.
    rewrite Z.pow_add_r by lia.
    assert (Hpe : 0 < 10 ^ (- e)) by (apply Z.pow_pos_nonneg; lia).
    replace (m * (10 ^ (e + j) * 10 ^ (- e)) * ONE)
      with (m * 10 ^ (e + j) * ONE * 10 ^ (- e)) by ring.
    replace (10 ^ (- e)) with (1 * 10 ^ (- e)) at 2 by ring.
    apply round_F64_cancel; lia.
  - replace (- e) with (- (e + j) + j) by lia.
    rewrite Z.pow_add_r by lia.
    assert (Hpe : 0 < 10 ^ (- (e + j))) by (apply Z.pow_pos_nonneg; lia).
    replace (m * 10 ^ j * ONE) with (m * ONE * 10 ^ j) by ring.
    apply round_F64_cancel; lia.
Qed.

Lemma F64_eqb_eq (x y : F64) : F64_eqb x y = true -> x = y.
Proof.
  destruct x as [|a| |a], y as [|b| |b]; simpl; try discriminate; try reflexivity.
  - destruct a, b; simpl; try discriminate; reflexivity.
  - intros H. apply Z.eqb_eq in H. subst. reflexivity.
Qed.

Lemma scaled_nonneg (k ex : Z) :
  0 <= k -> 0 <= (scaled k ex).1 /\ 0 < (scaled k ex).2.
Proof.
  intros Hk. unfold scaled. pose proof ONE_pos.
  destruct (Z.leb_spec 0 ex); simpl.
  - split; [exact Hk|]. apply Z.mul_pos_pos; [lia|]. apply Z.pow_pos_nonneg; lia.
  - split; [|lia]. apply Z.mul_nonneg_nonneg; [exact Hk|]. apply Z.pow_nonneg. lia.
Qed.

Lemma candidate_spec (k ex s : Z) :
  0 <= k -> candidate k ex = Some s ->
  0 <= s /\ of_decimal false s ex = Num k.
Proof.
  intros Hk. unfold candidate.
  destruct (scaled_nonneg k ex Hk) as [Hp Hq].
  destruct (scaled k ex) as [p q]. simpl in Hp, Hq.
  assert (Hlo : 0 <= p / q) by (apply Z.div_pos; assumption).
  destruct (denotes (p / q) ex k) eqn:Dlo, (denotes (p / q + 1) ex k) eqn:Dhi;
    try discriminate.
  - destruct (2 * (p mod q) ?= q); [destruct (Z.even (p / q))| |];
      intros [= <-]; (split; [lia|]); apply F64_eqb_eq; assumption.
  - intros [= <-]. split; [lia|]. apply F64_eqb_eq. exact Dlo.
  - intros [= <-]. split; [lia|]. apply F64_eqb_eq. exact Dhi.
Qed.

Lemma exact_expansion : 5 ^ 1074 * ONE = 10 ^ 1074.
Proof. unfold ONE. rewrite <- Z.pow_mul_l. reflexivity. Qed.

(** The digits and the exponent that [shortest] returns denote the
    double. *)
Lemma shortest_spec (k n : Z) (kds : list Z) :
  0 < k -> exact_double k -> Forall (fun kd => 0 <= kd) kds ->
  0 <= (shortest k n kds).1
  /\ of_decimal false (shortest k n kds).1 (shortest k n kds).2 = Num k.
Proof.
  intros Hk Hex Hkds. induction Hkds as [|kd kds Hkd _ IH]; simpl.
  - split; [apply Z.mul_nonneg_nonneg; [lia|apply Z.pow_nonneg; lia]|].
    unfold of_decimal. simpl.
    replace (k * 5 ^ 1074 * ONE) with (k * 10 ^ 1074)
      by (rewrite <- exact_expansion; ring).
    rewrite round_F64_exact; [| apply Z.pow_pos_nonneg; lia | exact Hex | lia].
    destruct (Z.eqb_spec k 0); [lia|reflexivity].
  - destruct (candidate k (n - kd)) as [s|] eqn:Hc; [|exact IH].
    destruct (candidate_spec k (n - kd) s ltac:(lia) Hc) as [Hs Hden].
    destruct (Z.eqb_spec s (10 ^ kd)) as [->|Hne]; simpl.
    + split; [lia|].
      rewrite <- Hden. replace (10 ^ kd) with (1 * 10 ^ kd) by ring.
      rewrite of_decimal_shift by exact Hkd. f_equal. lia.
    + split; assumption.
Qed.

End ValueOfDecimal.

(** ** Reading back formatted digits *)

Section ReadBack.
Local Open Scope Z_scope.

Lemma digit_head (c : ascii) (rest : string) :
  is_digit c = true ->
  parse_literal (String c rest) = parse_unsigned false (String c rest)
  /\ starts_with "Infinity" (String c rest) = false.
Proof.
  intros Hc. destruct c as [[] [] [] [] [] [] [] []];
    vm_compute in Hc; try discriminate Hc; split; reflexivity.
Qed.

Lemma all_digits_head (ds : string) :
  all_digits ds = true -> ds <> EmptyString ->
  exists c rest, ds = String c rest /\ is_digit c = true.
Proof.
  intros Ha Hn. destruct ds as [|c rest]; [contradiction|].
  simpl in Ha. apply andb_prop in Ha. exists c, rest. tauto.
Qed.

(** Digits, then nothing. *)
Lemma parse_unsigned_integer (neg : bool) (ip : string) :
  all_digits ip = true -> ip <> EmptyString ->
  parse_unsigned neg ip = LitDecimal neg (digits_value 0 ip) 0.
Proof.
  intros Ha Hn. destruct (all_digits_head ip Ha Hn) as (c & rest & -> & Hc).
  unfold parse_unsigned. rewrite (proj2 (digit_head c rest Hc)).
  rewrite <- (app_empty_r (String c rest)) at 1.
  rewrite (span_digits_app _ EmptyString Ha I).
  rewrite app_empty_r. reflexivity.
Qed.

(** Digits, then an exponent part. *)
Lemma parse_unsigned_exponent (neg : bool) (ip es : string) :
  all_digits ip = true -> ip <> EmptyString ->
  parse_unsigned neg (ip +:+ String "e" es)
  = LitDecimal neg (digits_value 0 ip) (parse_exponent (String "e" es)).
Proof.
  intros Ha Hn. destruct (all_digits_head ip Ha Hn) as (c & rest & -> & Hc).
  unfold parse_unsigned. rewrite append_cons, (proj2 (digit_head c _ Hc)).
  rewrite <- append_cons.
  rewrite (span_digits_app _ (String "e" es) Ha eq_refl).
  rewrite app_empty_r, Z.sub_0_r. reflexivity.
Qed.

(** Digits, a point, digits, then [r2]. *)
Lemma parse_unsigned_fraction (neg : bool) (ip fp r2 : string) :
  all_digits ip = true -> ip <> EmptyString ->
  all_digits fp = true -> stops r2 ->
  parse_unsigned neg (ip +:+ String "." (fp +:+ r2))
  = LitDecimal neg (digits_value 0 (ip +:+ fp))
               (parse_exponent r2 - Z.of_nat (String.length fp)).
Proof.
  intros Ha Hn Hf Hr. destruct (all_digits_head ip Ha Hn) as (c & rest & -> & Hc).
  unfold parse_unsigned. rewrite append_cons, (proj2 (digit_head c _ Hc)).
  rewrite <- append_cons.
  rewrite (span_digits_app _ (String "." (fp +:+ r2)) Ha eq_refl).
  rewrite (span_digits_app fp r2 Hf Hr).
  rewrite append_cons. reflexivity.
Qed.

Lemma parse_exponent_spec (e : Z) :
  parse_exponent (String "e" ((if 0 <=? e then "+" else "-")
                              +:+ digits_of (Z.abs e))) = e.
Proof.
  destruct (digits_of_spec (Z.abs e) ltac:(lia)) as (Ha & Hn & Hv).
  assert (Hspan : span_digits (digits_of (Z.abs e)) = (digits_of (Z.abs e), EmptyString)).
  { rewrite <- (app_empty_r (digits_of (Z.abs e))) at 1.
    apply span_digits_app; [exact Ha|exact I]. }
  unfold parse_exponent.
  change (Ascii.eqb "e" "e" || Ascii.eqb "e" "E")%bool with true. cbv iota.
  destruct (Z.leb_spec 0 e).
  - change ("+" +:+ digits_of (Z.abs e)) with (String "+" (digits_of (Z.abs e))).
    cbv iota beta. rewrite Hspan.
    destruct (digits_of (Z.abs e)); [contradiction|]. rewrite Hv. lia.
  - change ("-" +:+ digits_of (Z.abs e)) with (String "-" (digits_of (Z.abs e))).
    cbv iota beta. rewrite Hspan.
    destruct (digits_of (Z.abs e)); [contradiction|]. rewrite Hv. lia.
Qed.

Lemma length_pos (ds : string) :
  ds <> EmptyString -> 1 <= Z.of_nat (String.length ds).
Proof. intros Hn. destruct ds; [contradiction|]. simpl String.length. lia. Qed.

(** Reading the exponential notation. *)
Lemma parse_exponential (neg : bool) (ds : string) (e : Z) :
  all_digits ds = true -> ds <> EmptyString ->
  let es := (if 0 <=? e then "+" else "-") +:+ digits_of (Z.abs e) in
  parse_unsigned neg
    (if Z.of_nat (String.length ds) =? 1 then ds +:+ "e" +:+ es
     else str_take 1 ds +:+ "." +:+ str_drop 1 ds +:+ "e" +:+ es)
  = LitDecimal neg (digits_value 0 ds)
               (e - (Z.of_nat (String.length ds) - 1)).
Proof.
  intros Ha Hn es. pose proof (length_pos ds Hn) as Hk.
  change ("e" +:+ es) with (String "e" es).
  destruct (Z.eqb_spec (Z.of_nat (String.length ds)) 1) as [H1|H1].
  - rewrite (parse_unsigned_exponent neg ds es Ha Hn).
    unfold es. rewrite parse_exponent_spec, H1. f_equal. lia.
  - change ("." +:+ str_drop 1 ds +:+ String "e" es)
      with (String "." (str_drop 1 ds +:+ String "e" es)).
    destruct (all_digits_take_drop 1 ds Ha) as [Ht Hd].
    rewrite (parse_unsigned_fraction neg _ _ (String "e" es) Ht); [|..].
    + rewrite take_drop. unfold es. rewrite parse_exponent_spec, length_drop.
      f_equal. lia.
    + destruct ds; [contradiction|discriminate].
    + exact Hd.
    + reflexivity.
Qed.

(** Reading the text of [format_digits] gives back the digits and the
    exponent, up to zeros moved between the two. *)
Lemma parse_format (neg : bool) (ds : string) (s ex : Z) :
  all_digits ds = true -> ds <> EmptyString -> digits_value 0 ds = s ->
  exists m e,
    parse_unsigned neg (format_digits ds (Z.of_nat (String.length ds) + ex))
    = LitDecimal neg m e
    /\ of_decimal neg m e = of_decimal neg s ex.
Proof.
  intros Ha Hn Hv. unfold format_digits. pose proof (length_pos ds Hn) as Hk.
  set (k := Z.of_nat (String.length ds)) in *. set (n := k + ex).
  destruct ((k <=? n) && (n <=? 21)) eqn:C1;
    [|destruct ((0 <? n) && (n <=? 21)) eqn:C2;
      [|destruct ((-6 <? n) && (n <=? 0)) eqn:C3]];
    rewrite ?andb_true_iff, ?andb_false_iff, ?Z.leb_le, ?Z.ltb_lt,
      ?Z.leb_gt, ?Z.ltb_ge in *.
  - (* digits and zeros *)
    destruct (zeros_spec (Z.to_nat (n - k))) as (Hza & Hzl & Hzv).
    eexists _, _. split.
    + apply parse_unsigned_integer.
      * rewrite all_digits_app, Ha, Hza. reflexivity.
      * destruct ds; [contradiction|discriminate].
    + rewrite digits_value_app, Hzv, Hv, Z2Nat.id by lia.
      rewrite of_decimal_shift by lia. f_equal. unfold n. lia.
  - (* a point inside the digits *)
    destruct (all_digits_take_drop (Z.to_nat n) ds Ha) as [Ht Hd].
    eexists _, _. split.
    + change ("." +:+ str_drop (Z.to_nat n) ds)
        with (String "." (str_drop (Z.to_nat n) ds)).
      rewrite <- (app_empty_r (str_drop (Z.to_nat n) ds)).
      apply parse_unsigned_fraction; [exact Ht| |exact Hd|exact I].
      destruct ds; [contradiction|].
      destruct (Z.to_nat n) eqn:E; [lia|discriminate].
    + rewrite take_drop, Hv, length_drop. f_equal.
      change (parse_exponent EmptyString) with 0. unfold n, k in *. lia.
  - (* zeros between the point and the digits *)
    destruct (zeros_spec (Z.to_nat (- n))) as (Hza & Hzl & Hzv).
    eexists _, _. split.
    + change ("0." +:+ zeros (Z.to_nat (- n)) +:+ ds)
        with ("0" +:+ String "." (zeros (Z.to_nat (- n)) +:+ ds)).
      rewrite <- (app_empty_r (zeros (Z.to_nat (- n)) +:+ ds)).
      apply parse_unsigned_fraction; [reflexivity|discriminate| |exact I].
      rewrite all_digits_app, Hza, Ha. reflexivity.
    + rewrite !digits_value_app. change (digits_value 0 "0") with 0.
      rewrite Hzv, Z.mul_0_l, Hv, length_app_string, Hzl. f_equal.
      change (parse_exponent EmptyString) with 0. unfold n, k in *. lia.
  - (* exponential notation *)
    eexists _, _. split; [apply (parse_exponential neg ds (n - 1) Ha Hn)|].
    rewrite Hv. f_equal. unfold n. fold k. lia.
Qed.

End ReadBack.

(** ** Number to string and back *)

Section RoundTrip.
Local Open Scope Z_scope.

Lemma of_decimal_negative (m e k : Z) :
  0 < k -> of_decimal false m e = Num k -> of_decimal true m e = Num (- k).
Proof.
  intros Hk. unfold of_decimal.
  assert (H : forall p q, round_F64 false p q = Num k ->
                          round_F64 true p q = Num (- k)).
  { intros p q. unfold round_F64.
    destruct (OVERFLOW <=? round_units p q); [discriminate|].
    destruct (Z.eqb_spec (round_units p q) 0).
    - intros [= <-]. lia.
    - intros [= ->]. reflexivity. }
  destruct (0 <=? e); apply H.
Qed.

Lemma format_digits_head (ds : string) (n : Z) :
  all_digits ds = true -> ds <> EmptyString ->
  exists c rest, format_digits ds n = String c rest /\ is_digit c = true.
Proof.
  intros Ha Hn. destruct (all_digits_head ds Ha Hn) as (c & rest & -> & Hc).
  unfold format_digits.
  destruct ((Z.of_nat (String.length (String c rest)) <=? n) && (n <=? 21)) eqn:C1;
    [|destruct ((0 <? n) && (n <=? 21)) eqn:C2;
      [|destruct ((-6 <? n) && (n <=? 0))]].
  - eexists _, _. split; [apply append_cons|exact Hc].
  - apply andb_prop in C2. destruct C2 as [C2 _]. apply Z.ltb_lt in C2.
    destruct (Z.to_nat n) eqn:E; [lia|].
    eexists _, _. split; [simpl str_take; apply append_cons|exact Hc].
  - eexists _, _. split; reflexivity.
  - destruct (Z.of_nat (String.length (String c rest)) =? 1);
      eexists _, _; (split; [simpl str_take; apply append_cons|exact Hc]).
Qed.

(** The text of a positive double reads back as that double, with either
    sign in front. *)
Lemma toString_pos_reads_back (k : Z) :
  0 < k -> exact_double k ->
  (exists c rest, toString_pos k = String c rest /\ is_digit c = true)
  /\ (forall neg, exists m e,
        parse_unsigned neg (toString_pos k) = LitDecimal neg m e
        /\ of_decimal neg m e = Num (if neg then - k else k)).
Proof.
  intros Hk Hex. unfold toString_pos.
  pose proof (shortest_spec k (decade k) digit_counts Hk Hex) as Hs.
  destruct (shortest k (decade k) digit_counts) as [s ex]. simpl in Hs.
  destruct Hs as [Hs Hden]; [unfold digit_counts; repeat constructor; lia|].
  destruct (digits_of_spec s Hs) as (Ha & Hn & Hv). split.
  - apply format_digits_head; assumption.
  - intros neg. destruct (parse_format neg (digits_of s) s ex Ha Hn Hv)
      as (m & e & Hp & Hd).
    exists m, e. split; [exact Hp|]. rewrite Hd.
    destruct neg; [apply of_decimal_negative; assumption|exact Hden].
Qed.

(** [parseFloat(x.toString())] is [x]; the zeros both read back as [+0]. *)
Theorem parseFloat_toString (x : F64) :
  canonical x ->
  parseFloat (toString x) = unsigned_zero x.
Proof.
  destruct x as [|[]| |k]; intros Hx.
  1-4: vm_compute; reflexivity.
  unfold toString, unsigned_zero. destruct (Z.eqb_spec k 0) as [->|Hk0]; [vm_compute; reflexivity|].
  destruct (Z.ltb_spec k 0) as [Hneg|Hpos].
  - assert (Hex : exact_double (- k)).
    { destruct Hx as [Hr Ho]. split; rewrite Z.abs_opp; assumption. }
    destruct (toString_pos_reads_back (- k) ltac:(lia) Hex) as [_ Hread].
    destruct (Hread true) as (m & e & Hp & Hd).
    unfold parseFloat.
    change (parse_literal (String "-" (toString_pos (- k))))
      with (parse_unsigned true (toString_pos (- k))).
    rewrite Hp, Hd. f_equal. lia.
  - destruct (toString_pos_reads_back k ltac:(lia) Hx) as [Hhead Hread].
    destruct Hhead as (c & rest & Htext & Hc).
    destruct (Hread false) as (m & e & Hp & Hd).
    unfold parseFloat. rewrite Htext.
    rewrite (proj1 (digit_head c rest Hc)), <- Htext, Hp, Hd. reflexivity.
Qed.

(** An amount and its reversal's amount add up to zero. *)
Lemma reversal_cancels (x : F64) :
  canonical x -> (exists k, x = Num k) \/ x = NegZero ->
  fadd x (parseFloat (toString (fneg x))) = Num 0.
Proof.
  intros Hx Hfin. rewrite parseFloat_toString by (apply fneg_canonical; exact Hx).
  destruct Hfin as [[k ->]| ->]; [|reflexivity].
  simpl fneg. destruct (Z.eqb_spec k 0) as [->|Hk]; [reflexivity|].
  simpl. replace (k + - k) with 0 by lia. reflexivity.
Qed.

End RoundTrip.

(** ** Basic facts *)

Section Find.
Context {A : Type} (P : A -> Prop) `{!forall x, Decision (P x)}.

Lemma find_cons x l :
  find P (x :: l) = if decide (P x) then Some x else find P l.
Proof.
  unfold find. simpl. destruct (decide (P x)); [reflexivity|].
  destruct (list_find P l) as [[i y]|]; reflexivity.
Qed.

Lemma find_app l1 l2 :
  find P (l1 ++ l2) = match find P l1 with Some x => Some x | None => find P l2 end.
Proof.
  induction l1 as [|x l1 IH]; [reflexivity|].
  rewrite <- app_comm_cons, !find_cons. destruct (decide (P x)); auto.
Qed.

Lemma find_Some l x : find P l = Some x -> x ∈ l /\ P x.
Proof.
  induction l as [|y l IH]; [discriminate|].
  rewrite find_cons. destruct (decide (P y)).
  - intros [= ->]. split; [left|assumption].
  - intros Hf. destruct (IH Hf). split; [right|]; assumption.
Qed.

Lemma find_None l : find P l = None <-> Forall (fun x => ~ P x) l.
Proof.
  induction l as [|y l IH]; [split; [constructor|reflexivity]|].
  rewrite find_cons. destruct (decide (P y)).
  - split; [discriminate|]. intros Hf. inversion Hf; subst. contradiction.
  - rewrite IH. split; [constructor; assumption|]. intros Hf. inversion Hf; assumption.
Qed.

End Find.

(** ** What each operation does to the world *)

Ltac run_monad :=
  unfold bind, ret, throw, getStorage, putStorage, uuidv4, newDate,
    account_not_found; simpl.

Lemma run_eq {A} (c : M A) (w : World) (a : A) :
  fst (c w) = Ok a -> c w = (Ok a, snd (c w)).
Proof. destruct (c w). simpl. intros ->. reflexivity. Qed.

Lemma or_uuid_storage (a : option string) (w : World) :
  exists id w', or_uuid a w = (Ok id, w') /\ storage w' = storage w
    /\ clock_drawn w' = clock_drawn w /\ clock_oracle w' = clock_oracle w
    /\ (truthy a = Some id /\ w' = w
        \/ truthy a = None /\ id = uuid_oracle w (uuid_drawn w)).
Proof.
  unfold or_uuid. destruct (truthy a) as [s|].
  - exists s, w. run_monad. auto 10.
  - eexists _, _. run_monad. split; [reflexivity|]. auto 10.
Qed.

Lemma recordEvent_replay tid p w e :
  getEventByIdempotencyKey (storage w) tid (re_idempotencyKey p) = Some e ->
  recordEvent tid p w = (Ok e, w).
Proof. intros H. unfold recordEvent. run_monad. rewrite H. reflexivity. Qed.

Lemma reverseEvent_replay tid p w e :
  getEventByIdempotencyKey (storage w) tid (rv_idempotencyKey p) = Some e ->
  reverseEvent tid p w = (Ok e, w).
Proof. intros H. unfold reverseEvent. run_monad. rewrite H. reflexivity. Qed.

Lemma recordEvent_no_account tid p w :
  getEventByIdempotencyKey (storage w) tid (re_idempotencyKey p) = None ->
  getAccount (storage w) tid (re_accountId p) = None ->
  recordEvent tid p w
  = (Throw (LedgerError ("Account " +:+ re_accountId p +:+ " not found")
                        "ACCOUNT_NOT_FOUND" [("accountId", re_accountId p)]), w).
Proof.
  intros Hk Ha. unfold recordEvent. run_monad. rewrite Hk, Ha. reflexivity.
Qed.

Lemma recordEvent_currency tid p w a :
  getEventByIdempotencyKey (storage w) tid (re_idempotencyKey p) = None ->
  getAccount (storage w) tid (re_accountId p) = Some a ->
  acct_currency a <> re_currency p ->
  recordEvent tid p w
  = (Throw (LedgerError
              ("Currency mismatch: account uses " +:+ acct_currency a
               +:+ ", event uses " +:+ re_currency p)
              "CURRENCY_MISMATCH"
              [("accountCurrency", acct_currency a);
               ("eventCurrency", re_currency p)]), w).
Proof.
  intros Hk Ha Hc. unfold recordEvent. run_monad. rewrite Hk, Ha.
  destruct (decide (acct_currency a <> re_currency p)); [reflexivity|contradiction].
Qed.

(** A recording that passes the checks appends one event and one audit
    record, and changes nothing else in the store. *)
Lemma recordEvent_fresh tid p w a :
  getEventByIdempotencyKey (storage w) tid (re_idempotencyKey p) = None ->
  getAccount (storage w) tid (re_accountId p) = Some a ->
  acct_currency a = re_currency p ->
  exists eid now au w',
    let ev := mkEvent eid tid (re_accountId p) (re_eventType p) (re_amount p)
                (re_currency p) (re_idempotencyKey p) None
                (truthy (re_description p)) (re_metadata p)
                (getNextSequenceNumber (storage w) tid (re_accountId p)) now in
    recordEvent tid p w = (Ok ev, w')
    /\ storage w' = mkStorage (accounts (storage w)) (events (storage w) ++ [ev])
                              (auditEvents (storage w) ++ [au])
    /\ au_action au = "EVENT_RECORDED" /\ au_entityId au = eid
    /\ au_tenantId au = tid
    /\ eid = default (uuid_oracle w (uuid_drawn w)) (truthy (re_eventId p)).
Proof.
  intros Hk Ha Hc. unfold recordEvent. run_monad. rewrite Hk, Ha.
  destruct (decide (acct_currency a <> re_currency p)); [contradiction|].
  unfold or_uuid. destruct (truthy (re_eventId p)) as [eid|];
    unfold createEvent, emitAuditEvent, createAuditEvent; run_monad;
    rewrite Hk; simpl; eexists _, _, _, _; repeat split.
Qed.

Lemma reverseEvent_not_found tid p w :
  getEventByIdempotencyKey (storage w) tid (rv_idempotencyKey p) = None ->
  getEventById (storage w) tid (rv_originalEventId p) = None ->
  reverseEvent tid p w
  = (Throw (LedgerError ("Original event " +:+ rv_originalEventId p +:+ " not found")
                        "EVENT_NOT_FOUND" [("eventId", rv_originalEventId p)]), w).
Proof.
  intros Hk Ho. unfold reverseEvent. run_monad. rewrite Hk, Ho. reflexivity.
Qed.

Lemma reverseEvent_already tid p w o :
  getEventByIdempotencyKey (storage w) tid (rv_idempotencyKey p) = None ->
  getEventById (storage w) tid (rv_originalEventId p) = Some o ->
  Exists (fun e => ev_reversesEventId e = Some (rv_originalEventId p))
         (getEventsByAccountId (storage w) tid (ev_accountId o)) ->
  reverseEvent tid p w
  = (Throw (LedgerError
              ("Event " +:+ rv_originalEventId p +:+ " has already been reversed")
              "ALREADY_REVERSED" [("eventId", rv_originalEventId p)]), w).
Proof.
  intros Hk Ho Hx. unfold reverseEvent. run_monad. rewrite Hk, Ho.
  destruct (decide _); [reflexivity|contradiction].
Qed.

(** A reversal that passes the checks appends one event and one audit
    record, and changes nothing else in the store. *)
Lemma reverseEvent_fresh tid p w o :
  getEventByIdempotencyKey (storage w) tid (rv_idempotencyKey p) = None ->
  getEventById (storage w) tid (rv_originalEventId p) = Some o ->
  ~ Exists (fun e => ev_reversesEventId e = Some (rv_originalEventId p))
           (getEventsByAccountId (storage w) tid (ev_accountId o)) ->
  exists rid now au w',
    let amount := toString (fmul (parseFloat (ev_amount o)) (of_Z (-1))) in
    let ev := mkEvent rid tid (ev_accountId o) "REVERSAL" amount (ev_currency o)
                (rv_idempotencyKey p) (Some (rv_originalEventId p))
                (Some (default ("Reversal of event " +:+ rv_originalEventId p)
                               (truthy (rv_description p))))
                None
                (getNextSequenceNumber (storage w) tid (ev_accountId o)) now in
    reverseEvent tid p w = (Ok ev, w')
    /\ storage w' = mkStorage (accounts (storage w)) (events (storage w) ++ [ev])
                              (auditEvents (storage w) ++ [au])
    /\ au_action au = "EVENT_REVERSED" /\ au_entityId au = rid
    /\ au_tenantId au = tid
    /\ rid = default (uuid_oracle w (uuid_drawn w)) (truthy (rv_reversalEventId p)).
Proof.
  intros Hk Ho Hx. unfold reverseEvent. run_monad. rewrite Hk, Ho.
  destruct (decide _); [contradiction|].
  unfold or_uuid. destruct (truthy (rv_reversalEventId p)) as [rid|];
    unfold createEvent, emitAuditEvent, createAuditEvent; run_monad;
    rewrite Hk; simpl; eexists _, _, _, _; repeat split.
Qed.

(** Opening an account never touches the events. *)
Lemma openAccount_events tid p w :
  events (storage (snd (openAccount tid p w))) = events (storage w).
Proof.
  unfold openAccount, bind at 1.
  destruct (or_uuid_storage (oa_accountId p) w) as (id & w1 & -> & Hs & _).
  run_monad. destruct (getAccount (storage w1) tid id); simpl; [congruence|].
  unfold createAccount, emitAuditEvent, createAuditEvent. run_monad. congruence.
Qed.

(** The three queries leave the world as it is. *)
Lemma getAccountBalance_world tid aid w :
  snd (getAccountBalance tid aid w) = w.
Proof.
  unfold getAccountBalance. run_monad.
  destruct (getAccount (storage w) tid aid); reflexivity.
Qed.

Lemma getAccountStatement_world tid aid f u w :
  snd (getAccountStatement tid aid f u w) = w.
Proof.
  unfold getAccountStatement. run_monad.
  destruct (getAccount (storage w) tid aid); reflexivity.
Qed.

Lemma verifyLedgerIntegrity_world tid aid w :
  snd (verifyLedgerIntegrity tid aid w) = w.
Proof.
  unfold verifyLedgerIntegrity, getAccountBalance. run_monad.
  destruct (getAccount (storage w) tid aid) eqn:E; [|reflexivity].
  run_monad. rewrite E. reflexivity.
Qed.

(** ** Invariants of the event history *)

(** Every call leaves the events alone or appends exactly one. *)
Lemma call_events c w :
  events (storage (call c w)) = events (storage w)
  \/ exists ev, events (storage (call c w)) = events (storage w) ++ [ev]
       /\ appended (storage w) ev.
Proof.
  destruct c as [t p|t p|t p|t a|t a f u|t a]; simpl.
  - left. apply openAccount_events.
  - destruct (getEventByIdempotencyKey (storage w) t (re_idempotencyKey p))
      as [e|] eqn:Hk.
    { left. rewrite (recordEvent_replay _ _ _ _ Hk). reflexivity. }
    destruct (getAccount (storage w) t (re_accountId p)) as [a|] eqn:Ha.
    2:{ left. rewrite (recordEvent_no_account _ _ _ Hk Ha). reflexivity. }
    destruct (decide (acct_currency a = re_currency p)) as [Hc|Hc].
    2:{ left. rewrite (recordEvent_currency _ _ _ _ Hk Ha Hc). reflexivity. }
    right. destruct (recordEvent_fresh _ _ _ _ Hk Ha Hc)
      as (eid & now & au & w' & Hr & Hs & _).
    rewrite Hr. simpl. rewrite Hs. simpl. eexists. split; [reflexivity|].
    split; simpl; [assumption|reflexivity|discriminate].
  - destruct (getEventByIdempotencyKey (storage w) t (rv_idempotencyKey p))
      as [e|] eqn:Hk.
    { left. rewrite (reverseEvent_replay _ _ _ _ Hk). reflexivity. }
    destruct (getEventById (storage w) t (rv_originalEventId p)) as [o|] eqn:Ho.
    2:{ left. rewrite (reverseEvent_not_found _ _ _ Hk Ho). reflexivity. }
    destruct (decide (Exists (fun e => ev_reversesEventId e
                                       = Some (rv_originalEventId p))
                (getEventsByAccountId (storage w) t (ev_accountId o)))) as [Hx|Hx].
    { left. rewrite (reverseEvent_already _ _ _ _ Hk Ho Hx). reflexivity. }
    right. destruct (reverseEvent_fresh _ _ _ _ Hk Ho Hx)
      as (rid & now & au & w' & Hr & Hs & _).
    rewrite Hr. simpl. rewrite Hs. simpl. eexists. split; [reflexivity|].
    split; simpl; [assumption|reflexivity|].
    intros oid [= <-]. exists o. auto.
  - left. rewrite getAccountBalance_world. reflexivity.
  - left. rewrite getAccountStatement_world. reflexivity.
  - left. rewrite verifyLedgerIntegrity_world. reflexivity.
Qed.

(** A property of event histories that holds of the empty history and
    survives every append the engine makes holds after any calls. *)
Lemma calls_invariant (I : list LedgerEvent -> Prop) :
  I [] ->
  (forall s ev, I (events s) -> appended s ev -> I (events s ++ [ev])) ->
  forall cs w, events (storage w) = [] -> I (events (storage (calls cs w))).
Proof.
  intros H0 Hstep cs w Hw. rewrite <- Hw in H0. clear Hw.
  revert w H0. induction cs as [|c cs IH]; intros w H0; [exact H0|].
  simpl. apply IH.
  destruct (call_events c w) as [-> | (ev & -> & Hev)]; [exact H0|].
  apply Hstep; assumption.
Qed.

Lemma fold_max_seqZ (a : Z) (m : nat) :
  fold_left Z.max (seqZ (a + 1) (Z.of_nat m)) a = (a + Z.of_nat m)%Z.
Proof.
  induction m as [|m IH].
  - simpl. lia.
  - rewrite seqZ_S, fold_left_app, IH. simpl. lia.
Qed.

(** The next sequence number of an account whose numbers are [1..n] is
    [n + 1]. *)
Lemma next_after_run s tid aid (n : nat) :
  ev_sequenceNumber <$> getEventsByAccountId s tid aid = seqZ 1 (Z.of_nat n) ->
  getNextSequenceNumber s tid aid = (Z.of_nat n + 1)%Z.
Proof.
  unfold getNextSequenceNumber, getEventsByAccountId. intros ->.
  destruct n as [|n]; [reflexivity|].
  rewrite seqZ_cons by lia. unfold Math_max.
  replace (Z.pred (Z.of_nat (S n))) with (Z.of_nat n) by lia.
  change (Z.succ 1) with (1 + 1)%Z. rewrite fold_max_seqZ. lia.
Qed.

Lemma contiguous_append s ev :
  contiguous (events s) -> appended s ev -> contiguous (events s ++ [ev]).
Proof.
  intros Hc [_ Hseq _] tid aid. rewrite filter_app, fmap_app, length_app.
  rewrite filter_singleton by exact [].
  destruct (decide (of_account tid aid ev)) as [[<- <-]|Hn]; simpl.
  - rewrite Nat.add_1_r, seqZ_S, Hc. f_equal.
    rewrite Hseq. rewrite (next_after_run _ _ _ _ (Hc _ _)).
    f_equal. lia.
  - rewrite !app_nil_r, Nat.add_0_r. apply Hc.
Qed.

Lemma keys_unique_append s ev :
  keys_unique s -> appended s ev ->
  NoDup ((fun e => (ev_tenantId e, ev_idempotencyKey e)) <$> (events s ++ [ev])).
Proof.
  intros Hu [Hk _ _]. rewrite fmap_app. apply NoDup_app. split; [exact Hu|].
  split; [|apply NoDup_singleton].
  intros k Hin Hk'. apply list_elem_of_singleton in Hk'. subst k.
  apply list_elem_of_fmap in Hin. destruct Hin as (e & He & Hin).
  apply find_None in Hk. rewrite Forall_forall in Hk.
  apply (Hk e Hin). inversion He. auto.
Qed.

Lemma reversals_append s ev :
  reversals_anchored (events s) /\ reversed_once (events s) ->
  appended s ev ->
  reversals_anchored (events s ++ [ev]) /\ reversed_once (events s ++ [ev]).
Proof.
  intros [Ha Ho] [_ _ Hrev]. split.
  - intros r oid Hin Hr. apply elem_of_app in Hin. destruct Hin as [Hin|Hin].
    + destruct (Ha r oid Hin Hr) as (o & Hf & Hacc). exists o.
      rewrite find_app, Hf. auto.
    + apply list_elem_of_singleton in Hin. subst r.
      destruct (Hrev oid Hr) as (o & Hf & Hacc & _). exists o.
      unfold getEventById in Hf. rewrite find_app, Hf. auto.
  - intros tid oid. rewrite filter_app, length_app.
    rewrite filter_singleton by exact [].
    destruct (decide (reverses tid oid ev)) as [[<- Hr]|Hn]; simpl.
    2:{ specialize (Ho tid oid). lia. }
    destruct (Hrev oid Hr) as (o & Hf & Hacc & Hnone).
    destruct (filter (reverses (ev_tenantId ev) oid) (events s)) as [|r rs] eqn:Hfl;
      [simpl; lia|].
    exfalso. apply Hnone.
    assert (Hin : r ∈ filter (reverses (ev_tenantId ev) oid) (events s))
      by (rewrite Hfl; left).
    apply list_elem_of_filter in Hin. destruct Hin as [[Ht Hro] Hin].
    destruct (Ha r oid Hin Hro) as (o' & Hf' & Hacc').
    unfold getEventById in Hf. rewrite Ht in Hf'. rewrite Hf in Hf'.
    injection Hf' as <-.
    apply Exists_exists. exists r. split; [|exact Hro].
    unfold getEventsByAccountId. apply list_elem_of_filter. auto.
Qed.

Lemma find_unique {A K : Type} `{EqDecision K} (f : A -> K) (k : K)
    (l : list A) (x : A) :
  NoDup (f <$> l) -> x ∈ l -> f x = k ->
  find (fun e => f e = k) l = Some x.
Proof.
  induction l as [|y l IH]; intros Hnd Hin Hx; [inversion Hin|].
  rewrite fmap_cons in Hnd. apply NoDup_cons in Hnd. destruct Hnd as [Hy Hnd].
  rewrite find_cons. apply elem_of_cons in Hin.
  destruct (decide (f y = k)) as [Hyk|Hyk].
  - destruct Hin as [->|Hin]; [reflexivity|].
    exfalso. apply Hy. rewrite Hyk, <- Hx. apply list_elem_of_fmap_2. exact Hin.
  - destruct Hin as [->|Hin]; [contradiction|]. apply IH; assumption.
Qed.

Lemma getEventByIdempotencyKey_unique s e :
  keys_unique s -> e ∈ events s ->
  getEventByIdempotencyKey s (ev_tenantId e) (ev_idempotencyKey e) = Some e.
Proof.
  intros Hu Hin. unfold getEventByIdempotencyKey.
  rewrite <- (find_unique (fun e => (ev_tenantId e, ev_idempotencyKey e))
                (ev_tenantId e, ev_idempotencyKey e) (events s) e Hu Hin eq_refl).
  unfold find. f_equal. apply list_find_ext. intros y. split.
  - intros [-> ->]. reflexivity.
  - intros [= -> ->]. auto.
Qed.

Lemma Math_max_spec (x : Z) (xs : list Z) :
  Math_max x xs ∈ x :: xs /\ forall y, y ∈ x :: xs -> (y <= Math_max x xs)%Z.
Proof.
  unfold Math_max. revert x. induction xs as [|z xs IH]; intros x; simpl.
  - split; [left|]. intros y Hy. apply list_elem_of_singleton in Hy. lia.
  - destruct (IH (Z.max x z)) as [Hin Hle]. split.
    + apply elem_of_cons in Hin. destruct Hin as [Hm|Hin].
      * rewrite Hm. destruct (Z.max_spec x z) as [[_ ->]|[_ ->]];
          [right; left|left].
      * right. right. exact Hin.
    + intros y Hy. apply elem_of_cons in Hy. destruct Hy as [->|Hy].
      * pose proof (Hle (Z.max x z) ltac:(left)). lia.
      * apply elem_of_cons in Hy. destruct Hy as [->|Hy].
        -- pose proof (Hle (Z.max x z) ltac:(left)). lia.
        -- apply Hle. right. exact Hy.
Qed.

Lemma call_appended c w ev :
  events (storage (call c w)) = events (storage w) ++ [ev] ->
  appended (storage w) ev.
Proof.
  intros H. destruct (call_events c w) as [Heq | (ev' & Heq & Hev)].
  - rewrite Heq in H. apply (f_equal length) in H.
    rewrite length_app in H. simpl in H. lia.
  - rewrite Heq in H. apply app_inj_tail in H. destruct H as [_ ->]. exact Hev.
Qed.

(** ** Idempotent recording *)

(** C1. In a store whose idempotency keys are unique, [recordEvent] called
    with the key of a stored event [e] returns [e] itself and leaves the
    world as it was (no event, no audit record, no error); the keys are
    unique after any sequence of calls on a store that started without
    events.  And when a first call under a fresh key returns [e1], [e1]
    carries that call's amount, a second call under the same key (whatever
    its other parameters) returns [e1] again without changing anything, and
    the two calls together have added exactly one event and exactly one
    [EVENT_RECORDED] audit record. *)
Theorem recordEvent_idempotent (tid : string) (w : World) :
  (forall cs w0, events (storage w0) = [] -> w = calls cs w0 ->
     keys_unique (storage w))
  /\
  (keys_unique (storage w) ->
   forall e p, e ∈ events (storage w) ->
     ev_tenantId e = tid -> ev_idempotencyKey e = re_idempotencyKey p ->
     recordEvent tid p w = (Ok e, w))
  /\
  (forall p1 p2 e1 w1,
     getEventByIdempotencyKey (storage w) tid (re_idempotencyKey p1) = None ->
     recordEvent tid p1 w = (Ok e1, w1) ->
     re_idempotencyKey p2 = re_idempotencyKey p1 ->
     ev_amount e1 = re_amount p1
     /\ recordEvent tid p2 w1 = (Ok e1, w1)
     /\ events (storage w1) = events (storage w) ++ [e1]
     /\ exists au, au_entityId au = ev_id e1
          /\ recorded_audits (storage w1) = recorded_audits (storage w) ++ [au]).
Proof.
  split; [|split].
  - intros cs w0 H0 ->. unfold keys_unique.
    apply (calls_invariant
             (fun l => NoDup ((fun e => (ev_tenantId e, ev_idempotencyKey e)) <$> l)));
      [constructor| |exact H0].
    intros s ev Hu Hev. apply keys_unique_append; assumption.
  - intros Hu e p Hin Ht Hk. apply recordEvent_replay.
    rewrite <- Ht, <- Hk. apply getEventByIdempotencyKey_unique; assumption.
  - intros p1 p2 e1 w1 Hk Hr H12.
    destruct (getAccount (storage w) tid (re_accountId p1)) as [a|] eqn:Ha.
    2:{ rewrite (recordEvent_no_account _ _ _ Hk Ha) in Hr. discriminate. }
    destruct (decide (acct_currency a = re_currency p1)) as [Hc|Hc].
    2:{ rewrite (recordEvent_currency _ _ _ _ Hk Ha Hc) in Hr. discriminate. }
    destruct (recordEvent_fresh _ _ _ _ Hk Ha Hc)
      as (eid & now & au & w' & Hr' & Hs & Hact & Hent & _).
    simpl in Hr'. rewrite Hr' in Hr. injection Hr as <- <-.
    split; [reflexivity|]. split; [|split].
    + apply recordEvent_replay. rewrite H12, Hs. unfold getEventByIdempotencyKey.
      simpl. unfold getEventByIdempotencyKey in Hk. rewrite find_app, Hk.
      rewrite find_cons. simpl.
      destruct (decide _) as [_|Hn]; [reflexivity|]. exfalso. apply Hn. auto.
    + rewrite Hs. reflexivity.
    + exists au. split; [exact Hent|]. unfold recorded_audits. rewrite Hs. simpl.
      rewrite filter_app, filter_singleton by exact [].
      destruct (decide _); [reflexivity|contradiction].
Qed.

Lemma recordEvent_idempotent_witness :
  recordEvent "tenant-001" credit_k1 demo_opened = (Ok demo_e1, demo_credited)
  /\ ev_amount demo_e1 = "100.00"
  /\ recordEvent "tenant-001" credit_k1_again demo_credited
     = (Ok demo_e1, demo_credited)
  /\ length (recorded_audits (storage demo_credited)) = 1%nat
  /\ recordEvent "tenant-001" stray_k1 demo_credited = (Ok demo_e1, demo_credited).
Proof.
  assert (Hr : recordEvent "tenant-001" credit_k1 demo_opened
               = (Ok demo_e1, demo_credited)).
  { apply (run_eq (recordEvent "tenant-001" credit_k1)). vm_compute. reflexivity. }
  destruct (recordEvent_idempotent "tenant-001" demo_opened) as (_ & _ & Htwice).
  destruct (recordEvent_idempotent "tenant-001" demo_credited)
    as (Hreach & Hstored & _).
  split; [exact Hr|]. split; [reflexivity|]. split; [|split].
  - apply (Htwice credit_k1 credit_k1_again demo_e1 demo_credited);
      [vm_compute; reflexivity | exact Hr | reflexivity].
  - vm_compute. reflexivity.
  - apply Hstored.
    + apply (Hreach [OpenAccount "tenant-001" open_A;
                     RecordEvent "tenant-001" credit_k1] demo_world);
        [reflexivity|].
      cbv [demo_credited demo_opened calls fold_left]. reflexivity.
    + vm_compute. left.
    + reflexivity.
    + reflexivity.
Defined.

(** ** Sequence numbers *)

(** C2. After any sequence of calls on a store that started without events,
    the sequence numbers of every account, in order of creation, are
    [1, 2, ..., N] for the [N] events of that account; and whenever a call
    appends an event, its number is [1] if its account had no event, and
    otherwise one more than the greatest number of that account. *)
Theorem sequence_numbers_contiguous (cs : list Call) (w0 : World) :
  events (storage w0) = [] ->
  let w := calls cs w0 in
  (forall tid aid,
     ev_sequenceNumber <$> getEventsByAccountId (storage w) tid aid
     = seqZ 1 (Z.of_nat (length (getEventsByAccountId (storage w) tid aid))))
  /\
  (forall c ev,
     events (storage (call c w)) = events (storage w) ++ [ev] ->
     let prior := ev_sequenceNumber <$>
                  getEventsByAccountId (storage w) (ev_tenantId ev) (ev_accountId ev) in
     ev_sequenceNumber ev = (Z.of_nat (length prior) + 1)%Z
     /\ (prior = [] /\ ev_sequenceNumber ev = 1%Z
         \/ (ev_sequenceNumber ev - 1)%Z ∈ prior
            /\ forall y, y ∈ prior -> (y <= ev_sequenceNumber ev - 1)%Z)).
Proof.
  intros H0 w.
  assert (Hc : contiguous (events (storage w))).
  { apply (calls_invariant contiguous); [intros ? ?; reflexivity| |exact H0].
    apply contiguous_append. }
  split; [exact Hc|].
  intros c ev Happ prior. apply call_appended in Happ. destruct Happ as [_ Hseq _].
  split.
  - rewrite Hseq. unfold prior. rewrite length_fmap.
    apply next_after_run. apply Hc.
  - rewrite Hseq. unfold getNextSequenceNumber. fold (getEventsByAccountId
      (storage w) (ev_tenantId ev) (ev_accountId ev)). fold prior.
    destruct prior as [|x xs]; [left; auto|right].
    replace (Math_max x xs + 1 - 1)%Z with (Math_max x xs) by lia.
    apply Math_max_spec.
Qed.

Lemma sequence_numbers_contiguous_witness :
  ev_sequenceNumber <$>
    getEventsByAccountId
      (storage (calls [OpenAccount "tenant-001" open_A;
                       RecordEvent "tenant-001" credit_k1;
                       RecordEvent "tenant-001" debit_k2;
                       ReverseEvent "tenant-001" (reverse_e1 "k4")]
                      demo_world))
      "tenant-001" "A"
  = [1; 2; 3]%Z.
Proof.
  rewrite (proj1 (sequence_numbers_contiguous _ demo_world eq_refl)).
  vm_compute. reflexivity.
Defined.

(** ** Failures of [recordEvent] *)



(** ** The idempotency lookup comes first *)

(** C10. Once an event [e] is stored under an idempotency key of the
    tenant, [recordEvent] and [reverseEvent] under that key return [e] and
    leave the world as it was, whatever the other parameters say: an account
    that does not exist, a currency that differs from the account's, an
    account other than [e]'s, an original event that does not resolve or
    that is already reversed. *)
Theorem idempotency_lookup_first (tid : string) (w : World) (e : LedgerEvent) :
  (forall p,
     getEventByIdempotencyKey (storage w) tid (re_idempotencyKey p) = Some e ->
     recordEvent tid p w = (Ok e, w))
  /\
  (forall p,
     getEventByIdempotencyKey (storage w) tid (rv_idempotencyKey p) = Some e ->
     reverseEvent tid p w = (Ok e, w)).
Proof.
  split; intros p H; [apply recordEvent_replay|apply reverseEvent_replay]; exact H.
Qed.

(** Under the key [k1]: an account that does not exist and the wrong
    currency; an account of another name; an original that does not resolve;
    an original that is already reversed. *)
Lemma idempotency_lookup_first_witness :
  (getAccount (storage demo_reversed) "tenant-001" (re_accountId stray_k1) = None
   /\ recordEvent "tenant-001" stray_k1 demo_reversed = (Ok demo_e1, demo_reversed))
  /\ (ev_accountId demo_e1 <> "B"
      /\ recordEvent "tenant-001"
           (mkRecordEventParams None "B" "CREDIT" "5" "USD" "k1" None None)
           demo_reversed
         = (Ok demo_e1, demo_reversed))
  /\ (getEventById (storage demo_reversed) "tenant-001" "no-such-event" = None
      /\ reverseEvent "tenant-001"
           (mkReverseEventParams "no-such-event" None "k1" None) demo_reversed
         = (Ok demo_e1, demo_reversed))
  /\ (Exists (fun e => ev_reversesEventId e = Some "e1")
             (getEventsByAccountId (storage demo_reversed) "tenant-001" "A")
      /\ reverseEvent "tenant-001" (reverse_e1 "k1") demo_reversed
         = (Ok demo_e1, demo_reversed)).
Proof.
  pose proof (idempotency_lookup_first "tenant-001" demo_reversed demo_e1)
    as [Hrec Hrev].
  split; [|split; [|split]]; split.
  - vm_compute. reflexivity.
  - apply Hrec. vm_compute. reflexivity.
  - vm_compute. discriminate.
  - apply Hrec. vm_compute. reflexivity.
  - vm_compute. reflexivity.
  - apply Hrev. vm_compute. reflexivity.
  - apply (bool_decide_unpack _). vm_compute. reflexivity.
  - apply Hrev. vm_compute. reflexivity.
Defined.

(** ** Reversing at most once *)

(** C5. With an idempotency key that is not stored yet, [reverseEvent]
    throws [EVENT_NOT_FOUND] when the original id does not resolve within
    the tenant, and [ALREADY_REVERSED] when an event of the original's
    account already carries [reversesEventId] equal to it, leaving the world
    as it was in both cases.  Hence, after any sequence of calls on a store
    that started without events, at most one event of a tenant reverses any
    given event id. *)
Theorem reverseEvent_at_most_once (tid : string) :
  (forall p w,
     getEventByIdempotencyKey (storage w) tid (rv_idempotencyKey p) = None ->
     getEventById (storage w) tid (rv_originalEventId p) = None ->
     exists msg details,
       reverseEvent tid p w = (Throw (LedgerError msg "EVENT_NOT_FOUND" details), w))
  /\
  (forall p w o,
     getEventByIdempotencyKey (storage w) tid (rv_idempotencyKey p) = None ->
     getEventById (storage w) tid (rv_originalEventId p) = Some o ->
     Exists (fun e => ev_reversesEventId e = Some (rv_originalEventId p))
            (getEventsByAccountId (storage w) tid (ev_accountId o)) ->
     exists msg details,
       reverseEvent tid p w = (Throw (LedgerError msg "ALREADY_REVERSED" details), w))
  /\
  (forall cs w0 oid,
     events (storage w0) = [] ->
     (length (filter (reverses tid oid) (events (storage (calls cs w0)))) <= 1)%nat).
Proof.
  split; [|split].
  - intros p w Hk Ho. eexists _, _. apply reverseEvent_not_found; assumption.
  - intros p w o Hk Ho Hx. eexists _, _. apply (reverseEvent_already _ _ _ o);
      assumption.
  - intros cs w0 oid H0.
    assert (H : reversals_anchored (events (storage (calls cs w0)))
                /\ reversed_once (events (storage (calls cs w0)))).
    { apply (calls_invariant (fun l => reversals_anchored l /\ reversed_once l));
        [| apply reversals_append | exact H0].
      split; [intros r o Hin; inversion Hin | intros t o; simpl; lia]. }
    apply H.
Qed.

Lemma reverseEvent_at_most_once_witness :
  (exists msg details,
     reverseEvent "tenant-001"
       (mkReverseEventParams "no-such-event" None "k5" None) demo_reversed
     = (Throw (LedgerError msg "EVENT_NOT_FOUND" details), demo_reversed))
  /\ (exists msg details,
        reverseEvent "tenant-001" (reverse_e1 "k5") demo_reversed
        = (Throw (LedgerError msg "ALREADY_REVERSED" details), demo_reversed))
  /\ (length (filter (reverses "tenant-001" "e1")
                (events (storage
                   (calls [OpenAccount "tenant-001" open_A;
                           RecordEvent "tenant-001" credit_k1;
                           ReverseEvent "tenant-001" (reverse_e1 "k4");
                           ReverseEvent "tenant-001" (reverse_e1 "k5")]
                          demo_world))))
      <= 1)%nat.
Proof.
  pose proof (reverseEvent_at_most_once "tenant-001") as (Hnf & Hal & Hone).
  split; [|split].
  - apply Hnf; vm_compute; reflexivity.
  - apply (Hal (reverse_e1 "k5") demo_reversed demo_e1).
    + vm_compute. reflexivity.
    + vm_compute. reflexivity.
    + apply (bool_decide_unpack _). vm_compute. reflexivity.
  - apply Hone. reflexivity.
Defined.

(** ** Sorting by sequence number *)

Lemma insert_by_seq_perm x l : insert_by_seq x l ≡ₚ x :: l.
Proof.
  induction l as [|y l IH]; simpl; [reflexivity|].
  destruct (ev_sequenceNumber x <=? ev_sequenceNumber y)%Z; [reflexivity|].
  rewrite IH. apply Permutation_swap.
Qed.

Lemma sort_by_seq_perm l : sort_by_seq l ≡ₚ l.
Proof.
  induction l as [|x l IH]; simpl; [reflexivity|].
  rewrite insert_by_seq_perm, IH. reflexivity.
Qed.

Lemma insert_by_seq_sorted x l :
  StronglySorted seq_le l -> StronglySorted seq_le (insert_by_seq x l).
Proof.
  induction l as [|y l IH]; intros Hs; simpl.
  - constructor; constructor.
  - destruct (Z.leb_spec (ev_sequenceNumber x) (ev_sequenceNumber y)) as [Hle|Hgt].
    + constructor; [exact Hs|]. inversion Hs as [|? ? Hl Hy]; subst.
      constructor; [exact Hle|]. rewrite Forall_forall in *. intros z Hz.
      unfold seq_le in *. specialize (Hy z Hz). lia.
    + inversion Hs as [|? ? Hl Hy]; subst. constructor; [apply IH; exact Hl|].
      rewrite insert_by_seq_perm. constructor; [unfold seq_le; lia|exact Hy].
Qed.

Lemma sort_by_seq_sorted l : StronglySorted seq_le (sort_by_seq l).
Proof.
  induction l as [|x l IH]; simpl; [constructor|].
  apply insert_by_seq_sorted. exact IH.
Qed.

(** The sort is stable: events with the same sequence number keep their
    order. *)
Lemma insert_by_seq_stable (n : Z) x l :
  filter (fun e => ev_sequenceNumber e = n) (insert_by_seq x l)
  = filter (fun e => ev_sequenceNumber e = n) (x :: l).
Proof.
  induction l as [|y l IH]; simpl; [reflexivity|].
  destruct (Z.leb_spec (ev_sequenceNumber x) (ev_sequenceNumber y)) as [Hle|Hgt];
    [reflexivity|].
  rewrite (filter_cons _ y), IH, !filter_cons.
  destruct (decide (ev_sequenceNumber y = n)), (decide (ev_sequenceNumber x = n));
    try reflexivity.
  lia.
Qed.

Lemma sort_by_seq_stable (n : Z) l :
  filter (fun e => ev_sequenceNumber e = n) (sort_by_seq l)
  = filter (fun e => ev_sequenceNumber e = n) l.
Proof.
  induction l as [|x l IH]; simpl; [reflexivity|].
  rewrite insert_by_seq_stable, !filter_cons, IH. reflexivity.
Qed.

(** A list that is already in order is left as it is. *)
Lemma sort_by_seq_sorted_id l : StronglySorted seq_le l -> sort_by_seq l = l.
Proof.
  induction 1 as [|x l Hs IH Hx]; simpl; [reflexivity|].
  rewrite IH. destruct l as [|y l]; [reflexivity|]. simpl.
  inversion Hx as [|? ? Hxy _]; subst. unfold seq_le in Hxy.
  destruct (Z.leb_spec (ev_sequenceNumber x) (ev_sequenceNumber y)); [reflexivity|lia].
Qed.

(** ** Running balances *)

Lemma statement_entries_lookup (b : F64) (l : list LedgerEvent) (i : nat)
    (e : LedgerEvent) :
  l !! i = Some e ->
  statement_entries b l !! i
  = Some (mkEntry (ev_id e) (ev_eventType e) (ev_amount e)
            (toFixed (fold_left (fun acc x => fadd acc (parseFloat (ev_amount x)))
                                (firstn (S i) l) b) 8)
            (ev_description e) (ev_createdAt e)).
Proof.
  revert b i. induction l as [|x l IH]; intros b i Hi; [discriminate|].
  destruct i as [|i]; simpl in *.
  - injection Hi as ->. reflexivity.
  - rewrite (IH _ _ Hi). reflexivity.
Qed.

Lemma statement_entries_length b l : length (statement_entries b l) = length l.
Proof. revert b. induction l as [|x l IH]; intros b; simpl; [|rewrite IH]; reflexivity. Qed.

Lemma statement_entries_last b l :
  se_runningBalance <$> last (statement_entries b l)
  = match l with
    | [] => None
    | _ => Some (toFixed (fold_left (fun acc x => fadd acc (parseFloat (ev_amount x)))
                                    l b) 8)
    end.
Proof.
  revert b. induction l as [|x l IH]; intros b; [reflexivity|].
  simpl statement_entries. destruct l as [|y l]; [reflexivity|].
  specialize (IH (fadd b (parseFloat (ev_amount x)))).
  simpl statement_entries in *. rewrite last_cons_cons. rewrite IH. reflexivity.
Qed.

Lemma in_window_spec f u e :
  in_window f u e = true
  <-> (forall d, f = Some d -> date_lt (ev_createdAt e) d = false)
      /\ (forall d, u = Some d -> date_gt (ev_createdAt e) d = false).
Proof.
  unfold in_window. destruct f as [d1|], u as [d2|];
    try destruct (date_lt (ev_createdAt e) d1) eqn:E1;
    try destruct (date_gt (ev_createdAt e) d2) eqn:E2;
    split; try discriminate; try (intros _; split; intros d [=]; subst; assumption);
    intros [H1 H2]; try reflexivity;
    try (specialize (H1 _ eq_refl); congruence);
    try (specialize (H2 _ eq_refl); congruence).
Qed.

Lemma filter_no_window (l : list LedgerEvent) :
  List.filter (in_window None None) l = l.
Proof. induction l as [|x l IH]; simpl; [|rewrite IH]; reflexivity. Qed.

(** ** Statements *)

(** C7. For an existing account, [getAccountStatement] sorts the account's
    events by sequence number alone (a stable ascending sort), keeps the
    events inside the optional date window, and walks the kept events in
    that order from a running balance of 0: entry [i] carries the sum of the
    first [i + 1] kept amounts at 8 fraction digits.  The opening balance is
    the first entry's running balance minus its amount, at 8 fraction
    digits; the closing balance is the last entry's running balance; both
    are [0.00000000] when no entry is kept.  The world is left as it was. *)
Theorem getAccountStatement_ordered (tid aid : string)
    (fromDate toDate : option JSDate) (w : World) (a : LedgerAccount) :
  getAccount (storage w) tid aid = Some a ->
  let evs := getEventsByAccountId (storage w) tid aid in
  let sorted := sort_by_seq evs in
  let included := List.filter (in_window fromDate toDate) sorted in
  exists stmt,
    getAccountStatement tid aid fromDate toDate w = (Ok stmt, w)
    /\ (sorted ≡ₚ evs /\ StronglySorted seq_le sorted
        /\ forall n, filter (fun e => ev_sequenceNumber e = n) sorted
                     = filter (fun e => ev_sequenceNumber e = n) evs)
    /\ (forall e, e ∈ included <->
          e ∈ evs
          /\ (forall d, fromDate = Some d -> date_lt (ev_createdAt e) d = false)
          /\ (forall d, toDate = Some d -> date_gt (ev_createdAt e) d = false))
    /\ length (st_entries stmt) = length included
    /\ (forall i e, included !! i = Some e ->
          st_entries stmt !! i
          = Some (mkEntry (ev_id e) (ev_eventType e) (ev_amount e)
                    (toFixed (sum_amounts (firstn (S i) included)) 8)
                    (ev_description e) (ev_createdAt e)))
    /\ st_openingBalance stmt
       = match st_entries stmt with
         | first :: _ =>
             toFixed (fsub (parseFloat (se_runningBalance first))
                           (parseFloat (se_amount first))) 8
         | [] => "0.00000000"
         end
    /\ st_closingBalance stmt
       = match last (st_entries stmt) with
         | Some final => se_runningBalance final
         | None => "0.00000000"
         end
    /\ st_closingBalance stmt = toFixed (sum_amounts included) 8.
Proof.
  intros Ha evs sorted included.
  assert (Hinc : (if defined fromDate || defined toDate
                  then List.filter (in_window fromDate toDate) sorted
                  else sorted) = included).
  { unfold included. destruct fromDate, toDate; simpl; try reflexivity.
    symmetry. apply filter_no_window. }
  eexists. split.
  { unfold getAccountStatement. run_monad. rewrite Ha.
    fold evs. fold sorted. rewrite Hinc. reflexivity. }
  simpl. split; [|split; [|split; [|split; [|split; [|split]]]]].
  - split; [apply sort_by_seq_perm|]. split; [apply sort_by_seq_sorted|].
    intros n. apply sort_by_seq_stable.
  - intros e. unfold included. rewrite list_elem_of_In, filter_In.
    rewrite <- list_elem_of_In. unfold sorted. rewrite sort_by_seq_perm.
    rewrite in_window_spec. tauto.
  - apply statement_entries_length.
  - intros i e Hi. apply statement_entries_lookup. exact Hi.
  - reflexivity.
  - reflexivity.
  - pose proof (statement_entries_last (Num 0) included) as Hl.
    destruct (last (statement_entries (Num 0) included)) as [final|];
      destruct included as [|x l]; simpl in Hl; try discriminate.
    + injection Hl as ->. reflexivity.
    + vm_compute. reflexivity.
Qed.

Lemma getAccountStatement_ordered_witness :
  getAccountStatement "tenant-001" "A" None None demo_two_events
  = (Ok demo_statement, demo_two_events)
  /\ st_openingBalance demo_statement = "0.00000000"
  /\ st_closingBalance demo_statement = "70.00000000"
  /\ sort_by_seq (getEventsByAccountId (storage gap_world) "tenant-001" "A")
     ≡ₚ getEventsByAccountId (storage gap_world) "tenant-001" "A".
Proof.
  destruct (getAccountStatement_ordered "tenant-001" "A" None None demo_two_events
              account_A
              ltac:(vm_compute; reflexivity))
    as (stmt & Hrun & _).
  assert (Hst : fst (getAccountStatement "tenant-001" "A" None None
                       demo_two_events) = Ok demo_statement)
    by (vm_compute; reflexivity).
  rewrite Hrun in Hst. injection Hst as ->.
  split; [exact Hrun|]. split; [reflexivity|]. split; [reflexivity|].
  destruct (getAccountStatement_ordered "tenant-001" "A" None None gap_world
              (mkAccount "A" "tenant-001" "CASH" "USD" None (ValidDate 0))
              ltac:(vm_compute; reflexivity))
    as (_ & _ & (Hperm & _) & _).
  exact Hperm.
Defined.

(** ** Integrity verification *)

Lemma gap_errors_from (k : nat) (l : list LedgerEvent) :
  gap_errors (Z.of_nat k) l
  = (fun ie => gap_message ie.1 ie.2)
    <$> filter (fun ie => ev_sequenceNumber ie.2 <> (Z.of_nat ie.1 + 1)%Z)
               (imap (fun i e => ((k + i)%nat, e)) l).
Proof.
  revert k. induction l as [|x l IH]; intros k; [reflexivity|].
  simpl gap_errors. rewrite imap_cons, filter_cons. simpl.
  replace (Z.of_nat k + 1)%Z with (Z.of_nat (S k)) by lia. rewrite IH.
  rewrite Nat.add_0_r.
  replace (Z.of_nat (S k)) with (Z.of_nat k + 1)%Z by lia.
  assert (Hext : imap (fun i e => ((S k + i)%nat, e)) l
                 = imap ((fun i e => ((k + i)%nat, e)) ∘ S) l).
  { apply imap_ext. intros i e _. simpl. f_equal. lia. }
  rewrite Hext.
  destruct (decide (ev_sequenceNumber x <> (Z.of_nat k + 1)%Z)); reflexivity.
Qed.

Lemma gap_errors_positions (l : list LedgerEvent) :
  gap_errors 0 l = (fun ie => gap_message ie.1 ie.2) <$> gap_positions l.
Proof. apply (gap_errors_from 0). Qed.

Lemma tenant_errors_nil tid (l : list LedgerEvent) :
  Forall (fun e => ev_tenantId e = tid) l -> tenant_errors tid l = [].
Proof.
  induction 1 as [|x l Hx _ IH]; [reflexivity|].
  unfold tenant_errors in *. simpl. rewrite IH.
  destruct (decide (ev_tenantId x <> tid)); [contradiction|reflexivity].
Qed.

Lemma sorted_account_tenant s tid aid :
  Forall (fun e => ev_tenantId e = tid)
         (sort_by_seq (getEventsByAccountId s tid aid)).
Proof.
  rewrite Forall_forall. intros e He. rewrite sort_by_seq_perm in He.
  unfold getEventsByAccountId in He. apply list_elem_of_filter in He. tauto.
Qed.

(** C8. For an existing account, [verifyLedgerIntegrity] returns a report
    and leaves the world as it was.  Its errors start with one gap error for
    each position [i] (0-based) of the events sorted by sequence number
    whose event does not carry [i + 1], in order of position, followed by
    the balance check's error if there is one; nothing stops at the first
    error.  [valid] is true exactly when the list of errors is empty, and
    then the events carry [1, 2, ..., n]. *)
Theorem verifyLedgerIntegrity_reports_every_gap (tid aid : string) (w : World)
    (a : LedgerAccount) :
  getAccount (storage w) tid aid = Some a ->
  let evs := getEventsByAccountId (storage w) tid aid in
  let sorted := sort_by_seq evs in
  exists r,
    verifyLedgerIntegrity tid aid w = (Ok r, w)
    /\ (sorted ≡ₚ evs /\ StronglySorted seq_le sorted)
    /\ ir_errors r
       = ((fun ie => gap_message ie.1 ie.2) <$> gap_positions sorted)
         ++ balance_errors (sum_amounts sorted)
                           (parseFloat (toFixed (sum_amounts evs) 8))
    /\ (forall i e, sorted !! i = Some e ->
          ev_sequenceNumber e <> (Z.of_nat i + 1)%Z ->
          gap_message i e ∈ ir_errors r)
    /\ (ir_valid r = true <-> ir_errors r = [])
    /\ (ir_valid r = true ->
        forall i e, sorted !! i = Some e ->
          ev_sequenceNumber e = (Z.of_nat i + 1)%Z).
Proof.
  intros Ha evs sorted.
  assert (Hgap : forall i e, sorted !! i = Some e ->
            ev_sequenceNumber e <> (Z.of_nat i + 1)%Z ->
            gap_message i e
            ∈ (fun ie => gap_message ie.1 ie.2) <$> gap_positions sorted).
  { intros i e Hi Hne. apply list_elem_of_fmap. exists (i, e). split; [reflexivity|].
    unfold gap_positions. apply list_elem_of_filter. split; [exact Hne|].
    apply list_elem_of_lookup. exists i. rewrite list_lookup_imap, Hi. reflexivity. }
  eexists. split.
  { unfold verifyLedgerIntegrity, getAccountBalance. run_monad. rewrite Ha.
    run_monad. rewrite Ha. fold evs. fold sorted.
    rewrite (tenant_errors_nil tid sorted) by apply sorted_account_tenant.
    rewrite app_nil_r, gap_errors_positions. reflexivity. }
  simpl. split; [split; [apply sort_by_seq_perm|apply sort_by_seq_sorted]|].
  split; [reflexivity|]. split; [|split].
  - intros i e Hi Hne. apply elem_of_app. left. apply Hgap; assumption.
  - rewrite bool_decide_eq_true. split.
    + apply nil_length_inv.
    + intros ->. reflexivity.
  - rewrite bool_decide_eq_true. intros Hlen i e Hi.
    destruct (decide (ev_sequenceNumber e = (Z.of_nat i + 1)%Z)) as [|Hne];
      [assumption|].
    apply nil_length_inv in Hlen. apply app_eq_nil in Hlen. destruct Hlen as [Hg _].
    pose proof (Hgap i e Hi Hne) as Hin. rewrite Hg in Hin. inversion Hin.
Qed.

(** The account with the sequence numbers 1 and 3. *)
Lemma verifyLedgerIntegrity_reports_every_gap_witness :
  verifyLedgerIntegrity "tenant-001" "A" gap_world
  = (Ok (mkReport false "A" "105.00000000" "105.00000000" 2
           ["Gap in sequence: expected 2, got 3"]), gap_world).
Proof.
  destruct (verifyLedgerIntegrity_reports_every_gap "tenant-001" "A" gap_world
              (mkAccount "A" "tenant-001" "CASH" "USD" None (ValidDate 0))
              ltac:(vm_compute; reflexivity))
    as (r & Hrun & _).
  assert (Hr : fst (verifyLedgerIntegrity "tenant-001" "A" gap_world)
               = Ok (mkReport false "A" "105.00000000" "105.00000000" 2
                       ["Gap in sequence: expected 2, got 3"]))
    by (vm_compute; reflexivity).
  rewrite Hrun in Hr. injection Hr as ->. exact Hrun.
Defined.

(** ** Balances *)


Lemma getAccountBalance_found tid aid w a :
  getAccount (storage w) tid aid = Some a ->
  getAccountBalance tid aid w
  = (Ok (mkBalance aid
           (toFixed (sum_amounts (getEventsByAccountId (storage w) tid aid)) 8)
           (acct_currency a)
           (length (getEventsByAccountId (storage w) tid aid))), w).
Proof. intros Ha. unfold getAccountBalance. run_monad. rewrite Ha. reflexivity. Qed.

Lemma getAccountBalance_missing tid aid w :
  getAccount (storage w) tid aid = None ->
  getAccountBalance tid aid w
  = (Throw (LedgerError ("Account " +:+ aid +:+ " not found")
                        "ACCOUNT_NOT_FOUND" [("accountId", aid)]), w).
Proof. intros Ha. unfold getAccountBalance. run_monad. rewrite Ha. reflexivity. Qed.




(** ** Safe integers *)

Section SafeIntegers.
Local Open Scope Z_scope.

(** An integer of at most 53 bits, shifted up, is a double. *)
Lemma representable_shift (a E : Z) :
  0 < a <= 2 ^ 53 -> 52 <= E -> representable (a * 2 ^ E).
Proof.
  intros [Ha Hle] HE.
  assert (HpE : 0 < 2 ^ E) by (apply Z.pow_pos_nonneg; lia).
  split; [apply Z.mul_nonneg_nonneg; lia|]. right.
  rewrite Z.log2_mul_pow2 by lia.
  destruct (Z.eq_dec a (2 ^ 53)) as [->|Hne].
  - rewrite Z.log2_pow2 by lia.
    replace (E + 53 - 52) with (E + 1) by lia.
    exists (2 ^ 52). rewrite <- !Z.pow_add_r by lia. f_equal. lia.
  - assert (Hl : Z.log2 a < 53) by (apply Z.log2_lt_pow2; lia).
    pose proof (Z.log2_nonneg a) as Hl0.
    exists (a * 2 ^ (52 - Z.log2 a)).
    rewrite <- Z.mul_assoc, <- Z.pow_add_r by lia. do 2 f_equal. lia.
Qed.

(** A double holds every integer up to [2^53] in magnitude. *)
Lemma of_Z_integer (n : Z) : Z.abs n <= 2 ^ 53 -> of_Z n = Num (n * ONE).
Proof.
  intros Hn. unfold of_Z. destruct (Z.eq_dec n 0) as [->|Hn0]; [reflexivity|].
  assert (Habs : Z.abs (n * ONE) = Z.abs n * 2 ^ 1074).
  { rewrite Z.abs_mul. f_equal. }
  apply of_units_exact; rewrite Habs.
  - apply representable_shift; lia.
  - unfold OVERFLOW. apply Z.le_lt_trans with (2 ^ 53 * 2 ^ 1074).
    + apply Z.mul_le_mono_nonneg_r; [apply Z.pow_nonneg; lia|exact Hn].
    + rewrite <- Z.pow_add_r by lia. apply Z.pow_lt_mono_r; lia.
Qed.

(** On a safe integer [m] the double sum [m + 1] is the integer. *)
Lemma succ_safe_integer (m : Z) :
  safe_integer m -> fadd (of_Z m) (of_Z 1) = Num ((m + 1) * ONE).
Proof.
  unfold safe_integer. intros Hm.
  rewrite (of_Z_integer m), (of_Z_integer 1) by lia.
  change (fadd (Num (m * ONE)) (Num (1 * ONE))) with (of_units (m * ONE + 1 * ONE)).
  rewrite <- Z.mul_add_distr_r. apply of_Z_integer. lia.
Qed.

(** At [2^53] it is not: the sum is [2^53] again. *)
Lemma succ_unsafe_integer : fadd (of_Z (2 ^ 53)) (of_Z 1) = of_Z (2 ^ 53).
Proof. vm_compute. reflexivity. Qed.

End SafeIntegers.

(** ** Reversals *)

Lemma next_sequence_fresh s tid aid e :
  e ∈ getEventsByAccountId s tid aid ->
  (ev_sequenceNumber e < getNextSequenceNumber s tid aid)%Z.
Proof.
  intros He. unfold getNextSequenceNumber. fold (getEventsByAccountId s tid aid).
  pose proof (list_elem_of_fmap_2 ev_sequenceNumber _ _ He) as Hin.
  destruct (ev_sequenceNumber <$> getEventsByAccountId s tid aid) as [|x xs];
    [inversion Hin|].
  destruct (Math_max_spec x xs) as [_ Hmax]. specialize (Hmax _ Hin). lia.
Qed.

(** On safe integers the next number is the double sum of the greatest
    number of the account and 1, which is exact. *)
Lemma next_sequence_double s tid aid :
  let evs := getEventsByAccountId s tid aid in
  safe_sequence evs -> evs <> [] ->
  exists m, m ∈ evs
    /\ (forall e, e ∈ evs -> (ev_sequenceNumber e <= ev_sequenceNumber m)%Z)
    /\ getNextSequenceNumber s tid aid = (ev_sequenceNumber m + 1)%Z
    /\ fadd (of_Z (ev_sequenceNumber m)) (of_Z 1)
       = Num (getNextSequenceNumber s tid aid * ONE).
Proof.
  intros evs Hsafe Hne. unfold getNextSequenceNumber.
  fold (getEventsByAccountId s tid aid). fold evs.
  destruct (ev_sequenceNumber <$> evs) as [|x xs] eqn:Hm.
  { destruct evs; [contradiction|discriminate]. }
  destruct (Math_max_spec x xs) as [Hin Hmax]. rewrite <- Hm in Hin, Hmax.
  apply list_elem_of_fmap in Hin. destruct Hin as (m & Hx & Hin).
  exists m. split; [exact Hin|]. rewrite Hx. split; [|split; [reflexivity|]].
  - intros e He. rewrite <- Hx. apply Hmax.
    apply list_elem_of_fmap_2. exact He.
  - apply succ_safe_integer.
    unfold safe_sequence in Hsafe. rewrite Forall_forall in Hsafe.
    apply Hsafe. exact Hin.
Qed.





(** ** Tenants *)

(** The events that a call appends carry the tenant of the caller, so the
    events of any other tenant are what they were. *)
Lemma call_events_tenant c w :
  events (storage (call c w)) = events (storage w)
  \/ exists ev, events (storage (call c w)) = events (storage w) ++ [ev]
       /\ ev_tenantId ev = tenant_of c.
Proof.
  destruct c as [t p|t p|t p|t a|t a f u|t a]; simpl.
  - left. apply openAccount_events.
  - destruct (getEventByIdempotencyKey (storage w) t (re_idempotencyKey p))
      as [e|] eqn:Hk.
    { left. rewrite (recordEvent_replay _ _ _ _ Hk). reflexivity. }
    destruct (getAccount (storage w) t (re_accountId p)) as [a|] eqn:Ha.
    2:{ left. rewrite (recordEvent_no_account _ _ _ Hk Ha). reflexivity. }
    destruct (decide (acct_currency a = re_currency p)) as [Hc|Hc].
    2:{ left. rewrite (recordEvent_currency _ _ _ _ Hk Ha Hc). reflexivity. }
    right. destruct (recordEvent_fresh _ _ _ _ Hk Ha Hc)
      as (eid & now & au & w' & Hr & Hs & _).
    rewrite Hr. simpl. rewrite Hs. simpl. eexists. split; reflexivity.
  - destruct (getEventByIdempotencyKey (storage w) t (rv_idempotencyKey p))
      as [e|] eqn:Hk.
    { left. rewrite (reverseEvent_replay _ _ _ _ Hk). reflexivity. }
    destruct (getEventById (storage w) t (rv_originalEventId p)) as [o|] eqn:Ho.
    2:{ left. rewrite (reverseEvent_not_found _ _ _ Hk Ho). reflexivity. }
    destruct (decide (Exists (fun e => ev_reversesEventId e
                                       = Some (rv_originalEventId p))
                (getEventsByAccountId (storage w) t (ev_accountId o)))) as [Hx|Hx].
    { left. rewrite (reverseEvent_already _ _ _ _ Hk Ho Hx). reflexivity. }
    right. destruct (reverseEvent_fresh _ _ _ _ Hk Ho Hx)
      as (rid & now & au & w' & Hr & Hs & _).
    rewrite Hr. simpl. rewrite Hs. simpl. eexists. split; reflexivity.
  - left. rewrite getAccountBalance_world. reflexivity.
  - left. rewrite getAccountStatement_world. reflexivity.
  - left. rewrite verifyLedgerIntegrity_world. reflexivity.
Qed.

Lemma openAccount_accounts tid p w :
  accounts (storage (snd (openAccount tid p w))) = accounts (storage w)
  \/ exists id a,
       accounts (storage (snd (openAccount tid p w)))
       = <[accountKey tid id := a]> (accounts (storage w)).
Proof.
  remember (snd (openAccount tid p w)) as w2 eqn:E. revert E.
  unfold openAccount, bind at 1.
  destruct (or_uuid_storage (oa_accountId p) w) as (id & w1 & -> & Hs & _).
  run_monad. destruct (getAccount (storage w1) tid id); simpl; intros ->.
  - left. congruence.
  - right. unfold createAccount, emitAuditEvent, createAuditEvent. run_monad.
    rewrite <- Hs. eexists _, _. reflexivity.
Qed.

(** A call writes no account but under keys of the caller's tenant. *)
Lemma call_accounts c w :
  accounts (storage (call c w)) = accounts (storage w)
  \/ exists id a,
       accounts (storage (call c w))
       = <[accountKey (tenant_of c) id := a]> (accounts (storage w)).
Proof.
  destruct c as [t p|t p|t p|t a|t a f u|t a]; simpl.
  - apply openAccount_accounts.
  - left.
    destruct (getEventByIdempotencyKey (storage w) t (re_idempotencyKey p))
      as [e|] eqn:Hk.
    { rewrite (recordEvent_replay _ _ _ _ Hk). reflexivity. }
    destruct (getAccount (storage w) t (re_accountId p)) as [a|] eqn:Ha.
    2:{ rewrite (recordEvent_no_account _ _ _ Hk Ha). reflexivity. }
    destruct (decide (acct_currency a = re_currency p)) as [Hc|Hc].
    2:{ rewrite (recordEvent_currency _ _ _ _ Hk Ha Hc). reflexivity. }
    destruct (recordEvent_fresh _ _ _ _ Hk Ha Hc)
      as (eid & now & au & w' & Hr & Hs & _).
    rewrite Hr. simpl. rewrite Hs. reflexivity.
  - left.
    destruct (getEventByIdempotencyKey (storage w) t (rv_idempotencyKey p))
      as [e|] eqn:Hk.
    { rewrite (reverseEvent_replay _ _ _ _ Hk). reflexivity. }
    destruct (getEventById (storage w) t (rv_originalEventId p)) as [o|] eqn:Ho.
    2:{ rewrite (reverseEvent_not_found _ _ _ Hk Ho). reflexivity. }
    destruct (decide (Exists (fun e => ev_reversesEventId e
                                       = Some (rv_originalEventId p))
                (getEventsByAccountId (storage w) t (ev_accountId o)))) as [Hx|Hx].
    { rewrite (reverseEvent_already _ _ _ _ Hk Ho Hx). reflexivity. }
    destruct (reverseEvent_fresh _ _ _ _ Hk Ho Hx)
      as (rid & now & au & w' & Hr & Hs & _).
    rewrite Hr. simpl. rewrite Hs. reflexivity.
  - left. rewrite getAccountBalance_world. reflexivity.
  - left. rewrite getAccountStatement_world. reflexivity.
  - left. rewrite verifyLedgerIntegrity_world. reflexivity.
Qed.

(** The account that another tenant finds under [aid] is what it was,
    provided no key of the caller's tenant is the key of that account. *)
Lemma other_tenant_account c w (tid aid : string) :
  (forall id, accountKey (tenant_of c) id <> accountKey tid aid) ->
  getAccount (storage (call c w)) tid aid = getAccount (storage w) tid aid.
Proof.
  intros Hne. unfold getAccount.
  destruct (call_accounts c w) as [-> | (id & a & ->)]; [reflexivity|].
  apply lookup_insert_ne. apply Hne.
Qed.

Lemma append_cancel_r (a b s : string) : a +:+ s = b +:+ s -> a = b.
Proof.
  revert b. induction a as [|x a IH]; intros b H.
  - apply (f_equal String.length) in H. rewrite !length_app_string in H.
    destruct b; [reflexivity|]. simpl in H. lia.
  - destruct b as [|y b].
    + apply (f_equal String.length) in H. rewrite !length_app_string in H.
      simpl in H. lia.
    + rewrite !append_cons in H. injection H as -> H. f_equal. apply IH. exact H.
Qed.

(** Two tenants never share the key of one account identifier. *)
Lemma accountKey_same_account (t1 t2 c : string) :
  accountKey t1 c = accountKey t2 c -> t1 = t2.
Proof. unfold accountKey. apply append_cancel_r. Qed.

(** C6 fails on the store's account key.  [accountKey] joins the tenant and
    the account identifier with a colon, so tenant [a:b] with account [c]
    and tenant [a] with account [b:c] share the key [a:b:c].  After tenant
    [a:b] has opened [c], the engine of tenant [a], which has opened
    nothing, is told that [b:c] already exists, reads a balance in the
    currency of the other tenant's account, and records an event on it. *)
Theorem accountKey_collision :
  accountKey "a:b" "c" = accountKey "a" "b:c"
  /\ getAccount (storage colliding_world) "a" "b:c" = Some account_c
  /\ acct_tenantId account_c = "a:b"
  /\ fst (getAccountBalance "a" "b:c" colliding_world)
     = Ok (mkBalance "b:c" "0.00000000" "USD" 0)
  /\ exn_code_of
       (fst (openAccount "a" (mkOpenAccountParams (Some "b:c") "CASH" "EUR" None)
                         colliding_world))
     = Some "ACCOUNT_EXISTS"
  /\ (ev_tenantId <$>
      events (storage (calls [RecordEvent "a"
                                (mkRecordEventParams None "b:c" "CREDIT" "5" "USD"
                                                     "k1" None None)]
                             colliding_world)))
     = ["a"].
Proof.
  split; [reflexivity|].
  split; [vm_compute; reflexivity|].
  split; [reflexivity|].
  split; [vm_compute; reflexivity|].
  split; vm_compute; reflexivity.
Qed.

(** * Further properties of the engine and its store *)

(** ** Nearest doubles *)

Section Nearest.
Local Open Scope Z_scope.

(** [round_half_even p q] is an integer nearest to [p/q]. *)
Lemma round_half_even_nearest (p q m : Z) :
  0 < q -> Z.abs (round_half_even p q * q - p) <= Z.abs (m * q - p).
Proof.
  intros Hq. unfold round_half_even.
  pose proof (Z.div_mod p q ltac:(lia)) as Hp.
  pose proof (Z.mod_pos_bound p q Hq) as Hr.
  set (d := p / q) in *. set (r := p mod q) in *.
  destruct (Z.le_gt_cases m d) as [Hm|Hm].
  - assert (0 <= (d - m) * q) by nia.
    destruct (Z.compare_spec (2 * r) q); [destruct (Z.even d)| |]; nia.
  - assert (q <= (m - d) * q) by nia.
    destruct (Z.compare_spec (2 * r) q); [destruct (Z.even d)| |]; nia.
Qed.

(** No magnitude that a double can hold is nearer to [p/q] than
    [round_units p q]. *)
Lemma round_units_nearest (p q a : Z) :
  0 <= p -> 0 < q -> representable a ->
  Z.abs (round_units p q * q - p) <= Z.abs (a * q - p).
Proof.
  intros Hp Hq [Ha Hrep]. unfold round_units.
  assert (Ht : 0 <= p / q) by (apply Z.div_pos; lia).
  destruct (Z.ltb_spec (p / q) (2 ^ 53)) as [Hlt|Hge];
    [apply round_half_even_nearest; exact Hq|].
  set (t := p / q) in *. set (sh := Z.log2 t - 52).
  assert (H53 : 53 <= Z.log2 t) by (apply Z.log2_le_pow2; lia).
  assert (Hsh : 1 <= sh) by (unfold sh; lia).
  assert (Hg : 0 < 2 ^ sh) by (apply Z.pow_pos_nonneg; lia).
  assert (Hnear : forall m,
            Z.abs (round_half_even p (q * 2 ^ sh) * 2 ^ sh * q - p)
            <= Z.abs (m * 2 ^ sh * q - p)).
  { intros m.
    replace (round_half_even p (q * 2 ^ sh) * 2 ^ sh * q)
      with (round_half_even p (q * 2 ^ sh) * (q * 2 ^ sh)) by ring.
    replace (m * 2 ^ sh * q) with (m * (q * 2 ^ sh)) by ring.
    apply round_half_even_nearest. lia. }
  destruct (Z.lt_ge_cases a (2 ^ Z.log2 t)) as [Hsmall|Hbig].
  - (* [a] lies below the binade of [p/q], whose lower end is nearer *)
    pose proof (Z.log2_spec t ltac:(lia)) as [Hlo _].
    pose proof (Z.mul_div_le p q Hq) as Hfloor. fold t in Hfloor.
    specialize (Hnear (2 ^ 52)).
    replace (2 ^ 52 * 2 ^ sh) with (2 ^ Z.log2 t) in Hnear
      by (rewrite <- Z.pow_add_r by lia; f_equal; unfold sh; lia).
    nia.
  - (* [a] is a multiple of the spacing *)
    assert (Hla : Z.log2 t <= Z.log2 a).
    { rewrite <- (Z.log2_pow2 (Z.log2 t)) by lia. apply Z.log2_le_mono. exact Hbig. }
    assert (H2 : 2 ^ 53 <= 2 ^ Z.log2 t) by (apply Z.pow_le_mono_r; lia).
    destruct Hrep as [Hrep|[m Hm]]; [lia|].
    replace (Z.log2 a - 52) with ((Z.log2 a - Z.log2 t) + sh) in Hm
      by (unfold sh; lia).
    rewrite Z.pow_add_r in Hm by lia.
    rewrite Hm. replace (m * (2 ^ (Z.log2 a - Z.log2 t) * 2 ^ sh) * q)
      with (m * 2 ^ (Z.log2 a - Z.log2 t) * 2 ^ sh * q) by ring.
    apply Hnear.
Qed.

Lemma round_units_nonneg (p q : Z) : 0 <= p -> 0 < q -> 0 <= round_units p q.
Proof. intros Hp Hq. apply (round_units_representable p q Hp Hq). Qed.

End Nearest.

(** ** Reading back [toFixed] *)

Section FixedReadBack.
Local Open Scope Z_scope.

(** [fixed_digits n f] is an integer part, a point and [f] fraction digits,
    which together read as [n]. *)
Lemma fixed_digits_shape (n : Z) (f : nat) :
  (0 <= n)%Z ->
  exists ip fp,
    fixed_digits n f = ip +:+ String "." fp
    /\ all_digits ip = true /\ ip <> EmptyString
    /\ all_digits fp = true /\ String.length fp = f
    /\ digits_value 0 (ip +:+ fp) = n.
Proof.
  intros Hn. destruct (digits_of_spec n Hn) as (Ha & Hne & Hv).
  unfold fixed_digits.
  set (ds := digits_of n) in *. clearbody ds.
  set (m' := if (String.length ds <=? f)%nat
             then zeros (f + 1 - String.length ds) +:+ ds else ds).
  assert (Hm' : all_digits m' = true /\ digits_value 0 m' = n
                /\ (f < String.length m')%nat).
  { unfold m'. destruct (Nat.leb_spec (String.length ds) f) as [Hle|Hgt].
    - destruct (zeros_spec (f + 1 - String.length ds)) as (Hza & Hzl & Hzv).
      rewrite all_digits_app, Hza, Ha, digits_value_app, Hzv, length_app_string, Hzl.
      split; [reflexivity|]. split; [rewrite Z.mul_0_l; exact Hv|lia].
    - auto. }
  destruct Hm' as (Hall & Hval & Hlen). clearbody m'.
  remember (String.length m') as k' eqn:Hk'.
  destruct (all_digits_take_drop (k' - f) m' Hall) as [Ht Hd].
  exists (str_take (k' - f) m'), (str_drop (k' - f) m').
  split; [reflexivity|]. split; [exact Ht|]. split.
  { destruct m' as [|c s]; [simpl in Hk'; lia|].
    destruct (k' - f)%nat eqn:E; [lia|discriminate]. }
  split; [exact Hd|]. split; [rewrite length_drop; lia|].
  rewrite take_drop. exact Hval.
Qed.

(** The text of [fixed_digits] reads as [n * 10^-f]. *)
Lemma fixed_digits_reads (n : Z) (f : nat) :
  0 <= n ->
  (exists c rest, fixed_digits n f = String c rest /\ is_digit c = true)
  /\ forall neg, exists m,
       parse_unsigned neg (fixed_digits n f) = LitDecimal neg m (- Z.of_nat f)
       /\ m = n.
Proof.
  intros Hn.
  destruct (fixed_digits_shape n f Hn)
    as (ip & fp & -> & Hip & Hne & Hfp & Hlen & Hval).
  split.
  - destruct (all_digits_head ip Hip Hne) as (c & rest & -> & Hc).
    eexists _, _. split; [apply append_cons|exact Hc].
  - intros neg. eexists. split; [|exact Hval].
    rewrite <- (app_empty_r fp) at 1.
    rewrite (parse_unsigned_fraction neg ip fp EmptyString Hip Hne Hfp I), Hlen.
    reflexivity.
Qed.

(** [parseFloat(x.toFixed(f))] of a finite double below [10^21] is the
    double nearest to [x] rounded to [f] fraction digits. *)
Lemma parseFloat_toFixed (k : Z) (f : nat) :
  Z.abs k < 10 ^ 21 * ONE ->
  parseFloat (toFixed (Num k) f)
  = of_decimal (k <? 0) (round_half_up (Z.abs k * 10 ^ Z.of_nat f) ONE)
               (- Z.of_nat f).
Proof.
  intros Hk. unfold toFixed.
  destruct (Z.leb_spec (10 ^ 21 * ONE) (Z.abs k)); [lia|].
  set (n := round_half_up (Z.abs k * 10 ^ Z.of_nat f) ONE).
  assert (Hn : 0 <= n).
  { unfold n, round_half_up. pose proof ONE_pos.
    apply Z.div_pos; [|lia].
    assert (0 <= Z.abs k * 10 ^ Z.of_nat f)
      by (apply Z.mul_nonneg_nonneg; [lia|apply Z.pow_nonneg; lia]).
    lia. }
  destruct (fixed_digits_reads n f Hn) as [(c & rest & Htext & Hc) Hread].
  unfold parseFloat. destruct (Z.ltb_spec k 0).
  - change ("-" +:+ fixed_digits n f) with (String "-" (fixed_digits n f)).
    change (parse_literal (String "-" (fixed_digits n f)))
      with (parse_unsigned true (fixed_digits n f)).
    destruct (Hread true) as (m & -> & ->). reflexivity.
  - change (EmptyString +:+ fixed_digits n f) with (fixed_digits n f).
    rewrite Htext, (proj1 (digit_head c rest Hc)), <- Htext.
    destruct (Hread false) as (m & -> & ->). reflexivity.
Qed.

(** At or above [10^21], [toFixed] is [toString]. *)
Lemma toFixed_large (k : Z) (f : nat) :
  10 ^ 21 * ONE <= Z.abs k -> toFixed (Num k) f = toString (Num k).
Proof.
  intros Hk. pose proof ONE_pos. unfold toFixed, toString.
  destruct (Z.leb_spec (10 ^ 21 * ONE) (Z.abs k)); [|lia].
  destruct (Z.eqb_spec k 0); [lia|].
  destruct (Z.ltb_spec k 0).
  - rewrite Z.abs_neq by lia. reflexivity.
  - rewrite Z.abs_eq by lia. reflexivity.
Qed.

End FixedReadBack.

(** ** The tolerance of the balance check *)

Section Tolerance.
Local Open Scope Z_scope.

(** The literal [0.00000001] is a double that is not below [10^-8]. *)
Lemma tolerance_units :
  exists T, tolerance = Num T /\ representable T /\ ONE <= T * 10 ^ 8
            /\ T < OVERFLOW.
Proof.
  exists (round_units ONE (10 ^ 8)). split; [vm_compute; reflexivity|].
  split; [apply round_units_representable; [vm_compute; discriminate|reflexivity]|].
  split; [apply Z.leb_le|apply Z.ltb_lt]; vm_compute; reflexivity.
Qed.

(** A difference of at most [10^-8] is not greater than the tolerance. *)
Lemma within_tolerance (s : Z) :
  Z.abs s * 10 ^ 8 <= ONE -> fgt (fabs (of_units s)) tolerance = false.
Proof.
  intros Hs. destruct tolerance_units as (T & -> & Hrep & HT & HTo).
  assert (HT0 : 0 <= T) by apply Hrep.
  unfold of_units. destruct (Z.eqb_spec s 0) as [->|Hs0].
  { simpl. apply Z.ltb_ge. exact HT0. }
  pose proof (round_units_nearest (Z.abs s) 1 T ltac:(lia) ltac:(lia) Hrep) as Hn.
  pose proof (round_units_nonneg (Z.abs s) 1 ltac:(lia) ltac:(lia)) as H0.
  unfold round_F64. set (k := round_units (Z.abs s) 1) in *.
  assert (Hk : k <= T) by lia.
  destruct (OVERFLOW <=? k) eqn:Ho.
  { apply Z.leb_le in Ho. lia. }
  destruct (Z.eqb_spec k 0) as [Hk0|Hk0].
  - destruct (s <? 0); simpl; apply Z.ltb_ge; exact HT0.
  - destruct (s <? 0); simpl; apply Z.ltb_ge; lia.
Qed.

(** A double and the reading of its text with 8 fraction digits differ by
    no more than the tolerance of the balance check. *)
Lemma toFixed_within_tolerance (x : F64) :
  canonical x ->
  fgt (fabs (fsub x (parseFloat (toFixed x 8)))) tolerance = false.
Proof.
  destruct x as [|[]| |k]; intros Hx.
  1-4: vm_compute; reflexivity.
  destruct Hx as [Hrep Hfin].
  destruct (Z.lt_ge_cases (Z.abs k) (10 ^ 21 * ONE)) as [Hsmall|Hlarge].
  - rewrite parseFloat_toFixed by exact Hsmall.
    set (a := Z.abs k) in *.
    set (n := round_half_up (a * 10 ^ Z.of_nat 8) ONE).
    change (of_decimal (k <? 0) n (- Z.of_nat 8))
      with (round_F64 (k <? 0) (n * ONE) (10 ^ 8)).
    pose proof ONE_pos as H1.
    assert (Ha : 0 <= a) by (unfold a; lia).
    assert (Hp : 0 <= a * 10 ^ 8) by lia.
    assert (Hn : 0 <= n /\ Z.abs (2 * (a * 10 ^ 8) - 2 * (n * ONE)) <= ONE).
    { unfold n, round_half_up. change (10 ^ Z.of_nat 8) with (10 ^ 8).
      pose proof (Z.div_mod (2 * (a * 10 ^ 8) + ONE) (2 * ONE) ltac:(lia)) as Hd.
      pose proof (Z.mod_pos_bound (2 * (a * 10 ^ 8) + ONE) (2 * ONE) ltac:(lia)) as Hm.
      split; [apply Z.div_pos; lia|]. lia. }
    destruct Hn as [Hn0 Hn].
    pose proof (round_units_nearest (n * ONE) (10 ^ 8) a ltac:(lia) ltac:(lia) Hrep)
      as Hnear.
    pose proof (round_units_nonneg (n * ONE) (10 ^ 8) ltac:(lia) ltac:(lia)) as Hr0.
    unfold round_F64. set (r := round_units (n * ONE) (10 ^ 8)) in *.
    assert (Hclose : Z.abs (a - r) * 10 ^ 8 <= ONE) by lia.
    destruct (OVERFLOW <=? r) eqn:Ho.
    { apply Z.leb_le in Ho. exfalso.
      assert (Hb : 10 ^ 21 * ONE * 10 ^ 8 + ONE < OVERFLOW * 10 ^ 8)
        by (apply Z.ltb_lt; vm_compute; reflexivity).
      lia. }
    assert (Hk : of_units k = Num k) by (apply of_units_exact; assumption).
    destruct (Z.eqb_spec r 0) as [Hr|Hr].
    + assert (Hgoal : fsub (Num k) (if k <? 0 then NegZero else Num 0) = of_units k).
      { rewrite Hk. destruct (k <? 0); unfold fsub; simpl.
        - rewrite Z.add_0_r. exact Hk.
        - reflexivity. }
      rewrite Hgoal. apply within_tolerance. fold a. clearbody r a. subst r.
      rewrite Z.sub_0_r in Hclose. lia.
    + assert (Hgoal : fsub (Num k) (Num (if k <? 0 then - r else r))
                      = of_units (if k <? 0 then r - a else a - r)).
      { unfold fsub, fneg, a. destruct (Z.ltb_spec k 0).
        - destruct (Z.eqb_spec (- r) 0); [lia|]. simpl. f_equal. lia.
        - destruct (Z.eqb_spec r 0); [lia|]. simpl. f_equal. lia. }
      rewrite Hgoal. apply within_tolerance. destruct (k <? 0); lia.
  - rewrite toFixed_large by exact Hlarge.
    rewrite parseFloat_toString by (split; assumption).
    pose proof ONE_pos.
    assert (Hk0 : k <> 0) by lia.
    unfold unsigned_zero, fsub, fneg. destruct (Z.eqb_spec k 0); [contradiction|].
    simpl fadd. replace (k + - k) with 0 by lia.
    apply within_tolerance. vm_compute. discriminate.
Qed.

End Tolerance.

(** ** Opening accounts *)

Lemma openAccount_fresh tid p w :
  let id := default (uuid_oracle w (uuid_drawn w)) (truthy (oa_accountId p)) in
  getAccount (storage w) tid id = None ->
  exists au w',
    let acc := mkAccount id tid (oa_accountType p) (oa_currency p) (oa_metadata p)
                         (ValidDate (clock_oracle w (clock_drawn w))) in
    openAccount tid p w = (Ok acc, w')
    /\ storage w' = mkStorage (<[accountKey tid id := acc]> (accounts (storage w)))
                              (events (storage w)) (auditEvents (storage w) ++ [au])
    /\ au_action au = "ACCOUNT_OPENED" /\ au_entityType au = "account"
    /\ au_entityId au = id /\ au_tenantId au = tid.
Proof.
  intros id Ha. unfold openAccount, or_uuid. subst id.
  destruct (truthy (oa_accountId p)) as [id|]; simpl in Ha;
    unfold createAccount, emitAuditEvent, createAuditEvent; run_monad;
    rewrite Ha; simpl; eexists _, _; repeat split.
Qed.

Lemma openAccount_existing tid p w a :
  let id := default (uuid_oracle w (uuid_drawn w)) (truthy (oa_accountId p)) in
  getAccount (storage w) tid id = Some a ->
  exists w',
    openAccount tid p w
    = (Throw (LedgerError ("Account " +:+ id +:+ " already exists")
                          "ACCOUNT_EXISTS" [("accountId", id)]), w')
    /\ storage w' = storage w
    /\ (is_Some (truthy (oa_accountId p)) -> w' = w).
Proof.
  intros id Ha. unfold openAccount, or_uuid. subst id.
  destruct (truthy (oa_accountId p)) as [id|]; simpl in Ha; run_monad;
    rewrite Ha; simpl; eexists; repeat split.
  intros [x Hx]. discriminate.
Qed.

(** ** What a call does to the store *)

(** A call leaves the store as it was, or opens one account, or appends one
    event; either change comes with one audit record. *)
Lemma call_cases c w :
  let s := storage w in
  let t := tenant_of c in
  storage (call c w) = s
  \/ (exists id acc au,
        getAccount s t id = None
        /\ storage (call c w)
           = mkStorage (<[accountKey t id := acc]> (accounts s)) (events s)
                       (auditEvents s ++ [au])
        /\ au_action au = "ACCOUNT_OPENED" /\ au_entityId au = id
        /\ au_tenantId au = t
        /\ acct_tenantId acc = t /\ acct_id acc = id)
  \/ (exists ev au,
        storage (call c w)
        = mkStorage (accounts s) (events s ++ [ev]) (auditEvents s ++ [au])
        /\ appended s ev /\ ev_tenantId ev = t
        /\ au_entityId au = ev_id ev /\ au_tenantId au = t
        /\ (au_action au = "EVENT_RECORDED"
            /\ ev_reversesEventId ev = None
            /\ (exists a, getAccount s t (ev_accountId ev) = Some a
                  /\ acct_currency a = ev_currency ev)
            \/ au_action au = "EVENT_REVERSED"
               /\ exists o oid, getEventById s t oid = Some o
                    /\ ev_reversesEventId ev = Some oid
                    /\ ev_accountId ev = ev_accountId o
                    /\ ev_currency ev = ev_currency o
                    /\ ev_eventType ev = "REVERSAL"
                    /\ ev_amount ev
                       = toString (fmul (parseFloat (ev_amount o)) (of_Z (-1))))).
Proof.
  destruct c as [t p|t p|t p|t a|t a f u|t a]; simpl.
  - destruct (getAccount (storage w) t
                (default (uuid_oracle w (uuid_drawn w)) (truthy (oa_accountId p))))
      as [a|] eqn:Ha.
    + left. destruct (openAccount_existing t p w a Ha) as (w' & -> & Hs & _).
      exact Hs.
    + right. left. destruct (openAccount_fresh t p w Ha)
        as (au & w' & Hr & Hs & Hact & _ & Hid & Ht).
      rewrite Hr. simpl. eexists _, _, au. split; [exact Ha|].
      split; [exact Hs|]. split; [exact Hact|]. split; [exact Hid|].
      split; [exact Ht|]. split; reflexivity.
  - destruct (getEventByIdempotencyKey (storage w) t (re_idempotencyKey p))
      as [e|] eqn:Hk.
    { left. rewrite (recordEvent_replay _ _ _ _ Hk). reflexivity. }
    destruct (getAccount (storage w) t (re_accountId p)) as [a|] eqn:Ha.
    2:{ left. rewrite (recordEvent_no_account _ _ _ Hk Ha). reflexivity. }
    destruct (decide (acct_currency a = re_currency p)) as [Hc|Hc].
    2:{ left. rewrite (recordEvent_currency _ _ _ _ Hk Ha Hc). reflexivity. }
    right. right. destruct (recordEvent_fresh _ _ _ _ Hk Ha Hc)
      as (eid & now & au & w' & Hr & Hs & Hact & Hid & Ht & _).
    rewrite Hr. simpl. rewrite Hs. eexists _, au. split; [reflexivity|].
    split; [split; simpl; [assumption|reflexivity|discriminate]|].
    split; [reflexivity|]. split; [exact Hid|]. split; [exact Ht|].
    left. split; [exact Hact|]. split; [reflexivity|]. exists a. auto.
  - destruct (getEventByIdempotencyKey (storage w) t (rv_idempotencyKey p))
      as [e|] eqn:Hk.
    { left. rewrite (reverseEvent_replay _ _ _ _ Hk). reflexivity. }
    destruct (getEventById (storage w) t (rv_originalEventId p)) as [o|] eqn:Ho.
    2:{ left. rewrite (reverseEvent_not_found _ _ _ Hk Ho). reflexivity. }
    destruct (decide (Exists (fun e => ev_reversesEventId e
                                       = Some (rv_originalEventId p))
                (getEventsByAccountId (storage w) t (ev_accountId o)))) as [Hx|Hx].
    { left. rewrite (reverseEvent_already _ _ _ _ Hk Ho Hx). reflexivity. }
    right. right. destruct (reverseEvent_fresh _ _ _ _ Hk Ho Hx)
      as (rid & now & au & w' & Hr & Hs & Hact & Hid & Ht & _).
    rewrite Hr. simpl. rewrite Hs. eexists _, au. split; [reflexivity|].
    split; [split; simpl; [assumption|reflexivity|]|].
    { intros oid [= <-]. exists o. auto. }
    split; [reflexivity|]. split; [exact Hid|]. split; [exact Ht|].
    right. split; [exact Hact|]. exists o, (rv_originalEventId p). auto 10.
  - left. rewrite getAccountBalance_world. reflexivity.
  - left. rewrite getAccountStatement_world. reflexivity.
  - left. rewrite verifyLedgerIntegrity_world. reflexivity.
Qed.

(** A property of stores that every call keeps holds after any calls. *)
Lemma calls_keep (I : InMemoryStorage -> Prop) :
  (forall c w, I (storage w) -> I (storage (call c w))) ->
  forall cs w, I (storage w) -> I (storage (calls cs w)).
Proof.
  intros Hstep cs. induction cs as [|c cs IH]; intros w Hw; [exact Hw|].
  simpl. apply IH, Hstep, Hw.
Qed.

Lemma call_keeps_accounts c w k a :
  accounts (storage w) !! k = Some a ->
  accounts (storage (call c w)) !! k = Some a.
Proof.
  intros Hk.
  destruct (call_cases c w)
    as [-> | [(id & acc & au & Hnone & -> & _) | (ev & au & -> & _)]];
    [exact Hk| |exact Hk].
  simpl. rewrite lookup_insert_ne; [exact Hk|].
  intros <-. unfold getAccount in Hnone. congruence.
Qed.

(** X1. [openAccount] for an identifier that the tenant's key does not hold
    yet returns the account with the fields it was given, the tenant of the
    engine and the date of the clock; the identifier is the one supplied
    or, when that is missing or empty, the next [uuidv4()].  Afterwards
    [getAccount] of the store returns that account, every other key holds
    what it held, the events are untouched, and the audit trail has grown
    by exactly one [ACCOUNT_OPENED] record for the account. *)
Theorem openAccount_opens (tid : string) (p : OpenAccountParams) (w : World) :
  let id := default (uuid_oracle w (uuid_drawn w)) (truthy (oa_accountId p)) in
  getAccount (storage w) tid id = None ->
  exists w',
    let acc := mkAccount id tid (oa_accountType p) (oa_currency p) (oa_metadata p)
                         (ValidDate (clock_oracle w (clock_drawn w))) in
    openAccount tid p w = (Ok acc, w')
    /\ getAccount (storage w') tid id = Some acc
    /\ (forall k, k <> accountKey tid id ->
          accounts (storage w') !! k = accounts (storage w) !! k)
    /\ events (storage w') = events (storage w)
    /\ exists au,
         auditEvents (storage w') = auditEvents (storage w) ++ [au]
         /\ au_action au = "ACCOUNT_OPENED" /\ au_entityType au = "account"
         /\ au_entityId au = id /\ au_tenantId au = tid.
Proof.
  intros id Ha.
  destruct (openAccount_fresh tid p w Ha) as (au & w' & Hr & Hs & Hau).
  exists w'. split; [exact Hr|]. rewrite Hs. unfold getAccount. simpl.
  split; [apply lookup_insert_eq|].
  split; [intros k Hk; apply lookup_insert_ne; intros E; apply Hk; symmetry; exact E|].
  split; [reflexivity|]. exists au. split; [reflexivity|exact Hau].
Qed.

Lemma openAccount_opens_witness :
  exists w',
    openAccount "tenant-001" open_A demo_world = (Ok account_A, w')
    /\ getAccount (storage w') "tenant-001" "A" = Some account_A
    /\ events (storage w') = [].
Proof.
  destruct (openAccount_opens "tenant-001" open_A demo_world
              ltac:(vm_compute; reflexivity))
    as (w' & Hr & Hg & _ & He & _).
  exists w'. split; [exact Hr|]. split; [exact Hg|exact He].
Defined.

(** X2. [openAccount] for an identifier whose key the store already holds
    throws [ACCOUNT_EXISTS], naming the identifier, and leaves the store as
    it was: no account is replaced, no audit record written.  So an account
    that [openAccount] has returned cannot be opened again under its
    identifier by the same tenant, whatever type or currency is asked
    for. *)
Theorem openAccount_refuses_existing (tid : string) :
  (forall p w a,
     let id := default (uuid_oracle w (uuid_drawn w)) (truthy (oa_accountId p)) in
     getAccount (storage w) tid id = Some a ->
     exists w',
       openAccount tid p w
       = (Throw (LedgerError ("Account " +:+ id +:+ " already exists")
                             "ACCOUNT_EXISTS" [("accountId", id)]), w')
       /\ storage w' = storage w)
  /\ (forall p w acc w' p',
        openAccount tid p w = (Ok acc, w') ->
        truthy (oa_accountId p') = Some (acct_id acc) ->
        exists msg details,
          openAccount tid p' w'
          = (Throw (LedgerError msg "ACCOUNT_EXISTS" details), w')).
Proof.
  split.
  - intros p w a id Ha.
    destruct (openAccount_existing tid p w a Ha) as (w' & Hr & Hs & _). eauto.
  - intros p w acc w' p' Hr Hid.
    destruct (getAccount (storage w) tid
                (default (uuid_oracle w (uuid_drawn w)) (truthy (oa_accountId p))))
      as [a|] eqn:Ha.
    { destruct (openAccount_existing tid p w a Ha) as (w1 & Hr1 & _). congruence. }
    destruct (openAccount_fresh tid p w Ha) as (au & w1 & Hr1 & Hs & _).
    rewrite Hr in Hr1. injection Hr1 as -> <-. simpl in Hid.
    assert (Hg : getAccount (storage w') tid
                   (default (uuid_oracle w (uuid_drawn w)) (truthy (oa_accountId p)))
                 = Some (mkAccount
                           (default (uuid_oracle w (uuid_drawn w))
                                    (truthy (oa_accountId p)))
                           tid (oa_accountType p) (oa_currency p) (oa_metadata p)
                           (ValidDate (clock_oracle w (clock_drawn w)))))
      by (unfold getAccount; rewrite Hs; apply lookup_insert_eq).
    destruct (openAccount_existing tid p' w' _
                ltac:(rewrite Hid; simpl; exact Hg)) as (w2 & Hr2 & _ & Hw).
    rewrite Hr2, Hid. simpl. rewrite (Hw ltac:(rewrite Hid; eauto)). eauto.
Qed.

Lemma openAccount_refuses_existing_witness :
  (exists w',
     openAccount "tenant-001" open_A demo_opened
     = (Throw (LedgerError "Account A already exists" "ACCOUNT_EXISTS"
                           [("accountId", "A")]), w')
     /\ storage w' = storage demo_opened)
  /\ exists msg details,
       openAccount "tenant-001" (mkOpenAccountParams (Some "A") "BANK" "EUR" None)
                   (snd (openAccount "tenant-001" open_A demo_world))
       = (Throw (LedgerError msg "ACCOUNT_EXISTS" details),
          snd (openAccount "tenant-001" open_A demo_world)).
Proof.
  split.
  - apply (proj1 (openAccount_refuses_existing "tenant-001") open_A demo_opened
             account_A).
    vm_compute. reflexivity.
  - apply (proj2 (openAccount_refuses_existing "tenant-001") open_A demo_world
             account_A).
    + apply run_eq. vm_compute. reflexivity.
    + reflexivity.
Defined.

(** X3. No call of the engine replaces, changes or removes an account: what
    a key of the store holds, it holds after any sequence of calls, by any
    tenants. *)
Theorem accounts_never_change (cs : list Call) (w : World) (k : string)
    (a : LedgerAccount) :
  accounts (storage w) !! k = Some a ->
  accounts (storage (calls cs w)) !! k = Some a.
Proof.
  revert w. induction cs as [|c cs IH]; intros w Hk; [exact Hk|].
  simpl. apply IH, call_keeps_accounts, Hk.
Qed.

Lemma accounts_never_change_witness :
  accounts (storage (calls [OpenAccount "tenant-001"
                              (mkOpenAccountParams (Some "A") "BANK" "EUR" None);
                            RecordEvent "tenant-001" credit_k1;
                            ReverseEvent "tenant-001" (reverse_e1 "k4")]
                           demo_opened))
    !! accountKey "tenant-001" "A"
  = Some account_A.
Proof.
  apply accounts_never_change. vm_compute. reflexivity.
Defined.

(** ** The history only grows *)

Lemma event_audits_snoc s au :
  filter (fun a => au_action a = "EVENT_RECORDED" \/ au_action a = "EVENT_REVERSED")
         (auditEvents s ++ [au])
  = event_audits s
    ++ (if decide (au_action au = "EVENT_RECORDED" \/ au_action au = "EVENT_REVERSED")
        then [au] else []).
Proof.
  unfold event_audits. rewrite filter_app, filter_singleton by exact [].
  destruct (decide _); reflexivity.
Qed.

(** What one call adds to the store. *)
Lemma call_grows c w :
  exists evs aus,
    events (storage (call c w)) = events (storage w) ++ evs
    /\ auditEvents (storage (call c w)) = auditEvents (storage w) ++ aus
    /\ (length aus + size (accounts (storage w))
        = length evs + size (accounts (storage (call c w))))%nat
    /\ (fun a => (au_tenantId a, au_entityId a)) <$> event_audits (storage (call c w))
       = ((fun a => (au_tenantId a, au_entityId a)) <$> event_audits (storage w))
         ++ ((fun e => (ev_tenantId e, ev_id e)) <$> evs).
Proof.
  destruct (call_cases c w)
    as [-> | [(id & acc & au & Hnone & -> & Hact & _)
             | (ev & au & -> & _ & Ht & Hid & Hat & Hact)]].
  - exists [], []. rewrite !app_nil_r. auto.
  - exists [], [au]. simpl. rewrite app_nil_r.
    split; [reflexivity|]. split; [reflexivity|].
    split; [rewrite map_size_insert_None by exact Hnone; lia|].
    unfold event_audits at 1. simpl. rewrite event_audits_snoc, Hact.
    simpl. rewrite !app_nil_r. reflexivity.
  - exists [ev], [au]. simpl.
    split; [reflexivity|]. split; [reflexivity|]. split; [reflexivity|].
    unfold event_audits at 1. simpl. rewrite event_audits_snoc.
    destruct (decide _) as [_|Hn].
    + rewrite fmap_app. simpl. rewrite Hid, Hat, Ht. reflexivity.
    + exfalso. apply Hn. destruct Hact as [[-> _]|[-> _]]; auto.
Qed.

(** X4. The history only grows: after any sequence of calls the events and
    the audit records stored before are still there, unchanged and in
    front, and as many audit records were written as events were appended
    and accounts opened together. *)
Theorem history_only_grows (cs : list Call) (w : World) :
  exists evs aus,
    events (storage (calls cs w)) = events (storage w) ++ evs
    /\ auditEvents (storage (calls cs w)) = auditEvents (storage w) ++ aus
    /\ (length aus + size (accounts (storage w))
        = length evs + size (accounts (storage (calls cs w))))%nat.
Proof.
  revert w. induction cs as [|c cs IH]; intros w.
  - exists [], []. simpl. rewrite !app_nil_r. auto.
  - simpl. destruct (IH (call c w)) as (evs2 & aus2 & He2 & Ha2 & Hn2).
    destruct (call_grows c w) as (evs1 & aus1 & He1 & Ha1 & Hn1 & _).
    exists (evs1 ++ evs2), (aus1 ++ aus2).
    rewrite He2, Ha2, He1, Ha1, <- !app_assoc, !length_app.
    split; [reflexivity|]. split; [reflexivity|]. lia.
Qed.

(** X5. On a store that started empty, the audit trail mirrors the store:
    the [EVENT_RECORDED] and [EVENT_REVERSED] records name, in order, the
    tenant and the identifier of each stored event, and the trail holds one
    record for each account and each event, and no other. *)
Theorem audit_trail_mirrors_store (cs : list Call) (w0 : World) :
  storage w0 = emptyStorage ->
  let s := storage (calls cs w0) in
  (fun a => (au_tenantId a, au_entityId a)) <$> event_audits s
  = (fun e => (ev_tenantId e, ev_id e)) <$> events s
  /\ length (auditEvents s) = (size (accounts s) + length (events s))%nat.
Proof.
  intros H0.
  apply (calls_keep
           (fun s => (fun a => (au_tenantId a, au_entityId a)) <$> event_audits s
                     = (fun e => (ev_tenantId e, ev_id e)) <$> events s
                     /\ length (auditEvents s)
                        = (size (accounts s) + length (events s))%nat)).
  - intros c w [Hm Hn].
    destruct (call_grows c w) as (evs & aus & He & Ha & Hsize & Hmirror).
    split.
    + rewrite Hmirror, He, fmap_app, Hm. reflexivity.
    + rewrite Ha, He, !length_app. lia.
  - rewrite H0. split; reflexivity.
Qed.

Lemma audit_trail_mirrors_store_witness :
  let s := storage (calls [OpenAccount "tenant-001" open_A;
                           RecordEvent "tenant-001" credit_k1;
                           ReverseEvent "tenant-001" (reverse_e1 "k4")]
                          demo_world) in
  (fun a => (au_tenantId a, au_entityId a)) <$> event_audits s
  = (fun e => (ev_tenantId e, ev_id e)) <$> events s
  /\ length (auditEvents s) = (size (accounts s) + length (events s))%nat.
Proof.
  apply audit_trail_mirrors_store. reflexivity.
Defined.

(** ** Events and their accounts *)

Lemma call_keeps_accounted c w :
  events_accounted (storage w) -> events_accounted (storage (call c w)).
Proof.
  intros Hinv e He.
  assert (Hold : forall e, e ∈ events (storage w) ->
            exists a, getAccount (storage (call c w)) (ev_tenantId e) (ev_accountId e)
                      = Some a /\ acct_currency a = ev_currency e).
  { intros e' He'. destruct (Hinv e' He') as (a & Ha & Hc). exists a.
    split; [|exact Hc]. apply call_keeps_accounts. exact Ha. }
  destruct (call_cases c w)
    as [Hs | [(id & acc & au & _ & Hs & _)
             | (ev & au & Hs & _ & Ht & _ & _ & Hwhat)]].
  - rewrite Hs in He. apply Hold. exact He.
  - rewrite Hs in He. simpl in He. apply Hold. exact He.
  - rewrite Hs in He. simpl in He. apply elem_of_app in He.
    destruct He as [He|He]; [apply Hold; exact He|].
    apply list_elem_of_singleton in He. subst e.
    rewrite Hs. unfold getAccount. simpl. fold (getAccount (storage w)).
    destruct Hwhat as [[_ [_ (a & Ha & Hc)]]|[_ (o & oid & Ho & _ & Hacc & Hcur & _)]].
    + exists a. rewrite Ht. auto.
    + apply find_Some in Ho. destruct Ho as [Hin [Hto _]].
      destruct (Hinv o Hin) as (a & Ha & Hc). exists a.
      rewrite Ht, <- Hto, Hacc, Hcur. auto.
Qed.

(** The keys of two tenants without a colon meet only when the tenants and
    the identifiers are the same. *)
Lemma accountKey_no_colon (t1 t2 a1 a2 : string) :
  no_colon t1 -> no_colon t2 ->
  accountKey t1 a1 = accountKey t2 a2 -> t1 = t2 /\ a1 = a2.
Proof.
  unfold accountKey. revert t2.
  induction t1 as [|c t1 IH]; intros [|d t2] H1 H2 H.
  - change (String ":" a1 = String ":" a2) in H. injection H as ->. auto.
  - change (String ":" a1 = String d (t2 +:+ ":" +:+ a2)) in H.
    injection H as <- _. destruct H2 as [H2 _]. contradiction.
  - change (String c (t1 +:+ ":" +:+ a1) = String ":" a2) in H.
    injection H as -> _. destruct H1 as [H1 _]. contradiction.
  - rewrite !append_cons in H. injection H as -> H.
    destruct H1 as [_ H1], H2 as [_ H2].
    destruct (IH t2 H1 H2 H) as [-> ->]. auto.
Qed.

Lemma call_keeps_keyed c w :
  accounts_keyed (storage w) -> accounts_keyed (storage (call c w)).
Proof.
  intros Hinv k a.
  destruct (call_cases c w)
    as [-> | [(id & acc & au & _ & -> & _ & _ & _ & Ht & Hi) | (ev & au & -> & _)]];
    [apply Hinv| |apply Hinv].
  simpl. destruct (decide (k = accountKey (tenant_of c) id)) as [->|Hne].
  - rewrite lookup_insert_eq. intros [= <-]. rewrite Ht, Hi. reflexivity.
  - rewrite lookup_insert_ne by (intros E; apply Hne; symmetry; exact E).
    apply Hinv.
Qed.

(** X6. On a store that started without events, the lookup under the
    tenant and account identifier of any stored event finds an account, and
    that account has the event's currency: recordings check it, reversals
    inherit it from the event they reverse, and accounts never change.  If
    the store started without accounts too, the account found is stored
    under the key of its own tenant and identifier, which then is the key
    of the event's tenant and account identifier; it is the account of the
    event's tenant, with the event's account identifier, when neither
    tenant identifier holds a colon. *)
Theorem events_keep_account_currency (cs : list Call) (w0 : World) :
  events (storage w0) = [] ->
  forall e, e ∈ events (storage (calls cs w0)) ->
    exists a,
      getAccount (storage (calls cs w0)) (ev_tenantId e) (ev_accountId e) = Some a
      /\ acct_currency a = ev_currency e
      /\ (accounts (storage w0) = ∅ ->
          accountKey (acct_tenantId a) (acct_id a)
          = accountKey (ev_tenantId e) (ev_accountId e)
          /\ (no_colon (ev_tenantId e) -> no_colon (acct_tenantId a) ->
              acct_tenantId a = ev_tenantId e /\ acct_id a = ev_accountId e)).
Proof.
  intros H0 e He.
  assert (Hinv : events_accounted (storage (calls cs w0))).
  { apply (calls_keep events_accounted); [apply call_keeps_accounted|].
    intros e' He'. rewrite H0 in He'. inversion He'. }
  destruct (Hinv e He) as (a & Ha & Hc). exists a.
  split; [exact Ha|]. split; [exact Hc|]. intros Hacc.
  assert (Hkey : accounts_keyed (storage (calls cs w0))).
  { apply (calls_keep accounts_keyed); [apply call_keeps_keyed|].
    intros k x Hk. rewrite Hacc, lookup_empty in Hk. discriminate Hk. }
  assert (Hsame : accountKey (acct_tenantId a) (acct_id a)
                  = accountKey (ev_tenantId e) (ev_accountId e)).
  { symmetry. apply Hkey. exact Ha. }
  split; [exact Hsame|]. intros He1 Ha1.
  apply accountKey_no_colon; assumption.
Qed.

Lemma events_keep_account_currency_witness :
  exists a,
    getAccount (storage (calls [OpenAccount "tenant-001" open_A;
                                RecordEvent "tenant-001" credit_k1]
                               demo_world))
               (ev_tenantId demo_e1) (ev_accountId demo_e1) = Some a
    /\ acct_currency a = ev_currency demo_e1
    /\ acct_tenantId a = ev_tenantId demo_e1
    /\ acct_id a = ev_accountId demo_e1.
Proof.
  destruct (events_keep_account_currency
              [OpenAccount "tenant-001" open_A; RecordEvent "tenant-001" credit_k1]
              demo_world eq_refl demo_e1) as (a & Ha & Hc & Hk).
  - apply (bool_decide_unpack _). vm_compute. reflexivity.
  - exists a. split; [exact Ha|]. split; [exact Hc|].
    destruct (Hk eq_refl) as [_ Hsame].
    assert (Hg : getAccount (storage (calls [OpenAccount "tenant-001" open_A;
                                             RecordEvent "tenant-001" credit_k1]
                                            demo_world))
                            (ev_tenantId demo_e1) (ev_accountId demo_e1)
                 = Some account_A) by (vm_compute; reflexivity).
    rewrite Hg in Ha. injection Ha as <-.
    apply Hsame; apply (bool_decide_unpack _); vm_compute; reflexivity.
Defined.

(** ** Failures *)

Lemma getAccountStatement_missing tid aid f u w :
  getAccount (storage w) tid aid = None ->
  getAccountStatement tid aid f u w
  = (Throw (LedgerError ("Account " +:+ aid +:+ " not found")
                        "ACCOUNT_NOT_FOUND" [("accountId", aid)]), w).
Proof. intros Ha. unfold getAccountStatement. run_monad. rewrite Ha. reflexivity. Qed.

Lemma getAccountStatement_found tid aid f u w a :
  getAccount (storage w) tid aid = Some a ->
  exists stmt, getAccountStatement tid aid f u w = (Ok stmt, w).
Proof.
  intros Ha. unfold getAccountStatement. run_monad. rewrite Ha. eexists. reflexivity.
Qed.

Lemma verifyLedgerIntegrity_missing tid aid w :
  getAccount (storage w) tid aid = None ->
  verifyLedgerIntegrity tid aid w
  = (Throw (LedgerError ("Account " +:+ aid +:+ " not found")
                        "ACCOUNT_NOT_FOUND" [("accountId", aid)]), w).
Proof. intros Ha. unfold verifyLedgerIntegrity. run_monad. rewrite Ha. reflexivity. Qed.

Lemma verifyLedgerIntegrity_found tid aid w a :
  getAccount (storage w) tid aid = Some a ->
  let sorted := sort_by_seq (getEventsByAccountId (storage w) tid aid) in
  let calculated := sum_amounts sorted in
  let expected :=
    parseFloat (toFixed (sum_amounts (getEventsByAccountId (storage w) tid aid)) 8) in
  let errors := (gap_errors 0 sorted ++ tenant_errors tid sorted)
                ++ balance_errors calculated expected in
  verifyLedgerIntegrity tid aid w
  = (Ok (mkReport (bool_decide (length errors = 0%nat)) aid (toFixed expected 8)
                  (toFixed calculated 8) (length sorted) errors), w).
Proof.
  intros Ha. unfold verifyLedgerIntegrity, getAccountBalance. run_monad.
  rewrite Ha. run_monad. rewrite Ha. reflexivity.
Qed.

(** X7. A call that runs on its own, no other call between its [await]s,
    with metadata that [JSON.stringify] accepts, and that throws, leaves
    the store as it was and throws a [LedgerError] with a code of its own
    operation: [ACCOUNT_EXISTS] for [openAccount];
    [ACCOUNT_NOT_FOUND] or [CURRENCY_MISMATCH] for [recordEvent];
    [EVENT_NOT_FOUND] or [ALREADY_REVERSED] for [reverseEvent];
    [ACCOUNT_NOT_FOUND] for the three queries.  In such a call the engine
    has looked the key up before it asks the store to insert, so the
    [Duplicate idempotency key] error of the store is not among them. *)
Theorem failures_change_nothing (c : Call) (w : World) (e : Exn) :
  failure c w = Some e ->
  storage (call c w) = storage w
  /\ exists msg code details,
       e = LedgerError msg code details /\ code ∈ codes_of c.
Proof.
  destruct c as [t p|t p|t p|t a|t a f u|t a]; unfold failure, thrown; simpl.
  - destruct (getAccount (storage w) t
                (default (uuid_oracle w (uuid_drawn w)) (truthy (oa_accountId p))))
      as [a|] eqn:Ha.
    + destruct (openAccount_existing t p w a Ha) as (w' & -> & Hs & _). simpl.
      intros [= <-]. split; [exact Hs|]. eexists _, _, _. split; [reflexivity|].
      left.
    + destruct (openAccount_fresh t p w Ha) as (au & w' & -> & _). discriminate.
  - destruct (getEventByIdempotencyKey (storage w) t (re_idempotencyKey p))
      as [ev|] eqn:Hk.
    { rewrite (recordEvent_replay _ _ _ _ Hk). discriminate. }
    destruct (getAccount (storage w) t (re_accountId p)) as [a|] eqn:Ha.
    2:{ rewrite (recordEvent_no_account _ _ _ Hk Ha). simpl. intros [= <-].
        split; [reflexivity|]. eexists _, _, _. split; [reflexivity|]. left. }
    destruct (decide (acct_currency a = re_currency p)) as [Hc|Hc].
    2:{ rewrite (recordEvent_currency _ _ _ _ Hk Ha Hc). simpl. intros [= <-].
        split; [reflexivity|]. eexists _, _, _. split; [reflexivity|].
        right. left. }
    destruct (recordEvent_fresh _ _ _ _ Hk Ha Hc) as (? & ? & ? & ? & -> & _).
    discriminate.
  - destruct (getEventByIdempotencyKey (storage w) t (rv_idempotencyKey p))
      as [ev|] eqn:Hk.
    { rewrite (reverseEvent_replay _ _ _ _ Hk). discriminate. }
    destruct (getEventById (storage w) t (rv_originalEventId p)) as [o|] eqn:Ho.
    2:{ rewrite (reverseEvent_not_found _ _ _ Hk Ho). simpl. intros [= <-].
        split; [reflexivity|]. eexists _, _, _. split; [reflexivity|]. left. }
    destruct (decide (Exists (fun e => ev_reversesEventId e
                                       = Some (rv_originalEventId p))
                (getEventsByAccountId (storage w) t (ev_accountId o)))) as [Hx|Hx].
    { rewrite (reverseEvent_already _ _ _ _ Hk Ho Hx). simpl. intros [= <-].
      split; [reflexivity|]. eexists _, _, _. split; [reflexivity|].
      right. left. }
    destruct (reverseEvent_fresh _ _ _ _ Hk Ho Hx) as (? & ? & ? & ? & -> & _).
    discriminate.
  - destruct (getAccount (storage w) t a) as [acc|] eqn:Ha.
    + rewrite (getAccountBalance_found _ _ _ _ Ha). discriminate.
    + rewrite (getAccountBalance_missing _ _ _ Ha). simpl. intros [= <-].
      split; [reflexivity|]. eexists _, _, _. split; [reflexivity|]. left.
  - destruct (getAccount (storage w) t a) as [acc|] eqn:Ha.
    + destruct (getAccountStatement_found t a f u w acc Ha) as (stmt & ->).
      discriminate.
    + rewrite (getAccountStatement_missing _ _ _ _ _ Ha). simpl. intros [= <-].
      split; [reflexivity|]. eexists _, _, _. split; [reflexivity|]. left.
  - destruct (getAccount (storage w) t a) as [acc|] eqn:Ha.
    + rewrite (verifyLedgerIntegrity_found _ _ _ _ Ha). discriminate.
    + rewrite (verifyLedgerIntegrity_missing _ _ _ Ha). simpl. intros [= <-].
      split; [reflexivity|]. eexists _, _, _. split; [reflexivity|]. left.
Qed.

Lemma failures_change_nothing_witness :
  storage (call (ReverseEvent "tenant-001" (reverse_e1 "k5")) demo_reversed)
  = storage demo_reversed
  /\ exists msg code details,
       LedgerError "Event e1 has already been reversed" "ALREADY_REVERSED"
                   [("eventId", "e1")]
       = LedgerError msg code details
       /\ code ∈ codes_of (ReverseEvent "tenant-001" (reverse_e1 "k5")).
Proof.
  apply failures_change_nothing. vm_compute. reflexivity.
Defined.

(** ** The integrity check on ledgers in order *)

Lemma sum_amounts_canonical (evs : list LedgerEvent) : canonical (sum_amounts evs).
Proof.
  unfold sum_amounts.
  assert (H : forall b, canonical b ->
            canonical (fold_left (fun balance event =>
                                    fadd balance (parseFloat (ev_amount event)))
                                 evs b)).
  { induction evs as [|e evs IH]; intros b Hb; [exact Hb|].
    simpl. apply IH, fadd_canonical; [exact Hb|apply parseFloat_canonical]. }
  apply H. split; [split; [simpl; lia|left; simpl; lia]|reflexivity].
Qed.

(** The first loop finds nothing exactly when the numbers run from [i + 1]
    on. *)
Lemma gap_errors_none (i : Z) (l : list LedgerEvent) :
  gap_errors i l = []
  <-> ev_sequenceNumber <$> l = seqZ (i + 1) (Z.of_nat (length l)).
Proof.
  revert i. induction l as [|x l IH]; intros i; [split; reflexivity|].
  cbn [gap_errors length fmap list_fmap].
  rewrite seqZ_cons by lia.
  replace (Z.pred (Z.of_nat (S (length l)))) with (Z.of_nat (length l)) by lia.
  replace (Z.succ (i + 1)) with (i + 1 + 1)%Z by lia.
  destruct (decide (ev_sequenceNumber x <> (i + 1)%Z)) as [Hne|He].
  - split; [discriminate|]. intros [= H _]. contradiction.
  - apply dec_stable in He. simpl. rewrite IH. split.
    + intros ->. rewrite He. reflexivity.
    + intros [= _ H]. exact H.
Qed.

Lemma run_sorted (a : Z) (l : list LedgerEvent) :
  ev_sequenceNumber <$> l = seqZ a (Z.of_nat (length l)) ->
  StronglySorted seq_le l.
Proof.
  revert a. induction l as [|x l IH]; intros a H; [constructor|].
  cbn [length fmap list_fmap] in H. rewrite seqZ_cons in H by lia.
  replace (Z.pred (Z.of_nat (S (length l)))) with (Z.of_nat (length l)) in H by lia.
  injection H as Hx Hl. constructor; [apply (IH _ Hl)|].
  rewrite Forall_forall. intros y Hy.
  apply (list_elem_of_fmap_2 ev_sequenceNumber) in Hy. rewrite Hl in Hy.
  apply elem_of_seqZ in Hy. unfold seq_le. lia.
Qed.

Lemma calls_contiguous (cs : list Call) (w0 : World) :
  events (storage w0) = [] -> contiguous (events (storage (calls cs w0))).
Proof.
  intros H0. apply (calls_invariant contiguous); [intros ? ?; reflexivity| |exact H0].
  apply contiguous_append.
Qed.

(** X8. The balance check of [verifyLedgerIntegrity] compares a sum with
    the reading of its own text at 8 fraction digits, and these never
    differ by more than [0.00000001]: for any events, summed in one order,
    the check adds no error.  So for an existing account whose events are
    stored in the order of their sequence numbers, the errors of the report
    are the gap errors and nothing else, and the report is valid exactly
    when the numbers are [1, 2, ..., n]. *)
Theorem verifyLedgerIntegrity_balance_check_passes (tid aid : string) (w : World) :
  (forall evs : list LedgerEvent,
     balance_errors (sum_amounts evs) (parseFloat (toFixed (sum_amounts evs) 8)) = [])
  /\ (forall a,
        getAccount (storage w) tid aid = Some a ->
        let evs := getEventsByAccountId (storage w) tid aid in
        StronglySorted seq_le evs ->
        exists r,
          verifyLedgerIntegrity tid aid w = (Ok r, w)
          /\ ir_errors r = gap_errors 0 evs
          /\ (ir_valid r = true
              <-> ev_sequenceNumber <$> evs = seqZ 1 (Z.of_nat (length evs)))
          /\ ir_calculatedBalance r = toFixed (sum_amounts evs) 8
          /\ ir_eventCount r = length evs).
Proof.
  assert (Hbal : forall evs : list LedgerEvent,
            balance_errors (sum_amounts evs)
                           (parseFloat (toFixed (sum_amounts evs) 8)) = []).
  { intros evs. unfold balance_errors.
    rewrite toFixed_within_tolerance by apply sum_amounts_canonical. reflexivity. }
  split; [exact Hbal|].
  intros a Ha evs Hsorted. eexists. split; [apply (verifyLedgerIntegrity_found _ _ _ _ Ha)|].
  fold evs. rewrite (sort_by_seq_sorted_id evs Hsorted).
  assert (Hten : tenant_errors tid evs = []).
  { apply tenant_errors_nil. rewrite <- (sort_by_seq_sorted_id evs Hsorted).
    apply sorted_account_tenant. }
  cbn [ir_errors ir_valid ir_calculatedBalance ir_eventCount].
  rewrite Hten, Hbal, !app_nil_r.
  split; [reflexivity|]. split; [|split; reflexivity].
  rewrite bool_decide_eq_true, <- (gap_errors_none 0 evs).
  destruct (gap_errors 0 evs); simpl; split; congruence.
Qed.

Lemma verifyLedgerIntegrity_balance_check_passes_witness :
  exists r,
    verifyLedgerIntegrity "tenant-001" "A" gap_world = (Ok r, gap_world)
    /\ ir_errors r
       = gap_errors 0 (getEventsByAccountId (storage gap_world) "tenant-001" "A").
Proof.
  destruct (proj2 (verifyLedgerIntegrity_balance_check_passes "tenant-001" "A"
                     gap_world)
              (mkAccount "A" "tenant-001" "CASH" "USD" None (ValidDate 0))
              ltac:(vm_compute; reflexivity))
    as (r & Hr & He & _).
  - apply (bool_decide_unpack _). vm_compute. reflexivity.
  - exists r. split; [exact Hr|exact He].
Defined.

Lemma calls_account_sorted (cs : list Call) (w0 : World) (tid aid : string) :
  events (storage w0) = [] ->
  let evs := getEventsByAccountId (storage (calls cs w0)) tid aid in
  ev_sequenceNumber <$> evs = seqZ 1 (Z.of_nat (length evs))
  /\ sort_by_seq evs = evs.
Proof.
  intros H0 evs. pose proof (calls_contiguous cs w0 H0 tid aid) as Hc.
  change (filter (of_account tid aid) (events (storage (calls cs w0)))) with evs in Hc.
  split; [exact Hc|]. apply sort_by_seq_sorted_id, (run_sorted 1), Hc.
Qed.

(** X9. A ledger that the engine has built passes its own check: after any
    sequence of calls on a store that started without events,
    [verifyLedgerIntegrity] of an existing account returns a valid report
    without errors, which counts the events of the account and carries the
    balance that [getAccountBalance] returns as the calculated one. *)
Theorem verifyLedgerIntegrity_valid_after_calls (cs : list Call) (w0 : World)
    (tid aid : string) (a : LedgerAccount) :
  events (storage w0) = [] ->
  let w := calls cs w0 in
  getAccount (storage w) tid aid = Some a ->
  exists r bal,
    verifyLedgerIntegrity tid aid w = (Ok r, w)
    /\ getAccountBalance tid aid w = (Ok bal, w)
    /\ ir_valid r = true
    /\ ir_errors r = []
    /\ ir_accountId r = aid
    /\ ir_eventCount r = bal_eventCount bal
    /\ ir_calculatedBalance r = bal_balance bal.
Proof.
  intros H0 w Ha.
  destruct (calls_account_sorted cs w0 tid aid H0) as [Hrun Hsort]. fold w in Hrun, Hsort.
  eexists _, _. split; [apply (verifyLedgerIntegrity_found _ _ _ _ Ha)|].
  split; [apply (getAccountBalance_found _ _ _ _ Ha)|].
  rewrite Hsort.
  set (evs := getEventsByAccountId (storage w) tid aid) in *.
  assert (Hgap : gap_errors 0 evs = []) by (apply gap_errors_none; exact Hrun).
  assert (Hten : tenant_errors tid evs = []).
  { apply tenant_errors_nil. rewrite <- Hsort. apply sorted_account_tenant. }
  assert (Hbal : balance_errors (sum_amounts evs)
                   (parseFloat (toFixed (sum_amounts evs) 8)) = []).
  { unfold balance_errors.
    rewrite toFixed_within_tolerance by apply sum_amounts_canonical. reflexivity. }
  cbn [ir_errors ir_valid ir_calculatedBalance ir_eventCount ir_accountId
       bal_eventCount bal_balance].
  rewrite Hgap, Hten, Hbal. simpl. auto 10.
Qed.

Lemma verifyLedgerIntegrity_valid_after_calls_witness :
  exists r bal,
    let w := calls [OpenAccount "tenant-001" open_A;
                    RecordEvent "tenant-001" credit_k1;
                    RecordEvent "tenant-001" debit_k2;
                    ReverseEvent "tenant-001" (reverse_e1 "k4")] demo_world in
    verifyLedgerIntegrity "tenant-001" "A" w = (Ok r, w)
    /\ getAccountBalance "tenant-001" "A" w = (Ok bal, w)
    /\ ir_valid r = true
    /\ ir_errors r = []
    /\ ir_accountId r = "A"
    /\ ir_eventCount r = bal_eventCount bal
    /\ ir_calculatedBalance r = bal_balance bal.
Proof.
  apply (verifyLedgerIntegrity_valid_after_calls _ demo_world "tenant-001" "A"
           account_A eq_refl).
  vm_compute. reflexivity.
Defined.

(** ** Statements and balances *)

Lemma statement_entries_ids b l :
  se_eventId <$> statement_entries b l = ev_id <$> l.
Proof.
  revert b. induction l as [|x l IH]; intros b; [reflexivity|].
  simpl. f_equal. apply IH.
Qed.

Lemma getAccountStatement_all tid aid w a :
  getAccount (storage w) tid aid = Some a ->
  let entries :=
    statement_entries (Num 0) (sort_by_seq (getEventsByAccountId (storage w) tid aid)) in
  getAccountStatement tid aid None None w
  = (Ok (mkStatement aid (acct_currency a) entries
           match entries with
           | first :: _ =>
               toFixed (fsub (parseFloat (se_runningBalance first))
                             (parseFloat (se_amount first))) 8
           | [] => "0.00000000"
           end
           match last entries with
           | Some final => se_runningBalance final
           | None => "0.00000000"
           end), w).
Proof. intros Ha. unfold getAccountStatement. run_monad. rewrite Ha. reflexivity. Qed.

(** X10. After any sequence of calls on a store that started without
    events, the statement of an existing account taken without a date
    window lists the events of the account in the order of their creation,
    one entry for each event that [getAccountBalance] counts, and closes at
    the balance that [getAccountBalance] returns, in the same currency. *)
Theorem statement_closes_at_balance (cs : list Call) (w0 : World)
    (tid aid : string) (a : LedgerAccount) :
  events (storage w0) = [] ->
  let w := calls cs w0 in
  getAccount (storage w) tid aid = Some a ->
  exists stmt bal,
    getAccountStatement tid aid None None w = (Ok stmt, w)
    /\ getAccountBalance tid aid w = (Ok bal, w)
    /\ se_eventId <$> st_entries stmt
       = ev_id <$> getEventsByAccountId (storage w) tid aid
    /\ length (st_entries stmt) = bal_eventCount bal
    /\ st_closingBalance stmt = bal_balance bal
    /\ st_currency stmt = bal_currency bal.
Proof.
  intros H0 w Ha.
  destruct (calls_account_sorted cs w0 tid aid H0) as [_ Hsort]. fold w in Hsort.
  eexists _, _. split; [apply (getAccountStatement_all _ _ _ _ Ha)|].
  split; [apply (getAccountBalance_found _ _ _ _ Ha)|].
  rewrite Hsort. set (evs := getEventsByAccountId (storage w) tid aid).
  cbn [st_entries st_closingBalance st_currency bal_eventCount bal_balance
       bal_currency].
  split; [apply statement_entries_ids|].
  split; [apply statement_entries_length|]. split; [|reflexivity].
  pose proof (statement_entries_last (Num 0) evs) as Hlast.
  destruct (last (statement_entries (Num 0) evs)) as [final|];
    destruct evs as [|e evs']; simpl in Hlast; try discriminate.
  - injection Hlast as ->. reflexivity.
  - vm_compute. reflexivity.
Qed.

Lemma statement_closes_at_balance_witness :
  exists stmt bal,
    let w := calls [OpenAccount "tenant-001" open_A;
                    RecordEvent "tenant-001" credit_k1;
                    RecordEvent "tenant-001" debit_k2] demo_world in
    getAccountStatement "tenant-001" "A" None None w = (Ok stmt, w)
    /\ getAccountBalance "tenant-001" "A" w = (Ok bal, w)
    /\ se_eventId <$> st_entries stmt
       = ev_id <$> getEventsByAccountId (storage w) "tenant-001" "A"
    /\ length (st_entries stmt) = bal_eventCount bal
    /\ st_closingBalance stmt = bal_balance bal
    /\ st_currency stmt = bal_currency bal.
Proof.
  apply (statement_closes_at_balance _ demo_world "tenant-001" "A" account_A eq_refl).
  vm_compute. reflexivity.
Defined.

(** ** Date windows *)

Lemma in_window_invalid_from u e :
  in_window (Some InvalidDate) u e = in_window None u e.
Proof. unfold in_window, date_lt. destruct (ev_createdAt e); reflexivity. Qed.

Lemma in_window_invalid_to f e :
  in_window f (Some InvalidDate) e = in_window f None e.
Proof. reflexivity. Qed.

(** X11. The bounds of a statement's date window are compared as time
    values.  A bound that is an invalid date excludes nothing: the statement
    is the one taken without that bound.  A window whose upper bound lies
    before its lower bound keeps none of the events that carry a valid
    date, so that the statement of an existing account has no entries and
    opens and closes at [0.00000000]. *)
Theorem getAccountStatement_window_edges (tid aid : string) (w : World) :
  (forall u, getAccountStatement tid aid (Some InvalidDate) u w
             = getAccountStatement tid aid None u w)
  /\ (forall f, getAccountStatement tid aid f (Some InvalidDate) w
                = getAccountStatement tid aid f None w)
  /\ (forall a lo hi,
        getAccount (storage w) tid aid = Some a ->
        (hi < lo)%Z ->
        Forall (fun e => ev_createdAt e <> InvalidDate)
               (getEventsByAccountId (storage w) tid aid) ->
        getAccountStatement tid aid (Some (ValidDate lo)) (Some (ValidDate hi)) w
        = (Ok (mkStatement aid (acct_currency a) [] "0.00000000" "0.00000000"), w)).
Proof.
  split; [|split].
  - intros u. unfold getAccountStatement. run_monad.
    destruct (getAccount (storage w) tid aid); [|reflexivity].
    rewrite (filter_ext _ _ (in_window_invalid_from u)).
    destruct u as [d|]; [reflexivity|]. simpl. rewrite filter_no_window. reflexivity.
  - intros f. unfold getAccountStatement. run_monad.
    destruct (getAccount (storage w) tid aid); [|reflexivity].
    rewrite (filter_ext _ _ (in_window_invalid_to f)).
    destruct f as [d|]; [reflexivity|]. simpl. rewrite filter_no_window. reflexivity.
  - intros a lo hi Ha Hlt Hvalid. unfold getAccountStatement. run_monad.
    rewrite Ha.
    assert (Hnone : List.filter (in_window (Some (ValidDate lo)) (Some (ValidDate hi)))
                      (sort_by_seq (getEventsByAccountId (storage w) tid aid)) = []).
    { assert (Hv : Forall (fun e => ev_createdAt e <> InvalidDate)
                     (sort_by_seq (getEventsByAccountId (storage w) tid aid))).
      { rewrite Forall_forall in *. intros e He. apply Hvalid.
        rewrite <- sort_by_seq_perm. exact He. }
      induction Hv as [|x l Hx _ IH]; [reflexivity|]. simpl. rewrite IH.
      unfold in_window, date_gt, date_lt.
      destruct (ev_createdAt x) as [ms|]; [|contradiction].
      destruct (Z.ltb_spec ms lo); [reflexivity|].
      destruct (Z.ltb_spec hi ms); [reflexivity|lia]. }
    rewrite Hnone. reflexivity.
Qed.

Lemma getAccountStatement_window_edges_witness :
  getAccountStatement "tenant-001" "A" (Some (ValidDate 1700000000005))
                      (Some (ValidDate 1700000000000)) demo_two_events
  = (Ok (mkStatement "A" "USD" [] "0.00000000" "0.00000000"), demo_two_events).
Proof.
  apply (proj2 (proj2 (getAccountStatement_window_edges "tenant-001" "A"
                         demo_two_events))
           account_A).
  - vm_compute. reflexivity.
  - reflexivity.
  - apply (bool_decide_unpack _). vm_compute. reflexivity.
Defined.

(** ** Tenants whose keys cannot meet *)

Lemma call_other_tenant_filter c w (tid : string) (P : LedgerEvent -> Prop)
    `{!forall e, Decision (P e)} :
  tenant_of c <> tid -> (forall e, P e -> ev_tenantId e = tid) ->
  filter P (events (storage (call c w))) = filter P (events (storage w))
  /\ find P (events (storage (call c w))) = find P (events (storage w)).
Proof.
  intros Hne HP. destruct (call_events_tenant c w) as [-> | (ev & -> & Hev)]; [auto|].
  assert (Hn : ~ P ev) by (intros Hp; apply HP in Hp; congruence).
  split.
  - rewrite filter_app, filter_singleton by exact [].
    destruct (decide (P ev)); [contradiction|apply app_nil_r].
  - rewrite find_app, find_cons. destruct (decide (P ev)); [contradiction|].
    destruct (find P (events (storage w))); reflexivity.
Qed.

(** X12. Between tenants whose identifiers hold no colon the store keeps
    everything apart: a call made by the engine of one tenant changes
    nothing that the engine of another tenant can read.  The accounts and
    the events found under the other tenant are the same before and after,
    and so are the results of its three queries, for every account
    identifier. *)
Theorem tenants_without_colon_are_isolated (c : Call) (w : World) (tid : string) :
  no_colon (tenant_of c) -> no_colon tid -> tenant_of c <> tid ->
  forall aid,
    getAccount (storage (call c w)) tid aid = getAccount (storage w) tid aid
    /\ getEventsByAccountId (storage (call c w)) tid aid
       = getEventsByAccountId (storage w) tid aid
    /\ (forall key, getEventByIdempotencyKey (storage (call c w)) tid key
                    = getEventByIdempotencyKey (storage w) tid key)
    /\ (forall id, getEventById (storage (call c w)) tid id
                   = getEventById (storage w) tid id)
    /\ fst (getAccountBalance tid aid (call c w)) = fst (getAccountBalance tid aid w)
    /\ (forall f u, fst (getAccountStatement tid aid f u (call c w))
                    = fst (getAccountStatement tid aid f u w))
    /\ fst (verifyLedgerIntegrity tid aid (call c w))
       = fst (verifyLedgerIntegrity tid aid w).
Proof.
  intros Hc Ht Hne aid.
  assert (Hacc : getAccount (storage (call c w)) tid aid
                 = getAccount (storage w) tid aid).
  { apply other_tenant_account. intros id Hk.
    apply (accountKey_no_colon _ _ _ _ Hc Ht) in Hk. tauto. }
  assert (Hevs : getEventsByAccountId (storage (call c w)) tid aid
                 = getEventsByAccountId (storage w) tid aid).
  { apply (call_other_tenant_filter c w tid); [exact Hne|tauto]. }
  split; [exact Hacc|]. split; [exact Hevs|].
  split; [intros key; apply (call_other_tenant_filter c w tid); [exact Hne|tauto]|].
  split; [intros id; apply (call_other_tenant_filter c w tid); [exact Hne|tauto]|].
  split; [|split].
  - unfold getAccountBalance. run_monad. rewrite Hacc, Hevs.
    destruct (getAccount (storage w) tid aid); reflexivity.
  - intros f u. unfold getAccountStatement. run_monad. rewrite Hacc, Hevs.
    destruct (getAccount (storage w) tid aid); reflexivity.
  - unfold verifyLedgerIntegrity, getAccountBalance. run_monad. rewrite Hacc, Hevs.
    destruct (getAccount (storage w) tid aid) eqn:E; [|reflexivity].
    run_monad. rewrite Hacc, Hevs, E. reflexivity.
Qed.

Lemma tenants_without_colon_are_isolated_witness :
  let c := RecordEvent "tenant-001" debit_k2 in
  getAccount (storage (call c demo_credited)) "tenant-002" "A"
  = getAccount (storage demo_credited) "tenant-002" "A"
  /\ getEventsByAccountId (storage (call c demo_credited)) "tenant-002" "A"
     = getEventsByAccountId (storage demo_credited) "tenant-002" "A".
Proof.
  intros c.
  destruct (tenants_without_colon_are_isolated c demo_credited "tenant-002")
    with (aid := "A") as (Ha & He & _).
  - apply (bool_decide_unpack _). vm_compute. reflexivity.
  - apply (bool_decide_unpack _). vm_compute. reflexivity.
  - apply (bool_decide_unpack _). vm_compute. reflexivity.
  - split; [exact Ha|exact He].
Defined.

(** ** The store on its own *)

Lemma keys_unique_snoc s ev :
  keys_unique s ->
  getEventByIdempotencyKey s (ev_tenantId ev) (ev_idempotencyKey ev) = None ->
  NoDup ((fun e => (ev_tenantId e, ev_idempotencyKey e)) <$> (events s ++ [ev])).
Proof.
  intros Hu Hk. rewrite fmap_app. apply NoDup_app. split; [exact Hu|].
  split; [|apply NoDup_singleton].
  intros k Hin Hk'. apply list_elem_of_singleton in Hk'. subst k.
  apply list_elem_of_fmap in Hin. destruct Hin as (e & He & Hin).
  apply find_None in Hk. rewrite Forall_forall in Hk.
  apply (Hk e Hin). inversion He. auto.
Qed.

(** X13. [createEvent] of the store refuses an event whose tenant already
    has its idempotency key: it throws the plain error
    [Duplicate idempotency key: <key>] and leaves the world as it was.
    Otherwise it appends the event, dated by the clock, after the events
    stored before, and touches nothing else.  Either way idempotency keys
    that were unique within each tenant stay unique, and the key of the
    event resolves to a stored event afterwards. *)
Theorem createEvent_guards_keys (id tid aid ty amount cur key : string)
    (rev desc meta : option string) (seq : Z) (w : World) :
  let event := mkEvent id tid aid ty amount cur key rev desc meta seq in
  (forall e0, getEventByIdempotencyKey (storage w) tid key = Some e0 ->
     createEvent event w = (Throw (Error ("Duplicate idempotency key: " +:+ key)), w))
  /\ (getEventByIdempotencyKey (storage w) tid key = None ->
      let created := event (ValidDate (clock_oracle w (clock_drawn w))) in
      exists w',
        createEvent event w = (Ok created, w')
        /\ storage w' = mkStorage (accounts (storage w))
                                  (events (storage w) ++ [created])
                                  (auditEvents (storage w))
        /\ clock_drawn w' = S (clock_drawn w))
  /\ (keys_unique (storage w) -> keys_unique (storage (snd (createEvent event w))))
  /\ is_Some (getEventByIdempotencyKey (storage (snd (createEvent event w))) tid key).
Proof.
  intros event.
  assert (Hdup : forall e0, getEventByIdempotencyKey (storage w) tid key = Some e0 ->
            createEvent event w
            = (Throw (Error ("Duplicate idempotency key: " +:+ key)), w)).
  { intros e0 Hk. unfold createEvent. run_monad. rewrite Hk. reflexivity. }
  assert (Hnew : getEventByIdempotencyKey (storage w) tid key = None ->
            createEvent event w
            = (Ok (event (ValidDate (clock_oracle w (clock_drawn w)))),
               mkWorld (mkStorage (accounts (storage w))
                          (events (storage w)
                           ++ [event (ValidDate (clock_oracle w (clock_drawn w)))])
                          (auditEvents (storage w)))
                       (uuid_oracle w) (uuid_drawn w) (clock_oracle w)
                       (S (clock_drawn w)))).
  { intros Hk. unfold createEvent. run_monad. rewrite Hk. reflexivity. }
  split; [exact Hdup|]. split; [intros Hk; eexists; rewrite (Hnew Hk); auto|].
  destruct (getEventByIdempotencyKey (storage w) tid key) as [e0|] eqn:Hk.
  - rewrite (Hdup e0 eq_refl). simpl. rewrite Hk. split; [auto|eauto].
  - rewrite (Hnew eq_refl). simpl. split.
    + intros Hu. unfold keys_unique. simpl.
      apply (keys_unique_snoc (storage w)); [exact Hu|exact Hk].
    + unfold getEventByIdempotencyKey. simpl. rewrite find_app.
      fold (getEventByIdempotencyKey (storage w) tid key). rewrite Hk, find_cons.
      destruct (decide _) as [|Hn]; [eauto|]. exfalso. apply Hn. auto.
Qed.

Lemma createEvent_guards_keys_witness :
  createEvent (mkEvent "e9" "tenant-001" "A" "CREDIT" "1" "USD" "k1" None None None 7)
              demo_credited
  = (Throw (Error "Duplicate idempotency key: k1"), demo_credited).
Proof.
  apply (proj1 (createEvent_guards_keys "e9" "tenant-001" "A" "CREDIT" "1" "USD" "k1"
                  None None None 7 demo_credited)
           demo_e1).
  vm_compute. reflexivity.
Defined.

(** X14. [createAccount] of the store checks nothing: it stores the
    account, dated by the clock, under the key of its tenant and
    identifier, replacing whatever the key held, and [getAccount] returns
    it from then on; every other key, the events and the audit trail are
    left alone.  (The check for an existing account is [openAccount]'s.) *)
Theorem createAccount_then_getAccount (id tid ty cur : string)
    (meta : option string) (w : World) :
  let created := mkAccount id tid ty cur meta
                           (ValidDate (clock_oracle w (clock_drawn w))) in
  exists w',
    createAccount (mkAccount id tid ty cur meta) w = (Ok created, w')
    /\ getAccount (storage w') tid id = Some created
    /\ (forall t a, accountKey t a <> accountKey tid id ->
          getAccount (storage w') t a = getAccount (storage w) t a)
    /\ events (storage w') = events (storage w)
    /\ auditEvents (storage w') = auditEvents (storage w).
Proof.
  intros created. unfold createAccount. run_monad. eexists.
  split; [reflexivity|]. unfold getAccount. simpl.
  split; [apply lookup_insert_eq|].
  split; [intros t a Hne; apply lookup_insert_ne; intros E; apply Hne; symmetry;
          exact E|].
  split; reflexivity.
Qed.

Lemma createAccount_then_getAccount_witness :
  exists w',
    createAccount (mkAccount "A" "tenant-001" "BANK" "EUR" None) demo_opened
    = (Ok (mkAccount "A" "tenant-001" "BANK" "EUR" None (ValidDate 1700000000002)),
       w')
    /\ getAccount (storage w') "tenant-001" "A"
       = Some (mkAccount "A" "tenant-001" "BANK" "EUR" None
                         (ValidDate 1700000000002))
    /\ getAccount (storage demo_opened) "tenant-001" "A" = Some account_A.
Proof.
  destruct (createAccount_then_getAccount "A" "tenant-001" "BANK" "EUR" None
              demo_opened) as (w' & Hr & Hg & _).
  exists w'. split; [exact Hr|]. split; [exact Hg|]. vm_compute. reflexivity.
Defined.

(** X15. On an account whose sequence numbers are safe integers,
    [getNextSequenceNumber] is [1] when the account has no events, and
    otherwise the double sum of the greatest of these numbers and 1, which
    is exact: one more than the greatest number, hence greater than every
    number in use.  Beyond the safe integers this ends: at [2^53] the
    double sum is [2^53] again. *)
Theorem getNextSequenceNumber_follows_greatest (s : InMemoryStorage)
    (tid aid : string) :
  let evs := getEventsByAccountId s tid aid in
  let next := getNextSequenceNumber s tid aid in
  safe_sequence evs ->
  (evs = [] -> next = 1%Z)
  /\ (forall e, e ∈ evs -> (ev_sequenceNumber e < next)%Z)
  /\ (evs <> [] ->
      exists m, m ∈ evs
        /\ (forall e, e ∈ evs -> (ev_sequenceNumber e <= ev_sequenceNumber m)%Z)
        /\ next = (ev_sequenceNumber m + 1)%Z
        /\ fadd (of_Z (ev_sequenceNumber m)) (of_Z 1) = Num (next * ONE)%Z)
  /\ fadd (of_Z (2 ^ 53)) (of_Z 1) = of_Z (2 ^ 53).
Proof.
  intros evs next Hsafe. split; [|split; [|split]].
  - intros He. unfold next, getNextSequenceNumber.
    fold (getEventsByAccountId s tid aid). fold evs. rewrite He. reflexivity.
  - intros e He. apply next_sequence_fresh. exact He.
  - intros Hne. apply next_sequence_double; assumption.
  - apply succ_unsafe_integer.
Qed.

Lemma getNextSequenceNumber_follows_greatest_witness :
  getNextSequenceNumber (storage demo_world) "tenant-001" "A" = 1%Z
  /\ exists m, m ∈ getEventsByAccountId gap_storage "tenant-001" "A"
       /\ getNextSequenceNumber gap_storage "tenant-001" "A"
          = (ev_sequenceNumber m + 1)%Z
       /\ fadd (of_Z (ev_sequenceNumber m)) (of_Z 1)
          = Num (getNextSequenceNumber gap_storage "tenant-001" "A" * ONE)%Z.
Proof.
  split.
  - apply (getNextSequenceNumber_follows_greatest (storage demo_world)
             "tenant-001" "A").
    + apply (bool_decide_unpack _). vm_compute. reflexivity.
    + reflexivity.
  - destruct (getNextSequenceNumber_follows_greatest gap_storage
                "tenant-001" "A") as (_ & _ & Hnext & _).
    + apply (bool_decide_unpack _). vm_compute. reflexivity.
    + destruct Hnext as (m & Hm & _ & Hn & Hsum).
      * vm_compute. discriminate.
      * exists m. split; [exact Hm|]. split; [exact Hn|exact Hsum].
Defined.

(** ** Amounts that are not numbers *)

Lemma sum_amounts_app (l1 l2 : list LedgerEvent) :
  sum_amounts (l1 ++ l2)
  = fold_left (fun balance event => fadd balance (parseFloat (ev_amount event)))
              l2 (sum_amounts l1).
Proof. unfold sum_amounts. apply fold_left_app. Qed.

Lemma fold_fadd_NaN (l : list LedgerEvent) :
  fold_left (fun balance event => fadd balance (parseFloat (ev_amount event))) l NaN
  = NaN.
Proof. induction l as [|x l IH]; [reflexivity|exact IH]. Qed.

Lemma fadd_NaN_r (x : F64) : fadd x NaN = NaN.
Proof. destruct x as [| | |]; reflexivity. Qed.

(** X16. The engine never checks that an amount is a number.  If the text
    of any one event of an account does not start with a decimal literal,
    so that [parseFloat] reads it as [NaN], the balance of the account is
    the text [NaN], whatever the other amounts are. *)
Theorem unreadable_amount_makes_balance_NaN (tid aid : string) (w : World)
    (a : LedgerAccount) (e : LedgerEvent) :
  getAccount (storage w) tid aid = Some a ->
  e ∈ getEventsByAccountId (storage w) tid aid ->
  parseFloat (ev_amount e) = NaN ->
  getAccountBalance tid aid w
  = (Ok (mkBalance aid "NaN" (acct_currency a)
           (length (getEventsByAccountId (storage w) tid aid))), w).
Proof.
  intros Ha He Hnan. rewrite (getAccountBalance_found _ _ _ _ Ha).
  apply list_elem_of_split in He. destruct He as (l1 & l2 & Hl).
  rewrite Hl at 1. rewrite sum_amounts_app. simpl. rewrite Hnan, fadd_NaN_r.
  rewrite fold_fadd_NaN. reflexivity.
Qed.

Lemma unreadable_amount_makes_balance_NaN_witness :
  let p := mkRecordEventParams (Some "e2") "A" "CREDIT" "ten" "USD" "k2" None None in
  let w := calls [RecordEvent "tenant-001" p] demo_credited in
  getAccountBalance "tenant-001" "A" w
  = (Ok (mkBalance "A" "NaN" (acct_currency account_A)
           (length (getEventsByAccountId (storage w) "tenant-001" "A"))), w).
Proof.
  intros p w.
  apply (unreadable_amount_makes_balance_NaN "tenant-001" "A" w account_A
           (mkEvent "e2" "tenant-001" "A" "CREDIT" "ten" "USD" "k2" None None None 2
                    (ValidDate 1700000000004))).
  - vm_compute. reflexivity.
  - apply (bool_decide_unpack _). vm_compute. reflexivity.
  - vm_compute. reflexivity.
Defined.

(** ** Recording and the balance *)

(** X17. A recording that passes the checks moves the balance of its
    account by its amount, in double precision: afterwards
    [getAccountBalance] returns the former sum plus the amount read by
    [parseFloat], at 8 fraction digits, and counts one event more.  The
    events of every other account, of this and of any other tenant, are
    what they were. *)
Theorem recordEvent_moves_balance (tid : string) (p : RecordEventParams) (w : World)
    (a : LedgerAccount) :
  getEventByIdempotencyKey (storage w) tid (re_idempotencyKey p) = None ->
  getAccount (storage w) tid (re_accountId p) = Some a ->
  acct_currency a = re_currency p ->
  let old := getEventsByAccountId (storage w) tid (re_accountId p) in
  exists ev w',
    recordEvent tid p w = (Ok ev, w')
    /\ getAccountBalance tid (re_accountId p) w'
       = (Ok (mkBalance (re_accountId p)
                (toFixed (fadd (sum_amounts old) (parseFloat (re_amount p))) 8)
                (acct_currency a) (S (length old))), w')
    /\ (forall tid' aid', ~ (tid' = tid /\ aid' = re_accountId p) ->
          getEventsByAccountId (storage w') tid' aid'
          = getEventsByAccountId (storage w) tid' aid').
Proof.
  intros Hk Ha Hc old.
  destruct (recordEvent_fresh _ _ _ _ Hk Ha Hc)
    as (eid & now & au & w' & Hr & Hs & _).
  eexists _, w'. split; [exact Hr|].
  assert (Hevs : forall tid' aid',
            getEventsByAccountId (storage w') tid' aid'
            = getEventsByAccountId (storage w) tid' aid'
              ++ (if decide (tid = tid' /\ re_accountId p = aid')
                  then [mkEvent eid tid (re_accountId p) (re_eventType p) (re_amount p)
                          (re_currency p) (re_idempotencyKey p) None
                          (truthy (re_description p)) (re_metadata p)
                          (getNextSequenceNumber (storage w) tid (re_accountId p)) now]
                  else [])).
  { intros tid' aid'. rewrite Hs. unfold getEventsByAccountId. simpl.
    rewrite filter_app, filter_singleton by exact []. simpl. reflexivity. }
  split.
  - rewrite (getAccountBalance_found tid (re_accountId p) w' a)
      by (unfold getAccount; rewrite Hs; exact Ha).
    rewrite Hevs. destruct (decide _) as [_|Hn]; [|exfalso; apply Hn; auto].
    fold old. rewrite sum_amounts_app, length_app. simpl.
    rewrite Nat.add_1_r. reflexivity.
  - intros tid' aid' Hne. rewrite Hevs.
    destruct (decide _) as [[<- <-]|_]; [exfalso; apply Hne; auto|apply app_nil_r].
Qed.

Lemma recordEvent_moves_balance_witness :
  exists ev w',
    recordEvent "tenant-001" debit_k2 demo_credited = (Ok ev, w')
    /\ getAccountBalance "tenant-001" "A" w'
       = (Ok (mkBalance "A" "70.00000000" "USD" 2), w').
Proof.
  destruct (recordEvent_moves_balance "tenant-001" debit_k2 demo_credited account_A
              ltac:(vm_compute; reflexivity) ltac:(vm_compute; reflexivity) eq_refl)
    as (ev & w' & Hr & Hb & _).
  exists ev, w'. split; [exact Hr|].
  cbn [re_accountId re_amount debit_k2 acct_currency account_A] in Hb.
  assert (H1 : toFixed (fadd (sum_amounts (getEventsByAccountId (storage demo_credited)
                                            "tenant-001" "A"))
                             (parseFloat "-30.00")) 8 = "70.00000000")
    by (vm_compute; reflexivity).
  assert (H2 : length (getEventsByAccountId (storage demo_credited) "tenant-001" "A")
               = 1%nat)
    by (vm_compute; reflexivity).
  rewrite H1, H2 in Hb. exact Hb.
Defined.

(** ** Event identifiers *)

(** X18. The engine never checks that an event identifier is new.  A
    recording under a fresh idempotency key that supplies the identifier of
    a stored event of the tenant succeeds and appends a second event with
    that identifier; [getEventById] keeps resolving the identifier to the
    older event, so a reversal that names the identifier can only ever
    reach the older one. *)
Theorem event_ids_are_not_checked (tid : string) (p : RecordEventParams) (w : World)
    (a : LedgerAccount) (o : LedgerEvent) :
  getEventByIdempotencyKey (storage w) tid (re_idempotencyKey p) = None ->
  getAccount (storage w) tid (re_accountId p) = Some a ->
  acct_currency a = re_currency p ->
  truthy (re_eventId p) = Some (ev_id o) ->
  getEventById (storage w) tid (ev_id o) = Some o ->
  exists ev w',
    recordEvent tid p w = (Ok ev, w')
    /\ ev_id ev = ev_id o /\ ev_tenantId ev = ev_tenantId o /\ ev <> o
    /\ o ∈ events (storage w') /\ ev ∈ events (storage w')
    /\ getEventById (storage w') tid (ev_id o) = Some o.
Proof.
  intros Hk Ha Hc Hid Ho.
  destruct (recordEvent_fresh _ _ _ _ Hk Ha Hc)
    as (eid & now & au & w' & Hr & Hs & _ & _ & _ & Heid).
  rewrite Hid in Heid. simpl in Heid. subst eid.
  pose proof (find_Some _ _ _ Ho) as [Hin [Hto _]].
  eexists _, w'. split; [exact Hr|]. simpl.
  split; [reflexivity|]. split; [congruence|]. split.
  { intros E. apply find_None in Hk. rewrite Forall_forall in Hk.
    apply (Hk o Hin). rewrite <- E. auto. }
  rewrite Hs. simpl. split; [apply elem_of_app; left; exact Hin|].
  split; [apply elem_of_app; right; left|].
  unfold getEventById in *. simpl. rewrite find_app, Ho. reflexivity.
Qed.

Lemma event_ids_are_not_checked_witness :
  exists ev w',
    recordEvent "tenant-001"
      (mkRecordEventParams (Some "e1") "A" "DEBIT" "-5" "USD" "k7" None None)
      demo_credited
    = (Ok ev, w')
    /\ ev_id ev = "e1" /\ ev <> demo_e1
    /\ getEventById (storage w') "tenant-001" "e1" = Some demo_e1.
Proof.
  destruct (event_ids_are_not_checked "tenant-001"
              (mkRecordEventParams (Some "e1") "A" "DEBIT" "-5" "USD" "k7" None None)
              demo_credited account_A demo_e1
              ltac:(vm_compute; reflexivity) ltac:(vm_compute; reflexivity)
              eq_refl eq_refl ltac:(vm_compute; reflexivity))
    as (ev & w' & Hr & Hi & _ & Hne & _ & _ & Hg).
  exists ev, w'. auto.
Defined.

(** ** Reversals in the ledger *)

Lemma reversals_mirror_call c w :
  reversals_mirror (events (storage w)) ->
  reversals_mirror (events (storage (call c w))).
Proof.
  intros Hinv.
  destruct (call_cases c w)
    as [-> | [(id & acc & au & _ & -> & _)
             | (ev & au & -> & _ & Ht & _ & _ & Hwhat)]];
    [exact Hinv|exact Hinv|].
  simpl. intros r oid Hin Hr. apply elem_of_app in Hin. destruct Hin as [Hin|Hin].
  - destruct (Hinv r oid Hin Hr) as (o & Hf & Hrest). exists o.
    rewrite find_app, Hf. auto.
  - apply list_elem_of_singleton in Hin. subst r.
    destruct Hwhat as [[_ [Hnone _]]|[_ (o & oid' & Ho & Hrev & Hrest)]];
      [congruence|].
    rewrite Hrev in Hr. injection Hr as ->. exists o.
    unfold getEventById in Ho. rewrite Ht, find_app, Ho. auto.
Qed.

(** X19. After any sequence of calls on a store that started without
    events, every event with a [reversesEventId] mirrors the event that the
    identifier resolves to within its tenant: it has the type [REVERSAL],
    the account and the currency of that event, and as amount the text of
    that event's amount read by [parseFloat] and negated; when that amount
    is finite, the two amounts add up to zero in double precision. *)
Theorem reversals_mirror_their_originals (cs : list Call) (w0 : World) :
  events (storage w0) = [] ->
  let s := storage (calls cs w0) in
  forall r oid, r ∈ events s -> ev_reversesEventId r = Some oid ->
    exists o,
      getEventById s (ev_tenantId r) oid = Some o
      /\ ev_eventType r = "REVERSAL"
      /\ ev_accountId r = ev_accountId o
      /\ ev_currency r = ev_currency o
      /\ ev_amount r = toString (fneg (parseFloat (ev_amount o)))
      /\ (finite (parseFloat (ev_amount o)) ->
          fadd (parseFloat (ev_amount o)) (parseFloat (ev_amount r)) = Num 0).
Proof.
  intros H0 s r oid Hin Hr.
  assert (Hinv : reversals_mirror (events s)).
  { unfold s. apply (calls_keep (fun s => reversals_mirror (events s))).
    - apply reversals_mirror_call.
    - rewrite H0. intros ? ? He. inversion He. }
  destruct (Hinv r oid Hin Hr) as (o & Hf & Hacc & Hcur & Hty & Ham).
  rewrite fmul_minus_one in Ham by apply parseFloat_canonical.
  exists o. split; [exact Hf|]. split; [exact Hty|]. split; [exact Hacc|].
  split; [exact Hcur|]. split; [exact Ham|].
  intros Hfin. rewrite Ham. apply reversal_cancels; [apply parseFloat_canonical|].
  destruct (parseFloat (ev_amount o)); try contradiction; eauto.
Qed.

Lemma reversals_mirror_their_originals_witness :
  let s := storage (calls [OpenAccount "tenant-001" open_A;
                           RecordEvent "tenant-001" credit_k1;
                           ReverseEvent "tenant-001" (reverse_e1 "k4")]
                          demo_world) in
  exists o,
    getEventById s (ev_tenantId demo_reversal) "e1" = Some o
    /\ ev_eventType demo_reversal = "REVERSAL"
    /\ ev_accountId demo_reversal = ev_accountId o
    /\ ev_currency demo_reversal = ev_currency o
    /\ ev_amount demo_reversal = toString (fneg (parseFloat (ev_amount o)))
    /\ (finite (parseFloat (ev_amount o)) ->
        fadd (parseFloat (ev_amount o)) (parseFloat (ev_amount demo_reversal))
        = Num 0).
Proof.
  intros s.
  apply (reversals_mirror_their_originals _ demo_world eq_refl demo_reversal "e1").
  - apply (bool_decide_unpack _). vm_compute. reflexivity.
  - reflexivity.
Defined.

(** ** New accounts *)

(** X20. On a store that started without events, an account that
    [openAccount] has just opened holds no event: its balance is
    [0.00000000] in the currency it was opened in, over 0 events. *)
Theorem new_account_starts_at_zero (cs : list Call) (w0 : World) (tid : string)
    (p : OpenAccountParams) :
  events (storage w0) = [] ->
  let w := calls cs w0 in
  let id := default (uuid_oracle w (uuid_drawn w)) (truthy (oa_accountId p)) in
  getAccount (storage w) tid id = None ->
  exists acc w',
    openAccount tid p w = (Ok acc, w')
    /\ acct_id acc = id
    /\ getEventsByAccountId (storage w') tid id = []
    /\ getAccountBalance tid id w'
       = (Ok (mkBalance id "0.00000000" (oa_currency p) 0), w').
Proof.
  intros H0 w id Hnone.
  assert (Hinv : events_accounted (storage w)).
  { unfold w. apply (calls_keep events_accounted).
    - apply call_keeps_accounted.
    - intros e He. rewrite H0 in He. inversion He. }
  assert (Hevs : getEventsByAccountId (storage w) tid id = []).
  { destruct (getEventsByAccountId (storage w) tid id) as [|e l] eqn:E; [reflexivity|].
    assert (He : e ∈ getEventsByAccountId (storage w) tid id) by (rewrite E; left).
    unfold getEventsByAccountId in He. apply list_elem_of_filter in He.
    destruct He as [[Ht Ha] He]. destruct (Hinv e He) as (a & Hsome & _).
    rewrite Ht, Ha in Hsome. congruence. }
  destruct (openAccount_fresh tid p w Hnone) as (au & w' & Hr & Hs & _).
  eexists _, w'. split; [exact Hr|]. split; [reflexivity|].
  assert (Hevs' : getEventsByAccountId (storage w') tid id = []).
  { unfold getEventsByAccountId in *. rewrite Hs. exact Hevs. }
  split; [exact Hevs'|].
  erewrite getAccountBalance_found;
    [|unfold getAccount; rewrite Hs; simpl; apply lookup_insert_eq].
  rewrite Hevs'. reflexivity.
Qed.

Lemma new_account_starts_at_zero_witness :
  exists acc w',
    openAccount "tenant-001" (mkOpenAccountParams (Some "B") "CASH" "EUR" None)
                (calls [OpenAccount "tenant-001" open_A;
                        RecordEvent "tenant-001" credit_k1] demo_world)
    = (Ok acc, w')
    /\ acct_id acc = "B"
    /\ getEventsByAccountId (storage w') "tenant-001" "B" = []
    /\ getAccountBalance "tenant-001" "B" w'
       = (Ok (mkBalance "B" "0.00000000" "EUR" 0), w').
Proof.
  apply (new_account_starts_at_zero
           [OpenAccount "tenant-001" open_A; RecordEvent "tenant-001" credit_k1]
           demo_world "tenant-001"
           (mkOpenAccountParams (Some "B") "CASH" "EUR" None) eq_refl).
  vm_compute. reflexivity.
Defined.

(** ** The text of a balance *)

(** X21. The text of a balance.  For an existing account whose sum is a
    finite double below [10^21] in magnitude, the balance that
    [getAccountBalance] returns is an optional minus sign, at least one
    digit, a point and exactly 8 digits, and these digits read as the sum
    times [10^8] rounded to the nearest integer, halves away from zero.
    A sum of [NaN] or of an infinity gives the text [NaN], [Infinity] or
    [-Infinity], and a sum of [10^21] or more the text of [toString]. *)
Theorem balance_text_has_eight_fraction_digits (tid aid : string) (w : World)
    (a : LedgerAccount) :
  getAccount (storage w) tid aid = Some a ->
  exists bal,
    getAccountBalance tid aid w = (Ok bal, w)
    /\ match sum_amounts (getEventsByAccountId (storage w) tid aid) with
       | NaN => bal_balance bal = "NaN"
       | Inf false => bal_balance bal = "Infinity"
       | Inf true => bal_balance bal = "-Infinity"
       | NegZero => bal_balance bal = "0.00000000"
       | Num k =>
           if (10 ^ 21 * ONE <=? Z.abs k)%Z then bal_balance bal = toString (Num k)
           else
             exists ip fp,
               bal_balance bal
               = (if (k <? 0)%Z then "-" else EmptyString) +:+ ip +:+ String "." fp
               /\ all_digits ip = true /\ ip <> EmptyString
               /\ all_digits fp = true /\ String.length fp = 8%nat
               /\ digits_value 0 (ip +:+ fp)
                  = round_half_up (Z.abs k * 10 ^ 8) ONE
       end.
Proof.
  intros Ha. eexists. split; [apply (getAccountBalance_found _ _ _ _ Ha)|].
  cbn [bal_balance].
  destruct (sum_amounts (getEventsByAccountId (storage w) tid aid)) as [|[]| |k];
    try reflexivity.
  destruct (Z.leb_spec (10 ^ 21 * ONE) (Z.abs k)) as [Hbig|Hsmall].
  - apply toFixed_large. exact Hbig.
  - unfold toFixed. destruct (Z.leb_spec (10 ^ 21 * ONE) (Z.abs k)); [lia|].
    change (10 ^ Z.of_nat 8)%Z with (10 ^ 8)%Z.
    destruct (fixed_digits_shape (round_half_up (Z.abs k * 10 ^ 8) ONE) 8)
      as (ip & fp & -> & Hrest).
    { unfold round_half_up. pose proof ONE_pos. apply Z.div_pos; lia. }
    exists ip, fp. split; [reflexivity|exact Hrest].
Qed.

Lemma balance_text_has_eight_fraction_digits_witness :
  exists bal,
    getAccountBalance "tenant-001" "A" halves_world = (Ok bal, halves_world)
    /\ exists ip fp,
         bal_balance bal = EmptyString +:+ ip +:+ String "." fp
         /\ all_digits ip = true /\ ip <> EmptyString
         /\ all_digits fp = true /\ String.length fp = 8%nat
         /\ digits_value 0 (ip +:+ fp) = 7025000000%Z.
Proof.
  destruct (balance_text_has_eight_fraction_digits "tenant-001" "A" halves_world
              account_A ltac:(vm_compute; reflexivity)) as (bal & Hr & Ht).
  exists bal. split; [exact Hr|].
  assert (Hs : sum_amounts (getEventsByAccountId (storage halves_world)
                              "tenant-001" "A")
               = Num (281 * 2 ^ 1072)%Z) by (vm_compute; reflexivity).
  rewrite Hs in Ht.
  assert (Hc : (10 ^ 21 * ONE <=? Z.abs (281 * 2 ^ 1072))%Z = false)
    by (vm_compute; reflexivity).
  rewrite Hc in Ht.
  assert (Hn : ((281 * 2 ^ 1072 <? 0)%Z = false)) by (vm_compute; reflexivity).
  rewrite Hn in Ht.
  assert (Hv : round_half_up (Z.abs (281 * 2 ^ 1072) * 10 ^ 8) ONE = 7025000000%Z)
    by (vm_compute; reflexivity).
  rewrite Hv in Ht. exact Ht.
Defined.

(** ** Dates *)

Lemma recordEvent_fresh_clock tid p w a :
  getEventByIdempotencyKey (storage w) tid (re_idempotencyKey p) = None ->
  getAccount (storage w) tid (re_accountId p) = Some a ->
  acct_currency a = re_currency p ->
  exists ev w',
    recordEvent tid p w = (Ok ev, w')
    /\ ev_createdAt ev = ValidDate (clock_oracle w (clock_drawn w))
    /\ clock_oracle w' = clock_oracle w
    /\ clock_drawn w' = S (S (clock_drawn w)).
Proof.
  intros Hk Ha Hc. unfold recordEvent. run_monad. rewrite Hk, Ha.
  destruct (decide (acct_currency a <> re_currency p)); [contradiction|].
  unfold or_uuid. destruct (truthy (re_eventId p)) as [eid|];
    unfold createEvent, emitAuditEvent, createAuditEvent; run_monad;
    rewrite Hk; simpl; eexists _, _; repeat split.
Qed.

Lemma reverseEvent_fresh_clock tid p w o :
  getEventByIdempotencyKey (storage w) tid (rv_idempotencyKey p) = None ->
  getEventById (storage w) tid (rv_originalEventId p) = Some o ->
  ~ Exists (fun e => ev_reversesEventId e = Some (rv_originalEventId p))
           (getEventsByAccountId (storage w) tid (ev_accountId o)) ->
  exists ev w',
    reverseEvent tid p w = (Ok ev, w')
    /\ ev_createdAt ev = ValidDate (clock_oracle w (clock_drawn w))
    /\ clock_oracle w' = clock_oracle w
    /\ clock_drawn w' = S (S (clock_drawn w)).
Proof.
  intros Hk Ho Hx. unfold reverseEvent. run_monad. rewrite Hk, Ho.
  destruct (decide _); [contradiction|].
  unfold or_uuid. destruct (truthy (rv_reversalEventId p)) as [rid|];
    unfold createEvent, emitAuditEvent, createAuditEvent; run_monad;
    rewrite Hk; simpl; eexists _, _; repeat split.
Qed.

Lemma openAccount_clock tid p w :
  clock_oracle (snd (openAccount tid p w)) = clock_oracle w
  /\ (clock_drawn w <= clock_drawn (snd (openAccount tid p w)))%nat.
Proof.
  unfold openAccount, or_uuid.
  destruct (truthy (oa_accountId p)) as [id|]; run_monad;
    (destruct (getAccount (storage w) tid _); simpl; [split; [reflexivity|lia]|]);
    unfold createAccount, emitAuditEvent, createAuditEvent; run_monad;
    (split; [reflexivity|lia]).
Qed.

(** A call reads the clock of the world it is given, and dates the event it
    appends by the next reading. *)
Lemma call_clock c w :
  clock_oracle (call c w) = clock_oracle w
  /\ (clock_drawn w <= clock_drawn (call c w))%nat
  /\ (events (storage (call c w)) = events (storage w)
      \/ exists ev,
           events (storage (call c w)) = events (storage w) ++ [ev]
           /\ ev_createdAt ev = ValidDate (clock_oracle w (clock_drawn w))
           /\ (clock_drawn w < clock_drawn (call c w))%nat).
Proof.
  destruct c as [t p|t p|t p|t a|t a f u|t a]; simpl.
  - destruct (openAccount_clock t p w) as [Ho Hd].
    split; [exact Ho|]. split; [exact Hd|]. left. apply openAccount_events.
  - destruct (getEventByIdempotencyKey (storage w) t (re_idempotencyKey p))
      as [e|] eqn:Hk.
    { rewrite (recordEvent_replay _ _ _ _ Hk). simpl. auto. }
    destruct (getAccount (storage w) t (re_accountId p)) as [a|] eqn:Ha.
    2:{ rewrite (recordEvent_no_account _ _ _ Hk Ha). simpl. auto. }
    destruct (decide (acct_currency a = re_currency p)) as [Hc|Hc].
    2:{ rewrite (recordEvent_currency _ _ _ _ Hk Ha Hc). simpl. auto. }
    destruct (recordEvent_fresh _ _ _ _ Hk Ha Hc)
      as (eid & now & au & w' & Hr & Hs & _).
    destruct (recordEvent_fresh_clock _ _ _ _ Hk Ha Hc)
      as (ev & w1 & Hr1 & Hdate & Horacle & Hdrawn).
    rewrite Hr in Hr1. injection Hr1 as <- <-.
    rewrite Hr. simpl. rewrite Hs. simpl.
    split; [exact Horacle|]. split; [lia|]. right. eexists. split; [reflexivity|].
    split; [exact Hdate|lia].
  - destruct (getEventByIdempotencyKey (storage w) t (rv_idempotencyKey p))
      as [e|] eqn:Hk.
    { rewrite (reverseEvent_replay _ _ _ _ Hk). simpl. auto. }
    destruct (getEventById (storage w) t (rv_originalEventId p)) as [o|] eqn:Ho.
    2:{ rewrite (reverseEvent_not_found _ _ _ Hk Ho). simpl. auto. }
    destruct (decide (Exists (fun e => ev_reversesEventId e
                                       = Some (rv_originalEventId p))
                (getEventsByAccountId (storage w) t (ev_accountId o)))) as [Hx|Hx].
    { rewrite (reverseEvent_already _ _ _ _ Hk Ho Hx). simpl. auto. }
    destruct (reverseEvent_fresh _ _ _ _ Hk Ho Hx)
      as (rid & now & au & w' & Hr & Hs & _).
    destruct (reverseEvent_fresh_clock _ _ _ _ Hk Ho Hx)
      as (ev & w1 & Hr1 & Hdate & Horacle & Hdrawn).
    rewrite Hr in Hr1. injection Hr1 as <- <-.
    rewrite Hr. simpl. rewrite Hs. simpl.
    split; [exact Horacle|]. split; [lia|]. right. eexists. split; [reflexivity|].
    split; [exact Hdate|lia].
  - rewrite getAccountBalance_world. auto.
  - rewrite getAccountStatement_world. auto.
  - rewrite verifyLedgerIntegrity_world. auto.
Qed.

Lemma StronglySorted_snoc {A} (R : A -> A -> Prop) (l : list A) (x : A) :
  StronglySorted R l -> Forall (fun y => R y x) l -> StronglySorted R (l ++ [x]).
Proof.
  induction 1 as [|y l Hs IH Hy]; intros Hx; simpl.
  - constructor; constructor.
  - inversion Hx as [|? ? Hyx Hlx]; subst. constructor; [apply IH; exact Hlx|].
    apply Forall_app. split; [exact Hy|]. constructor; [exact Hyx|constructor].
Qed.

Lemma StronglySorted_filter {A} (R : A -> A -> Prop) (P : A -> Prop)
    `{!forall x, Decision (P x)} (l : list A) :
  StronglySorted R l -> StronglySorted R (filter P l).
Proof.
  induction 1 as [|y l Hs IH Hy]; [constructor|].
  rewrite filter_cons. destruct (decide (P y)); [|exact IH].
  constructor; [exact IH|]. rewrite Forall_forall in *. intros z Hz.
  apply Hy. apply list_elem_of_filter in Hz. tauto.
Qed.

Lemma call_dated c w ns :
  dated_by w ns -> exists ns', dated_by (call c w) ns'.
Proof.
  intros (Hd & Hs & Hb).
  destruct (call_clock c w) as (Ho & Hle & [He | (ev & He & Hdate & Hlt)]).
  - exists ns. unfold dated_by. rewrite He, Ho. split; [exact Hd|].
    split; [exact Hs|]. eapply Forall_impl; [exact Hb|]. simpl. lia.
  - exists (ns ++ [clock_drawn w]). unfold dated_by.
    rewrite He, Ho, !fmap_app, Hd. simpl. rewrite Hdate.
    split; [reflexivity|]. split.
    + apply StronglySorted_snoc; assumption.
    + apply Forall_app. split.
      * eapply Forall_impl; [exact Hb|]. simpl. lia.
      * constructor; [exact Hlt|constructor].
Qed.

Lemma calls_dated cs w ns :
  dated_by w ns -> exists ns', dated_by (calls cs w) ns'.
Proof.
  revert w ns. induction cs as [|c cs IH]; intros w ns H; [eauto|].
  simpl. destruct (call_dated c w ns H) as (ns' & H'). apply (IH _ _ H').
Qed.

Lemma calls_clock_oracle cs w : clock_oracle (calls cs w) = clock_oracle w.
Proof.
  revert w. induction cs as [|c cs IH]; intros w; [reflexivity|].
  simpl. rewrite IH. apply call_clock.
Qed.

(** X22. Every event is dated by the clock at the moment it is stored.  On
    a store that started without events, every stored event carries a valid
    date; and if the clock never runs backwards, the events of an account,
    in the order in which they were stored (that of their sequence
    numbers), are in the order of their dates. *)
Theorem events_are_dated_in_order (cs : list Call) (w0 : World) :
  events (storage w0) = [] ->
  let w := calls cs w0 in
  Forall (fun e => ev_createdAt e <> InvalidDate) (events (storage w))
  /\ ((forall m n, (m <= n)%nat -> (clock_oracle w0 m <= clock_oracle w0 n)%Z) ->
      forall tid aid,
        StronglySorted not_after (getEventsByAccountId (storage w) tid aid)).
Proof.
  intros H0 w.
  destruct (calls_dated cs w0 []) as (ns & Hd & Hs & _).
  { unfold dated_by. rewrite H0. split; [reflexivity|]. split; constructor. }
  fold w in Hd. unfold w in Hd at 2. rewrite calls_clock_oracle in Hd.
  split.
  - rewrite Forall_forall. intros e He Hinv.
    apply (list_elem_of_fmap_2 ev_createdAt) in He. rewrite Hd, Hinv in He.
    apply list_elem_of_fmap in He. destruct He as (n & Hn & _). discriminate.
  - intros Hmono tid aid. apply StronglySorted_filter.
    clear -Hd Hs Hmono. revert ns Hd Hs.
    induction (events (storage w)) as [|e l IH]; intros ns Hd Hs; [constructor|].
    destruct ns as [|n ns]; [discriminate|].
    rewrite !fmap_cons in Hd. injection Hd as He Hl.
    inversion Hs as [|? ? Hs' Hn]; subst.
    constructor; [apply (IH ns Hl Hs')|].
    rewrite Forall_forall. intros e' He'.
    apply (list_elem_of_fmap_2 ev_createdAt) in He'. rewrite Hl in He'.
    apply list_elem_of_fmap in He'. destruct He' as (n' & Hn' & Hin).
    rewrite Forall_forall in Hn. specialize (Hn n' Hin).
    exists (clock_oracle w0 n), (clock_oracle w0 n').
    split; [exact He|]. split; [exact Hn'|]. apply Hmono. lia.
Qed.

Lemma events_are_dated_in_order_witness :
  let w := calls [OpenAccount "tenant-001" open_A;
                  RecordEvent "tenant-001" credit_k1;
                  RecordEvent "tenant-001" debit_k2] demo_world in
  Forall (fun e => ev_createdAt e <> InvalidDate) (events (storage w))
  /\ StronglySorted not_after (getEventsByAccountId (storage w) "tenant-001" "A").
Proof.
  intros w.
  destruct (events_are_dated_in_order
              [OpenAccount "tenant-001" open_A; RecordEvent "tenant-001" credit_k1;
               RecordEvent "tenant-001" debit_k2] demo_world eq_refl)
    as [Hvalid Horder].
  split; [exact Hvalid|]. apply Horder.
  intros m n Hmn. simpl. lia.
Defined.

(** ** Amounts with eight fraction digits *)

Section Decimals.
Local Open Scope Z_scope.

Lemma round_half_even_error (p q : Z) :
  0 < q -> 2 * Z.abs (round_half_even p q * q - p) <= q.
Proof.
  intros Hq. unfold round_half_even.
  pose proof (Z.div_mod p q ltac:(lia)) as Hp.
  pose proof (Z.mod_pos_bound p q Hq) as Hr.
  set (d := p / q) in *. set (r := p mod q) in *.
  destruct (Z.compare_spec (2 * r) q); [destruct (Z.even d)| |]; nia.
Qed.

(** Below [2^E] the rounding error is at most half of [2^(E-53)]. *)
Lemma round_units_error (p q E : Z) :
  0 <= p -> 0 < q -> 53 <= E -> p < 2 ^ E * q ->
  2 * Z.abs (round_units p q * q - p) <= q * 2 ^ (E - 53).
Proof.
  intros Hp Hq HE Hlt. unfold round_units.
  assert (Ht : 0 <= p / q) by (apply Z.div_pos; lia).
  assert (HtE : p / q < 2 ^ E) by (apply Z.div_lt_upper_bound; lia).
  assert (H1 : 1 <= 2 ^ (E - 53)) by (apply (Z.pow_le_mono_r 2 0); lia).
  destruct (Z.ltb_spec (p / q) (2 ^ 53)) as [Hsmall|Hbig].
  - pose proof (round_half_even_error p q Hq). nia.
  - set (t := p / q) in *. set (sh := Z.log2 t - 52).
    assert (H53 : 53 <= Z.log2 t) by (apply Z.log2_le_pow2; lia).
    assert (HlE : Z.log2 t < E) by (apply Z.log2_lt_pow2; lia).
    assert (Hg : 0 < 2 ^ sh) by (apply Z.pow_pos_nonneg; unfold sh; lia).
    assert (Hle : 2 ^ sh <= 2 ^ (E - 53)) by (apply Z.pow_le_mono_r; unfold sh; lia).
    pose proof (round_half_even_error p (q * 2 ^ sh) ltac:(lia)) as Herr.
    replace (round_half_even p (q * 2 ^ sh) * 2 ^ sh * q)
      with (round_half_even p (q * 2 ^ sh) * (q * 2 ^ sh)) by ring.
    nia.
Qed.

Lemma round_F64_units (neg : bool) (p q : Z) :
  0 <= p -> 0 < q -> round_units p q < OVERFLOW ->
  finite (round_F64 neg p q)
  /\ units_of (round_F64 neg p q)
     = if neg then - round_units p q else round_units p q.
Proof.
  intros Hp Hq Ho. unfold round_F64.
  destruct (Z.leb_spec OVERFLOW (round_units p q)); [lia|].
  destruct (Z.eqb_spec (round_units p q) 0) as [->|_]; destruct neg; simpl; auto.
Qed.

End Decimals.

Section DecimalSums.
Local Open Scope Z_scope.

Lemma pow_below_overflow (E : Z) :
  53 <= E -> E <= 2097 -> 2 ^ E + 2 ^ (E - 53) <= OVERFLOW.
Proof.
  intros HE HE'. unfold OVERFLOW. replace 2098 with (Z.succ 2097) by lia.
  rewrite Z.pow_succ_r by lia.
  assert (H1 : 2 ^ E <= 2 ^ 2097) by (apply Z.pow_le_mono_r; lia).
  assert (H2 : 2 ^ (E - 53) <= 2 ^ 2097) by (apply Z.pow_le_mono_r; lia).
  revert H1 H2. generalize (2 ^ 2097) (2 ^ E) (2 ^ (E - 53)). intros; lia.
Qed.

(** Reading a decimal with 8 fraction digits: a finite double within half
    of [2^(E-53)] units of its value. *)
Lemma parseFloat_hundred_millionths (s : string) (c E : Z) :
  hundred_millionths s c -> 53 <= E -> E <= 2097 ->
  Z.abs c * ONE < 2 ^ E * 10 ^ 8 ->
  finite (parseFloat s)
  /\ 2 * Z.abs (units_of (parseFloat s) * 10 ^ 8 - c * ONE)
     <= 10 ^ 8 * 2 ^ (E - 53).
Proof.
  unfold hundred_millionths, exact_value, parseFloat. pose proof ONE_pos as H1.
  destruct (parse_literal s) as [| |neg m e] eqn:Hl; try contradiction.
  pose proof (parse_literal_nonneg s neg m e Hl) as Hm.
  intros Hc HE HE' Hb.
  set (p := if 0 <=? e then m * 10 ^ e else m).
  set (q := if 0 <=? e then 1 else 10 ^ (- e)).
  assert (Hq : 0 < q).
  { unfold q. destruct (Z.leb_spec 0 e); [lia|]. apply Z.pow_pos_nonneg; lia. }
  assert (Hp : 0 <= p).
  { unfold p. destruct (Z.leb_spec 0 e); [|exact Hm].
    apply Z.mul_nonneg_nonneg; [exact Hm|]. apply Z.pow_nonneg. lia. }
  assert (Hpc : p * 10 ^ 8 = Z.abs c * q /\ (if neg then c <= 0 else 0 <= c)).
  { unfold p, q. destruct (Z.leb_spec 0 e); destruct neg; simpl in Hc; split; nia. }
  destruct Hpc as [Hpc Hsign].
  assert (Hdec : of_decimal neg m e = round_F64 neg (p * ONE) q).
  { unfold of_decimal, p, q. destruct (0 <=? e); reflexivity. }
  rewrite Hdec.
  assert (Hlt : p * ONE < 2 ^ E * q) by nia.
  pose proof (round_units_error (p * ONE) q E ltac:(nia) Hq HE Hlt) as Herr.
  pose proof (round_units_nonneg (p * ONE) q ltac:(nia) Hq) as Hr0.
  set (r := round_units (p * ONE) q) in *.
  assert (Hpow : 0 < 2 ^ (E - 53)) by (apply Z.pow_pos_nonneg; lia).
  assert (Hro : r < OVERFLOW).
  { pose proof (pow_below_overflow E HE HE') as HEO. clearbody r. clear -HEO Herr Hlt Hq Hpow.
    nia. }
  destruct (round_F64_units neg (p * ONE) q ltac:(nia) Hq Hro) as [Hfin Hu].
  split; [exact Hfin|]. rewrite Hu. fold r.
  assert (Hmain : 2 * Z.abs (r * 10 ^ 8 - Z.abs c * ONE) * q
                  <= 10 ^ 8 * 2 ^ (E - 53) * q).
  { replace (2 * Z.abs (r * 10 ^ 8 - Z.abs c * ONE) * q)
      with (2 * Z.abs (r * q * 10 ^ 8 - Z.abs c * q * ONE)) by nia.
    rewrite <- Hpc.
    replace (r * q * 10 ^ 8 - p * 10 ^ 8 * ONE) with ((r * q - p * ONE) * 10 ^ 8)
      by ring.
    rewrite Z.abs_mul. nia. }
  assert (Hmain' : 2 * Z.abs (r * 10 ^ 8 - Z.abs c * ONE) <= 10 ^ 8 * 2 ^ (E - 53))
    by nia.
  destruct neg; lia.
Qed.

(** Adding two finite doubles below [2^E]: a finite double within half of
    [2^(E-53)] units of the sum. *)
Lemma fadd_error (x y : F64) (E : Z) :
  finite x -> finite y -> 53 <= E -> E <= 2097 ->
  Z.abs (units_of x + units_of y) < 2 ^ E ->
  finite (fadd x y)
  /\ 2 * Z.abs (units_of (fadd x y) - (units_of x + units_of y)) <= 2 ^ (E - 53).
Proof.
  intros Hx Hy HE HE' Hb.
  assert (Hpow : 0 < 2 ^ (E - 53)) by (apply Z.pow_pos_nonneg; lia).
  destruct x as [| | |a], y as [| | |b]; try contradiction; simpl in *;
    try (split; [exact I|lia]).
  unfold of_units. destruct (Z.eqb_spec (a + b) 0) as [->|Hne];
    [simpl; split; [exact I|lia]|].
  pose proof (round_units_error (Z.abs (a + b)) 1 E ltac:(lia) ltac:(lia) HE
                ltac:(lia)) as Herr.
  pose proof (round_units_nonneg (Z.abs (a + b)) 1 ltac:(lia) ltac:(lia)) as Hr0.
  set (r := round_units (Z.abs (a + b)) 1) in *.
  assert (Hro : r < OVERFLOW).
  { pose proof (pow_below_overflow E HE HE') as HEO. clearbody r. clear -HEO Herr Hb Hpow.
    lia. }
  destruct (round_F64_units (a + b <? 0) (Z.abs (a + b)) 1 ltac:(lia) ltac:(lia) Hro)
    as [Hfin Hu].
  split; [exact Hfin|]. rewrite Hu. fold r.
  destruct (Z.ltb_spec (a + b) 0); lia.
Qed.

End DecimalSums.

Section DecimalBalance.
Local Open Scope Z_scope.

Lemma sum_abs_nonneg (cs : list Z) : 0 <= sum_list_Z (Z.abs <$> cs).
Proof.
  induction cs as [|y l IH]; [reflexivity|].
  rewrite fmap_cons. cbn [sum_list_Z]. lia.
Qed.

(** The running total of decimals with 8 fraction digits stays within
    [2^(E-53)] units per event of the exact total, as long as the totals
    stay below [2^E]. *)
Lemma fold_fadd_decimal (evs : list LedgerEvent) (cs : list Z) (E : Z) :
  53 <= E -> E <= 2097 ->
  Forall2 hundred_millionths (ev_amount <$> evs) cs ->
  forall (x : F64) (C0 j : Z),
    finite x -> 0 <= j ->
    Z.abs (units_of x * 10 ^ 8 - C0 * ONE) <= j * (10 ^ 8 * 2 ^ (E - 53)) ->
    (Z.abs C0 + sum_list_Z (Z.abs <$> cs)) * ONE
    + (j + Z.of_nat (length cs)) * (10 ^ 8 * 2 ^ (E - 53)) < 2 ^ E * 10 ^ 8 ->
    let S := fold_left (fun b e => fadd b (parseFloat (ev_amount e))) evs x in
    finite S
    /\ Z.abs (units_of S * 10 ^ 8 - (C0 + sum_list_Z cs) * ONE)
       <= (j + Z.of_nat (length cs)) * (10 ^ 8 * 2 ^ (E - 53)).
Proof.
  intros HE HE' Hcs. pose proof ONE_pos as H1.
  assert (Heps : 0 < 2 ^ (E - 53)) by (apply Z.pow_pos_nonneg; lia).
  change (10 ^ 8) with 100000000 in *.
  remember (ev_amount <$> evs) as amounts eqn:Ham. revert evs Ham.
  induction Hcs as [|s c amounts cs Hs Hcs IH]; intros evs Ham x C0 j Hx Hj Herr Hb.
  - destruct evs; [|discriminate]. simpl in *. split; [exact Hx|].
    rewrite !Z.add_0_r. exact Herr.
  - destruct evs as [|e evs]; [discriminate|]. rewrite fmap_cons in Ham.
    injection Ham as -> ->. cbn [fold_left sum_list_Z length fmap list_fmap] in *.
    pose proof (sum_abs_nonneg cs) as Hsum0.
    rewrite Nat2Z.inj_succ in Hb |- *.
    set (n := Z.of_nat (length cs)) in *.
    assert (Hn : 0 <= n) by (unfold n; lia).
    set (S' := sum_list_Z (Z.abs <$> cs)) in *.
    assert (HS1 : 0 <= S' * ONE) by (apply Z.mul_nonneg_nonneg; lia).
    assert (HC1 : 0 <= Z.abs C0 * ONE) by (apply Z.mul_nonneg_nonneg; lia).
    assert (Hn1 : 0 <= n * 2 ^ (E - 53)) by (apply Z.mul_nonneg_nonneg; lia).
    assert (Hj1 : 0 <= j * 2 ^ (E - 53)) by (apply Z.mul_nonneg_nonneg; lia).
    assert (Htri : Z.abs (C0 + c) * ONE <= Z.abs C0 * ONE + Z.abs c * ONE).
    { rewrite <- Z.mul_add_distr_r. apply Z.mul_le_mono_nonneg_r; lia. }
    assert (Hc1 : Z.abs c * ONE < 2 ^ E * 100000000).
    { clear -Hb HS1 HC1 Hn1 Hj1 Heps. lia. }
    destruct (parseFloat_hundred_millionths (ev_amount e) c E Hs HE HE' Hc1)
      as [Hfin Hperr].
    change (10 ^ 8) with 100000000 in Hperr.
    set (k := units_of (parseFloat (ev_amount e))) in *.
    set (u := units_of x) in *.
    assert (Habs : Z.abs (C0 + c) * ONE = Z.abs ((C0 + c) * ONE))
      by (rewrite Z.abs_mul, (Z.abs_eq ONE); lia).
    assert (Hsum : Z.abs (u + k) < 2 ^ E).
    { clear -Herr Hperr Hb Htri Habs HS1 HC1 Hn1 Hj1 Heps. lia. }
    destruct (fadd_error x (parseFloat (ev_amount e)) E Hx Hfin HE HE' Hsum)
      as [Hfin' Haerr].
    fold u k in Haerr.
    set (x' := fadd x (parseFloat (ev_amount e))) in *.
    destruct (IH evs eq_refl x' (C0 + c) (j + 1) Hfin' ltac:(lia)) as [HS Herr'].
    + clear -Herr Hperr Haerr. lia.
    + fold n S'. clear -Hb Htri HS1 HC1 Hn1 Hj1 Heps. lia.
    + split; [exact HS|]. fold n in Herr' |- *.
      replace (C0 + (c + sum_list_Z cs)) with (C0 + c + sum_list_Z cs) by ring.
      replace (j + Z.succ n) with (j + 1 + n) by lia.
      exact Herr'.
Qed.

End DecimalBalance.

Section DecimalExact.
Local Open Scope Z_scope.

Lemma exact_sum_hundred_millionths (amounts : list string) (cs : list Z) (P Q A : Z) :
  Forall2 hundred_millionths amounts cs ->
  0 < Q -> P * 10 ^ 8 = A * Q ->
  exists P' Q',
    fold_left (fun acc s =>
                 match acc, exact_value s with
                 | Some x, Some v => Some (frac_add x v)
                 | _, _ => None
                 end) amounts (Some (P, Q)) = Some (P', Q')
    /\ 0 < Q' /\ P' * 10 ^ 8 = (A + sum_list_Z cs) * Q'.
Proof.
  intros Hu. revert P Q A. induction Hu as [|s k amounts cs Hs Hu IH];
    intros P Q A HQ HP.
  - exists P, Q. simpl. split; [reflexivity|]. split; [exact HQ|]. rewrite HP. ring.
  - simpl. unfold hundred_millionths in Hs.
    destruct (exact_value s) as [[p q]|] eqn:Hv; [|contradiction].
    pose proof (exact_value_pos s p q Hv) as Hq.
    destruct (IH (P * q + p * Q) (Q * q) (A + k)) as (P' & Q' & Hf & HQ' & HP').
    + apply Z.mul_pos_pos; assumption.
    + replace ((P * q + p * Q) * 10 ^ 8) with (P * 10 ^ 8 * q + p * 10 ^ 8 * Q) by ring.
      rewrite HP, Hs. ring.
    + exists P', Q'. split; [exact Hf|]. split; [exact HQ'|].
      rewrite HP'. ring.
Qed.

(** A fraction within less than one half of an integer rounds to it. *)
Lemma round_half_up_near (p q n : Z) :
  0 < q -> 2 * Z.abs (p - n * q) < q -> round_half_up p q = n.
Proof.
  intros Hq Hn. unfold round_half_up. symmetry.
  apply (Z.div_unique_pos _ _ n (2 * p + q - 2 * q * n)); lia.
Qed.

Lemma sum_abs_bound (cs : list Z) : Z.abs (sum_list_Z cs) <= sum_list_Z (Z.abs <$> cs).
Proof.
  induction cs as [|y l IH]; [reflexivity|].
  rewrite fmap_cons. cbn [sum_list_Z]. lia.
Qed.

(** The rendering of the exact total [C * 10^-8]. *)
Lemma exact_balance_hundred_millionths (evs : list LedgerEvent) (cs : list Z) :
  Forall2 hundred_millionths (ev_amount <$> evs) cs ->
  exact_balance evs
  = Some ((if sum_list_Z cs <? 0 then "-" else EmptyString)
          +:+ fixed_digits (Z.abs (sum_list_Z cs)) 8).
Proof.
  intros Hcs. unfold exact_balance, exact_sum.
  destruct (exact_sum_hundred_millionths _ cs 0 1 0 Hcs ltac:(lia) ltac:(lia))
    as (P & Q & -> & HQ & HP).
  simpl fmap. unfold exact_toFixed. cbn [fst snd]. rewrite Z.add_0_l in HP.
  change (10 ^ Z.of_nat 8) with (10 ^ 8). change (10 ^ 8) with 100000000 in *.
  f_equal. f_equal.
  - destruct (Z.ltb_spec P 0), (Z.ltb_spec (sum_list_Z cs) 0); try reflexivity; nia.
  - f_equal. apply round_half_up_near; [exact HQ|]. nia.
Qed.

End DecimalExact.

Section DecimalTheorem.
Local Open Scope Z_scope.

(** The error budget: [n] events, each within [2^e * 2^1021] units, stay
    below one half of [10^-8], and the totals below [2^e]. *)
Lemma error_budget (N A W S : Z) :
  0 < W -> 1 <= A -> 1 <= N -> 0 <= S ->
  S + 100000000 <= A * 100000000 ->
  2 * N * A * 100000000 < 9007199254740992 ->
  (0 + S) * (9007199254740992 * W) + (0 + N) * (100000000 * (A * W))
  < A * (9007199254740992 * W) * 100000000
  /\ 2 * ((0 + N) * (100000000 * (A * W))) < 9007199254740992 * W
  /\ A <= 9007199254740992.
Proof.
  intros HW HA HN HS Hmag Hnum.
  assert (HNA : A <= N * A) by nia.
  assert (H1 : S * 9007199254740992 + N * A * 100000000
               < A * 9007199254740992 * 100000000) by lia.
  assert (H2 : 2 * (N * A) * 100000000 < 9007199254740992) by lia.
  split; [|split; [|lia]].
  - replace ((0 + S) * (9007199254740992 * W) + (0 + N) * (100000000 * (A * W)))
      with ((S * 9007199254740992 + N * A * 100000000) * W) by ring.
    replace (A * (9007199254740992 * W) * 100000000)
      with (A * 9007199254740992 * 100000000 * W) by ring.
    apply Z.mul_lt_mono_pos_r; assumption.
  - replace (2 * ((0 + N) * (100000000 * (A * W))))
      with (2 * (N * A) * 100000000 * W) by ring.
    apply Z.mul_lt_mono_pos_r; assumption.
Qed.

(** The double-precision total of decimals with 8 fraction digits, when
    they are few and small enough: its text is that of the exact total, but
    for the sign. *)
Lemma toFixed_decimal_sum (evs : list LedgerEvent) (cs : list Z) (e : Z) :
  Forall2 hundred_millionths (ev_amount <$> evs) cs ->
  0 <= e ->
  sum_list_Z (Z.abs <$> cs) + 10 ^ 8 <= 2 ^ e * 10 ^ 8 ->
  2 * Z.of_nat (length cs) * 2 ^ e * 10 ^ 8 < 2 ^ 53 ->
  exists neg : bool,
    toFixed (sum_amounts evs) 8
    = (if neg then "-" else EmptyString) +:+ fixed_digits (Z.abs (sum_list_Z cs)) 8
    /\ (sum_list_Z cs <> 0 -> neg = (sum_list_Z cs <? 0)).
Proof.
  intros Hcs He Hmag Hnum.
  destruct cs as [|c0 cs0].
  { inversion Hcs as [Hnil|]; subst. destruct evs; [|discriminate].
    exists false. split; [reflexivity|]. intros H. contradiction. }
  remember (c0 :: cs0) as cs eqn:Hcseq.
  assert (HN : 1 <= Z.of_nat (length cs)) by (rewrite Hcseq; simpl length; lia).
  clear Hcseq c0 cs0.
  pose proof (sum_abs_bound cs) as HC. pose proof (sum_abs_nonneg cs) as HS0.
  pose proof ONE_pos as H1.
  change (10 ^ 8) with 100000000 in *. change (2 ^ 53) with 9007199254740992 in *.
  assert (HW : 0 < 2 ^ 1021) by (apply Z.pow_pos_nonneg; lia).
  assert (HA : 1 <= 2 ^ e) by (apply (Z.pow_le_mono_r 2 0); lia).
  assert (HONE : ONE = 9007199254740992 * 2 ^ 1021).
  { unfold ONE. change 9007199254740992 with (2 ^ 53).
    rewrite <- Z.pow_add_r by lia. reflexivity. }
  assert (HE : 2 ^ (e + 1074) = 2 ^ e * ONE)
    by (unfold ONE; apply Z.pow_add_r; lia).
  assert (Heps : 2 ^ (e + 1074 - 53) = 2 ^ e * 2 ^ 1021).
  { rewrite <- Z.pow_add_r by lia. f_equal. lia. }
  destruct (error_budget _ _ _ _ HW HA HN HS0 Hmag Hnum) as (Hb1 & Hb2 & HA53).
  rewrite <- HONE in Hb1, Hb2.
  assert (He' : e <= 53).
  { apply (Z.pow_le_mono_r_iff 2); [lia|lia|exact HA53]. }
  destruct (fold_fadd_decimal evs cs (e + 1074) ltac:(lia) ltac:(lia) Hcs
              (Num 0) 0 0 I ltac:(lia)) as [Hfin Herr].
  { simpl. lia. }
  { rewrite HE, Heps. exact Hb1. }
  fold (sum_amounts evs) in Hfin, Herr.
  rewrite Heps, Z.add_0_l in Herr. change (10 ^ 8) with 100000000 in Herr.
  set (C := sum_list_Z cs) in *.
  assert (Hclose : 2 * Z.abs (units_of (sum_amounts evs) * 100000000 - C * ONE) < ONE)
    by (clear -Herr Hb2; lia).
  assert (HCb : Z.abs C + 1 <= 9007199254740992 * 100000000)
    by (clear -HC Hmag HA53; lia).
  clear -Hfin Hclose HCb H1.
  destruct (sum_amounts evs) as [| | |a]; try contradiction; simpl units_of in Hclose.
  - (* the total is -0 *)
    assert (HC0 : C = 0) by (clear -Hclose H1; nia).
    exists false. split; [|intros; contradiction]. rewrite HC0. reflexivity.
  - assert (Habs : 2 * Z.abs (Z.abs a * 100000000 - Z.abs C * ONE) < ONE).
    { replace (Z.abs C * ONE) with (Z.abs (C * ONE))
        by (rewrite Z.abs_mul, (Z.abs_eq ONE); lia).
      clear -Hclose. lia. }
    assert (Hround : round_half_up (Z.abs a * 100000000) ONE = Z.abs C)
      by (apply round_half_up_near; [exact H1|exact Habs]).
    assert (Hsmall : (10 ^ 21 * ONE <=? Z.abs a) = false).
    { apply Z.leb_gt.
      assert (H2 : Z.abs a * 100000000 < (Z.abs C + 1) * ONE) by (clear -Habs H1; lia).
      assert (H6 : (Z.abs C + 1) * ONE <= 9007199254740992 * 100000000 * ONE)
        by (apply Z.mul_le_mono_nonneg_r; lia).
      change (10 ^ 21) with 1000000000000000000000.
      clear -H2 H6 H1. lia. }
    exists (a <? 0). split.
    + unfold toFixed. rewrite Hsmall.
      change (10 ^ Z.of_nat 8) with 100000000. rewrite Hround. reflexivity.
    + intros HC0. clear -Hclose HC0 H1.
      destruct (Z.ltb_spec a 0), (Z.ltb_spec C 0); try reflexivity; nia.
Qed.

End DecimalTheorem.

(** X23. Amounts with at most 8 fraction digits, as the column
    [numeric(20, 8)] holds them, add up exactly when they are few and small
    enough: if the amounts of an existing account are the decimals
    [c_i * 10^-8], their magnitudes add up to at most [2^e - 1], and
    [2 * n * 2^e * 10^8 < 2^53] for the [n] events, then the balance that
    [getAccountBalance] returns is the exact sum with 8 fraction digits.
    When the exact sum is zero the balance is [0.00000000], possibly with a
    minus sign in front. *)
Theorem decimal_amounts_add_up_exactly (tid aid : string) (w : World)
    (a : LedgerAccount) (cs : list Z) (e : Z) :
  getAccount (storage w) tid aid = Some a ->
  let evs := getEventsByAccountId (storage w) tid aid in
  Forall2 hundred_millionths (ev_amount <$> evs) cs ->
  (0 <= e)%Z ->
  (sum_list_Z (Z.abs <$> cs) + 10 ^ 8 <= 2 ^ e * 10 ^ 8)%Z ->
  (2 * Z.of_nat (length cs) * 2 ^ e * 10 ^ 8 < 2 ^ 53)%Z ->
  exists bal,
    getAccountBalance tid aid w = (Ok bal, w)
    /\ (sum_list_Z cs <> 0%Z -> Some (bal_balance bal) = exact_balance evs)
    /\ (sum_list_Z cs = 0%Z ->
        exact_balance evs = Some "0.00000000"
        /\ (bal_balance bal = "0.00000000" \/ bal_balance bal = "-0.00000000")).
Proof.
  intros Ha evs Hcs He Hmag Hnum.
  eexists. split; [apply (getAccountBalance_found _ _ _ _ Ha)|].
  fold evs. cbn [bal_balance].
  destruct (toFixed_decimal_sum evs cs e Hcs He Hmag Hnum) as (neg & -> & Hneg).
  rewrite (exact_balance_hundred_millionths evs cs Hcs). split.
  - intros HC. rewrite (Hneg HC). reflexivity.
  - intros ->. split; [reflexivity|]. destruct neg; [right|left]; reflexivity.
Qed.

Lemma decimal_amounts_add_up_exactly_witness :
  let w := calls [OpenAccount "tenant-001" open_A;
                  RecordEvent "tenant-001"
                    (mkRecordEventParams (Some "e1") "A" "CREDIT" "0.3" "USD" "k1"
                                         None None);
                  RecordEvent "tenant-001"
                    (mkRecordEventParams (Some "e2") "A" "DEBIT" "-0.1" "USD" "k2"
                                         None None);
                  RecordEvent "tenant-001"
                    (mkRecordEventParams (Some "e3") "A" "DEBIT" "-0.2" "USD" "k3"
                                         None None)] demo_world in
  exists bal,
    getAccountBalance "tenant-001" "A" w = (Ok bal, w)
    /\ exact_balance (getEventsByAccountId (storage w) "tenant-001" "A")
       = Some "0.00000000"
    /\ bal_balance bal = "-0.00000000".
Proof.
  intros w.
  destruct (decimal_amounts_add_up_exactly "tenant-001" "A" w account_A
              [30000000; -10000000; -20000000]%Z 1)
    as (bal & Hr & _ & Hz).
  - vm_compute. reflexivity.
  - assert (Hamounts : ev_amount <$> getEventsByAccountId (storage w) "tenant-001" "A"
                       = ["0.3"; "-0.1"; "-0.2"]) by (vm_compute; reflexivity).
    rewrite Hamounts.
    repeat (constructor; [vm_compute; reflexivity|]). constructor.
  - lia.
  - vm_compute. discriminate.
  - vm_compute. reflexivity.
  - exists bal. split; [exact Hr|]. destruct (Hz eq_refl) as [Hexact _].
    split; [exact Hexact|].
    assert (Hb : fst (getAccountBalance "tenant-001" "A" w)
                 = Ok (mkBalance "A" "-0.00000000" "USD" 3))
      by (vm_compute; reflexivity).
    rewrite Hr in Hb. injection Hb as ->. reflexivity.
Defined.

(** ** The opening balance of a full statement *)

Section OpeningBalance.
Local Open Scope Z_scope.

(** Fractions of equal value round alike. *)
Lemma round_units_cross (p1 q1 p2 q2 : Z) :
  0 < q1 -> 0 < q2 -> p1 * q2 = p2 * q1 -> round_units p1 q1 = round_units p2 q2.
Proof.
  intros H1 H2 H.
  rewrite <- (round_units_cancel p1 q1 q2 H1 H2).
  rewrite <- (round_units_cancel p2 q2 q1 H2 H1).
  rewrite H. f_equal. ring.
Qed.

(** What [parseFloat] makes of a decimal with 8 fraction digits. *)
Lemma parseFloat_decimal (s : string) (c : Z) :
  hundred_millionths s c ->
  exists neg : bool,
    parseFloat s = round_F64 neg (Z.abs c * ONE) (10 ^ 8)
    /\ (if neg then c <= 0 else 0 <= c).
Proof.
  unfold hundred_millionths, exact_value, parseFloat. pose proof ONE_pos as H1.
  destruct (parse_literal s) as [| |neg m e] eqn:Hl; try contradiction.
  pose proof (parse_literal_nonneg s neg m e Hl) as Hm.
  intros Hc. exists neg. unfold of_decimal, round_F64.
  change (10 ^ 8) with 100000000 in *.
  destruct (Z.leb_spec 0 e) as [He|He]; cbn [fst snd] in Hc.
  - assert (Hp : 0 <= 10 ^ e) by (apply Z.pow_nonneg; lia).
    assert (Hsign : if neg then c <= 0 else 0 <= c) by (destruct neg; nia).
    split; [|exact Hsign].
    rewrite (round_units_cross (m * 10 ^ e * ONE) 1 (Z.abs c * ONE) 100000000);
      [reflexivity|lia|lia|].
    destruct neg; nia.
  - assert (Hp : 0 < 10 ^ (- e)) by (apply Z.pow_pos_nonneg; lia).
    assert (Hsign : if neg then c <= 0 else 0 <= c) by (destruct neg; nia).
    split; [|exact Hsign].
    rewrite (round_units_cross (m * ONE) (10 ^ (- e)) (Z.abs c * ONE) 100000000);
      [reflexivity|lia|lia|].
    destruct neg; nia.
Qed.

(** A decimal with 8 fraction digits below [2^26], read, added to zero,
    written with 8 fraction digits and read again, is the same double; its
    text shows the decimal itself. *)
Lemma toFixed_parseFloat_decimal (s : string) (c : Z) :
  hundred_millionths s c -> Z.abs c < 2 ^ 26 * 10 ^ 8 ->
  let x := fadd (Num 0) (parseFloat s) in
  toFixed x 8
  = (if c <? 0 then "-" else EmptyString) +:+ fixed_digits (Z.abs c) 8
  /\ parseFloat (toFixed x 8) = x
  /\ fsub x (parseFloat s) = Num 0.
Proof.
  intros Hs Hc. pose proof ONE_pos as H1.
  destruct (parseFloat_decimal s c Hs) as (neg & -> & Hsign).
  change (10 ^ 8) with 100000000 in *. change (2 ^ 26) with 67108864 in *.
  assert (Hlt : Z.abs c * ONE < 2 ^ 1100 * 100000000).
  { replace (2 ^ 1100) with (67108864 * ONE)
      by (unfold ONE; change 67108864 with (2 ^ 26);
          rewrite <- Z.pow_add_r by lia; reflexivity).
    clear -Hc H1. nia. }
  pose proof (round_units_error (Z.abs c * ONE) 100000000 1100
                ltac:(clear -H1; nia) ltac:(lia) ltac:(lia) Hlt) as Herr.
  pose proof (round_units_representable (Z.abs c * ONE) 100000000
                ltac:(clear -H1; nia) ltac:(lia)) as Hrep.
  assert (Heps : 100000000 * 2 ^ (1100 - 53) < ONE).
  { replace ONE with (134217728 * 2 ^ (1100 - 53))
      by (unfold ONE; change 134217728 with (2 ^ 27);
          rewrite <- Z.pow_add_r by lia; reflexivity).
    assert (0 < 2 ^ (1100 - 53)) by (apply Z.pow_pos_nonneg; lia).
    generalize dependent (2 ^ (1100 - 53)). intros; lia. }
  remember (round_units (Z.abs c * ONE) 100000000) as r eqn:Hrdef.
  assert (Hclose : 2 * Z.abs (r * 100000000 - Z.abs c * ONE) < ONE)
    by (clear -Herr Heps; lia).
  assert (Hr0 : 0 <= r) by apply Hrep.
  assert (Hround : round_half_up (r * 100000000) ONE = Z.abs c)
    by (apply round_half_up_near; [exact H1|exact Hclose]).
  assert (Hsmall : r < 10 ^ 21 * ONE).
  { change (10 ^ 21) with 1000000000000000000000.
    assert (H2 : r * 100000000 < (Z.abs c + 1) * ONE) by (clear -Hclose H1; lia).
    assert (H3 : (Z.abs c + 1) * ONE <= 6710886400000000 * ONE)
      by (apply Z.mul_le_mono_nonneg_r; lia).
    clear -H2 H3 H1. lia. }
  assert (Hover : r < OVERFLOW).
  { assert (10 ^ 21 * ONE < OVERFLOW) by (apply Z.ltb_lt; vm_compute; reflexivity).
    lia. }
  assert (Hzero : r = 0 <-> c = 0).
  { split.
    - clear -Hclose H1. intros ->. nia.
    - intros ->. rewrite Hrdef. reflexivity. }
  unfold round_F64. rewrite <- Hrdef.
  destruct (Z.leb_spec OVERFLOW r); [lia|].
  destruct (Z.eqb_spec r 0) as [Hr|Hr].
  - (* the decimal is zero *)
    assert (c = 0) by (apply Hzero; exact Hr). subst c r.
    assert (Hx : fadd (Num 0) (if neg then NegZero else Num 0) = Num 0)
      by (destruct neg; reflexivity).
    cbv zeta. rewrite Hx. split; [reflexivity|]. split; [vm_compute; reflexivity|].
    destruct neg; reflexivity.
  - assert (Hc0 : c <> 0) by (intros E; apply Hr, Hzero, E).
    set (k := if neg then - r else r).
    assert (Hk : Z.abs k = r) by (unfold k; destruct neg; lia).
    assert (Hkneg : (k <? 0) = neg).
    { unfold k. destruct neg; [apply Z.ltb_lt|apply Z.ltb_ge]; lia. }
    assert (Hcneg : (c <? 0) = neg).
    { destruct neg; [apply Z.ltb_lt|apply Z.ltb_ge]; lia. }
    assert (Hx : fadd (Num 0) (Num k) = Num k).
    { simpl. apply of_units_exact; rewrite Hk; assumption. }
    cbv zeta. rewrite Hx.
    assert (Htext : toFixed (Num k) 8
                    = (if c <? 0 then "-" else EmptyString)
                      +:+ fixed_digits (Z.abs c) 8).
    { unfold toFixed. rewrite Hk, Hkneg, Hcneg.
      destruct (Z.leb_spec (10 ^ 21 * ONE) r); [lia|].
      change (10 ^ Z.of_nat 8) with 100000000. rewrite Hround. reflexivity. }
    split; [exact Htext|]. split.
    + rewrite parseFloat_toFixed by (rewrite Hk; exact Hsmall).
      rewrite Hk, Hkneg. change (10 ^ Z.of_nat 8) with 100000000. rewrite Hround.
      change (of_decimal neg (Z.abs c) (- Z.of_nat 8))
        with (round_F64 neg (Z.abs c * ONE) 100000000).
      unfold round_F64. rewrite <- Hrdef.
      destruct (Z.leb_spec OVERFLOW r); [lia|].
      destruct (Z.eqb_spec r 0); [contradiction|]. reflexivity.
    + unfold fsub, fneg.
      destruct (Z.eqb_spec k 0) as [Hk0|_]; [lia|].
      simpl. replace (k + - k) with 0 by lia. reflexivity.
Qed.

End OpeningBalance.

(** X24. The statement of an existing account taken without a date window
    opens at [0.00000000] whenever the amount of its first event (the one
    with the least sequence number) is a decimal with at most 8 fraction
    digits below [2^26] in magnitude: the running balance of the first
    entry shows that decimal itself, reads back as the double it was
    written from, and the amount subtracted from it leaves zero. *)
Theorem full_statement_opens_at_zero (tid aid : string) (w : World)
    (a : LedgerAccount) (e : LedgerEvent) (rest : list LedgerEvent) (c : Z) :
  getAccount (storage w) tid aid = Some a ->
  sort_by_seq (getEventsByAccountId (storage w) tid aid) = e :: rest ->
  hundred_millionths (ev_amount e) c ->
  (Z.abs c < 2 ^ 26 * 10 ^ 8)%Z ->
  exists stmt first others,
    getAccountStatement tid aid None None w = (Ok stmt, w)
    /\ st_entries stmt = first :: others
    /\ se_eventId first = ev_id e
    /\ se_runningBalance first
       = (if (c <? 0)%Z then "-" else EmptyString) +:+ fixed_digits (Z.abs c) 8
    /\ st_openingBalance stmt = "0.00000000".
Proof.
  intros Ha Hsorted Hc Hsmall.
  destruct (toFixed_parseFloat_decimal (ev_amount e) c Hc Hsmall)
    as (Htext & Hback & Hzero).
  eexists _, _, _. split; [apply (getAccountStatement_all _ _ _ _ Ha)|].
  rewrite Hsorted. cbn [statement_entries st_entries st_openingBalance].
  split; [reflexivity|]. cbn [se_eventId se_runningBalance se_amount].
  split; [reflexivity|]. split; [exact Htext|].
  rewrite Hback, Hzero. reflexivity.
Qed.

Lemma full_statement_opens_at_zero_witness :
  exists stmt first others,
    getAccountStatement "tenant-001" "A" None None demo_two_events
    = (Ok stmt, demo_two_events)
    /\ st_entries stmt = first :: others
    /\ se_eventId first = "e1"
    /\ se_runningBalance first = EmptyString +:+ fixed_digits 10000000000 8
    /\ st_openingBalance stmt = "0.00000000".
Proof.
  apply (full_statement_opens_at_zero "tenant-001" "A" demo_two_events account_A
           demo_e1
           [mkEvent "e2" "tenant-001" "A" "DEBIT" "-30.00" "USD" "k2" None None None 2
                    (ValidDate 1700000000004)]
           10000000000).
  - vm_compute. reflexivity.
  - vm_compute. reflexivity.
  - vm_compute. reflexivity.
  - vm_compute. reflexivity.
Defined.
